(** * chaos_systems: the vector-field catalog and the trail engine

    A shallow embedding of [src/attractors.ts] (the eight attractors and the
    [attractors] table), of [src/particleSystem.ts] (class
    [ParticleSystem]) and of [src/main.ts] (the driver of the page),
    followed by the properties of the specification that were checked
    against them and by further properties of the code.

    JavaScript numbers are IEEE 754 binary64 values: they are Rocq's
    primitive floats.  A [Float32Array] rounds every stored number to
    binary32.  Loop counters, sizes and array indexes are natural numbers.
    [Math.random] is a stream of numbers of which the engine consumes a
    prefix; [Math.sin] is a function of the host. *)

From Stdlib Require Import ZArith Floats String Lia.
From stdpp Require Import base option list.

Set Warnings "-inexact-float".

(** ** JavaScript numbers *)

(** The number a loop counter or a size denotes. *)
Definition float_of_nat (n : nat) : float :=
  SF2Prim (binary_normalize prec emax (Z.of_nat n) 0 false).

(** The global [isFinite]: neither NaN nor an infinity. *)
Definition isFinite (x : float) : bool := PrimFloat.is_finite x.

(** [Math.fround]: the binary32 value nearest to [x] (ties to even, overflow
    to an infinity), as a binary64 number.  This is the conversion a
    [Float32Array] applies on every store. *)
Definition fround (x : float) : float :=
  match Prim2SF x with
  | S754_finite s m e => SF2Prim (binary_round 24 128 s m e)
  | _ => x
  end.

(** An index computed with [%]: [None] is NaN (the remainder by zero). *)
Definition index := option nat.

Definition js_rem (a : index) (b : nat) : index :=
  match a with
  | Some n => if Nat.eqb b 0 then None else Some (n mod b)
  | None => None
  end.

Definition index_add (a : index) (b : nat) : index :=
  match a with
  | Some n => Some (n + b)
  | None => None
  end.

(** [a - b] on indexes.  The difference is taken on naturals: in [update]
    it would be negative only for an empty ring, whose remainder is NaN
    whatever the dividend. *)
Definition index_sub (a : index) (b : nat) : index :=
  match a with
  | Some n => Some (n - b)
  | None => None
  end.

(** ** Typed arrays *)

Abbreviation Float32Array := (list float) (only parsing).

(** [new Float32Array(n)]: [n] zeros. *)
Definition new_Float32Array (n : nat) : Float32Array := replicate n 0%float.

(** [a[i]] used in arithmetic: past the end the read is [undefined], which
    every arithmetic operator turns into NaN. *)
Definition f32_get (a : Float32Array) (i : nat) : float := default nan (a !! i).

(** [a[i] = v]: the value is rounded to binary32; a store past the end is
    ignored (a typed array never grows). *)
Definition f32_set (a : Float32Array) (i : nat) (v : float) : Float32Array :=
  <[i := fround v]> a.

(** ** Outcomes of a call *)

(** [TypeError] is what the engine's code can raise (a property of
    [undefined]).  The three other errors are the ones the specification
    names; no statement of the source raises them. *)
Inductive error :=
| TypeError
| InvalidConfigurationError
| UnknownFieldError
| UseAfterDisposeError.

Inductive outcome (A : Type) :=
| Returns (a : A)
| Throws (e : error).
Arguments Returns {A} a.
Arguments Throws {A} e.

#[global] Instance outcome_ret : MRet outcome := fun A a => Returns a.
#[global] Instance outcome_bind : MBind outcome := fun A B k m =>
  match m with
  | Returns a => k a
  | Throws e => Throws e
  end.

(** A computation that may call [Math.random]: it is given the number of
    calls made so far and returns the new count. *)
Definition M (A : Type) : Type := nat -> outcome (A * nat).

#[global] Instance M_ret : MRet M := fun A a n => Returns (a, n).
#[global] Instance M_bind : MBind M := fun A B k m n =>
  match m n with
  | Returns (a, n') => k a n'
  | Throws e => Throws e
  end.

Definition lift {A} (o : outcome A) : M A := fun n =>
  match o with
  | Returns a => Returns (a, n)
  | Throws e => Throws e
  end.

(** [for (let i = 0; i < n; i++) body(i)] over a threaded state. *)
Fixpoint for_loop `{MBind m, MRet m} {St : Type} (n : nat)
    (body : nat -> St -> m St) (s : St) : m St :=
  match n with
  | O => mret s
  | S n' => s' ← for_loop n' body s; body n' s'
  end.

(** ** attractors.ts *)

Definition AttractorParams := list (string * float).

(** [p.key]: a missing key reads [undefined], which the arithmetic of the
    step functions turns into NaN. *)
Fixpoint param (p : AttractorParams) (key : string) : float :=
  match p with
  | [] => nan
  | (k, v) :: rest => if String.eqb k key then v else param rest key
  end.

(** The [description], [wikipediaUrl] and [equation] texts are display
    strings and are left out. *)
Record Attractor := {
  name : string;
  params : AttractorParams;
  paramRanges : list (string * (float * float * float));
  dt : float;
  scale : float;
  cameraPosition : float * float * float;
  step : float -> float -> float -> AttractorParams -> float -> float * float * float
}.

Section Catalog.
Variable Math_sin : float -> float.
Local Open Scope float_scope.

Definition lorenz : Attractor := {|
  name := "Lorenz";
  params := [("sigma", 10); ("rho", 28); ("beta", 8 / 3)]%string;
  paramRanges := [("sigma", (0, 20, 0.1)); ("rho", (0, 50, 0.1));
                  ("beta", (0, 10, 0.01))]%string;
  dt := 0.005;
  scale := 1.5;
  cameraPosition := (60, 60, 60);
  step := fun x y z p dt =>
    let dx := param p "sigma" * (y - x) in
    let dy := x * (param p "rho" - z) - y in
    let dz := x * y - param p "beta" * z in
    (x + dx * dt, y + dy * dt, z + dz * dt)
|}.

Definition thomas : Attractor := {|
  name := "Thomas";
  params := [("b", 0.208186)]%string;
  paramRanges := [("b", (0.1, 0.3, 0.001))]%string;
  dt := 0.04;
  scale := 8;
  cameraPosition := (15, 15, 15);
  step := fun x y z p dt =>
    let dx := Math_sin y - param p "b" * x in
    let dy := Math_sin z - param p "b" * y in
    let dz := Math_sin x - param p "b" * z in
    (x + dx * dt, y + dy * dt, z + dz * dt)
|}.

Definition dadras : Attractor := {|
  name := "Dadras";
  params := [("a", 3); ("b", 2.7); ("c", 1.7); ("d", 2); ("e", 9)]%string;
  paramRanges := [("a", (1, 5, 0.1)); ("b", (1, 5, 0.1)); ("c", (0.5, 3, 0.1));
                  ("d", (1, 4, 0.1)); ("e", (5, 15, 0.1))]%string;
  dt := 0.004;
  scale := 2;
  cameraPosition := (40, 40, 40);
  step := fun x y z p dt =>
    let dx := y - param p "a" * x + param p "b" * y * z in
    let dy := param p "c" * y - x * z + z in
    let dz := param p "d" * x * y - param p "e" * z in
    (x + dx * dt, y + dy * dt, z + dz * dt)
|}.

Definition rossler : Attractor := {|
  name := "Rössler";
  params := [("a", 0.2); ("b", 0.2); ("c", 5.7)]%string;
  paramRanges := [("a", (0.1, 0.5, 0.01)); ("b", (0.1, 0.5, 0.01));
                  ("c", (3, 10, 0.1))]%string;
  dt := 0.01;
  scale := 2.5;
  cameraPosition := (40, 40, 40);
  step := fun x y z p dt =>
    let dx := - y - z in
    let dy := x + param p "a" * y in
    let dz := param p "b" + z * (x - param p "c") in
    (x + dx * dt, y + dy * dt, z + dz * dt)
|}.

Definition aizawa : Attractor := {|
  name := "Aizawa";
  params := [("a", 0.95); ("b", 0.7); ("c", 0.6); ("d", 3.5); ("e", 0.25);
             ("f", 0.1)]%string;
  paramRanges := [("a", (0.5, 1.5, 0.01)); ("b", (0.3, 1.0, 0.01));
                  ("c", (0.3, 1.0, 0.01)); ("d", (2.0, 5.0, 0.1));
                  ("e", (0.1, 0.5, 0.01)); ("f", (0.05, 0.3, 0.01))]%string;
  dt := 0.005;
  scale := 10;
  cameraPosition := (8, 8, 8);
  step := fun x y z p dt =>
    let dx := (z - param p "b") * x - param p "d" * y in
    let dy := param p "d" * x + (z - param p "b") * y in
    let dz := param p "c" + param p "a" * z - (z * z * z) / 3
              - (x * x + y * y) * (1 + param p "e" * z)
              + param p "f" * z * x * x * x in
    (x + dx * dt, y + dy * dt, z + dz * dt)
|}.

Definition chen : Attractor := {|
  name := "Chen";
  params := [("a", 40); ("b", 3); ("c", 28)]%string;
  paramRanges := [("a", (30, 50, 0.5)); ("b", (1, 5, 0.1));
                  ("c", (20, 35, 0.5))]%string;
  dt := 0.002;
  scale := 1.2;
  cameraPosition := (80, 80, 80);
  step := fun x y z p dt =>
    let dx := param p "a" * (y - x) in
    let dy := (param p "c" - param p "a") * x - x * z + param p "c" * y in
    let dz := x * y - param p "b" * z in
    (x + dx * dt, y + dy * dt, z + dz * dt)
|}.

Definition halvorsen : Attractor := {|
  name := "Halvorsen";
  params := [("a", 1.89)]%string;
  paramRanges := [("a", (1.0, 3.0, 0.01))]%string;
  dt := 0.005;
  scale := 4;
  cameraPosition := (30, 30, 30);
  step := fun x y z p dt =>
    let dx := - param p "a" * x - 4 * y - 4 * z - y * y in
    let dy := - param p "a" * y - 4 * z - 4 * x - z * z in
    let dz := - param p "a" * z - 4 * x - 4 * y - x * x in
    (x + dx * dt, y + dy * dt, z + dz * dt)
|}.

Definition sprott : Attractor := {|
  name := "Sprott";
  params := [("a", 2.07); ("b", 1.79)]%string;
  paramRanges := [("a", (1.5, 3.0, 0.01)); ("b", (1.0, 2.5, 0.01))]%string;
  dt := 0.02;
  scale := 5;
  cameraPosition := (20, 20, 20);
  step := fun x y z p dt =>
    let dx := y + param p "a" * x * y + x * z in
    let dy := 1 - param p "b" * x * x + y * z in
    let dz := x - x * x - y * y in
    (x + dx * dt, y + dy * dt, z + dz * dt)
|}.

(** The [attractors] object: its own properties, in declaration order. *)
Definition attractors : list (string * Attractor) :=
  [("lorenz", lorenz); ("thomas", thomas); ("dadras", dadras);
   ("rossler", rossler); ("aizawa", aizawa); ("chen", chen);
   ("halvorsen", halvorsen); ("sprott", sprott)]%string.

(** [Object.keys(attractors)]. *)
Definition attractorNames : list string := map fst attractors.

(** The own property [key] of [o], when it has one. *)
Fixpoint own_property (o : list (string * Attractor)) (key : string)
    : option Attractor :=
  match o with
  | [] => None
  | (k, a) :: rest => if String.eqb k key then Some a else own_property rest key
  end.

(** The names of the properties of [Object.prototype], which every object
    literal inherits: the ones of ECMAScript and the accessors of its
    Annex B. *)
Definition Object_prototype : list string :=
  ["constructor"; "__defineGetter__"; "__defineSetter__"; "hasOwnProperty";
   "__lookupGetter__"; "__lookupSetter__"; "isPrototypeOf";
   "propertyIsEnumerable"; "toString"; "valueOf"; "__proto__";
   "toLocaleString"]%string.

Definition inherits (key : string) : bool :=
  existsb (String.eqb key) Object_prototype.

(** What the read [o[key]] of an object literal of descriptors gives: the
    own property; or, for a name of [Object.prototype], the member of that
    name there (a function, or for [__proto__] the prototype itself); or
    [undefined]. *)
Inductive member :=
| Descriptor (a : Attractor)
| Inherited (key : string)
| Undefined.

Definition lookup (o : list (string * Attractor)) (key : string) : member :=
  match own_property o key with
  | Some a => Descriptor a
  | None => if inherits key then Inherited key else Undefined
  end.

(** The descriptor whose [cameraPosition] is read and then indexed: on
    [undefined] the read raises a TypeError; on an inherited member the
    read gives [undefined] and the index, in the next statement, raises
    one. *)
Definition descriptor (m : member) : option Attractor :=
  match m with
  | Descriptor a => Some a
  | _ => None
  end.

(** An inherited member read as a descriptor: it has none of the
    properties of one.  The spread of its [params] is an empty object, and
    its [dt] and [scale] read [undefined], which arithmetic turns into NaN.
    Its [cameraPosition] and [step] are undefined too: the code that
    indexes the one or calls the other is given the member, see
    [descriptor] and [stepless], and never reads them here. *)
Definition fieldless : Attractor := {|
  name := "";
  params := [];
  paramRanges := [];
  dt := nan;
  scale := nan;
  cameraPosition := (nan, nan, nan);
  step := fun _ _ _ _ _ => (nan, nan, nan)
|}.

(** The object whose numbers and texts are read: [None] is [undefined]. *)
Definition object_of (m : member) : option Attractor :=
  match m with
  | Descriptor a => Some a
  | Inherited _ => Some fieldless
  | Undefined => None
  end.

(** The lookup [attractors[identifier]] of the driver.  A property read
    raises nothing. *)
Definition get (identifier : string) : outcome member :=
  Returns (lookup attractors identifier).
End Catalog.

(** ** THREE.Color *)

Module THREE.
Record Color := { r : float; g : float; b : float }.

(** [new THREE.Color().lerpColors(color1, color2, alpha)] of three.js:
    each channel is [color1 + (color2 - color1) * alpha]. *)
Definition lerpColors (color1 color2 : Color) (alpha : float) : Color :=
  {| r := (r color1 + (r color2 - r color1) * alpha)%float;
     g := (g color1 + (g color2 - g color1) * alpha)%float;
     b := (b color1 + (b color2 - b color1) * alpha)%float |}.

(** What [dispose()] of a geometry or of a material leaves behind: the
    renderer is told to free its copy; the JavaScript object stays. *)
Inductive resource := Live | Disposed.
End THREE.

(** ** particleSystem.ts *)

Module Options.
Record ParticleSystemOptions := {
  particleCount : nat;
  trailLength : nat;
  colorStart : THREE.Color;
  colorEnd : THREE.Color
}.
End Options.

(** The fields of [ParticleSystem].  [points] only pairs [geometry] with
    [material]; the shader, the texture and the [needsUpdate] flags belong
    to the renderer and are left out. *)
Record ParticleSystem := {
  geometry : THREE.resource;
  material : THREE.resource;
  positions : Float32Array;
  colors : Float32Array;
  sizes : Float32Array;
  trailPositions : list Float32Array;
  trailIndex : index;
  particleCount : nat;
  trailLength : nat;
  colorStart : THREE.Color;
  colorEnd : THREE.Color;
  currentAttractor : Attractor;
  currentParams : AttractorParams
}.

Definition set_positions (v : Float32Array) (s : ParticleSystem) :=
  {| geometry := geometry s; material := material s; positions := v;
     colors := colors s; sizes := sizes s; trailPositions := trailPositions s;
     trailIndex := trailIndex s; particleCount := particleCount s;
     trailLength := trailLength s; colorStart := colorStart s;
     colorEnd := colorEnd s; currentAttractor := currentAttractor s;
     currentParams := currentParams s |}.

Definition set_colors (v : Float32Array) (s : ParticleSystem) :=
  {| geometry := geometry s; material := material s; positions := positions s;
     colors := v; sizes := sizes s; trailPositions := trailPositions s;
     trailIndex := trailIndex s; particleCount := particleCount s;
     trailLength := trailLength s; colorStart := colorStart s;
     colorEnd := colorEnd s; currentAttractor := currentAttractor s;
     currentParams := currentParams s |}.

Definition set_sizes (v : Float32Array) (s : ParticleSystem) :=
  {| geometry := geometry s; material := material s; positions := positions s;
     colors := colors s; sizes := v; trailPositions := trailPositions s;
     trailIndex := trailIndex s; particleCount := particleCount s;
     trailLength := trailLength s; colorStart := colorStart s;
     colorEnd := colorEnd s; currentAttractor := currentAttractor s;
     currentParams := currentParams s |}.

Definition set_trailPositions (v : list Float32Array) (s : ParticleSystem) :=
  {| geometry := geometry s; material := material s; positions := positions s;
     colors := colors s; sizes := sizes s; trailPositions := v;
     trailIndex := trailIndex s; particleCount := particleCount s;
     trailLength := trailLength s; colorStart := colorStart s;
     colorEnd := colorEnd s; currentAttractor := currentAttractor s;
     currentParams := currentParams s |}.

Definition set_trailIndex (v : index) (s : ParticleSystem) :=
  {| geometry := geometry s; material := material s; positions := positions s;
     colors := colors s; sizes := sizes s; trailPositions := trailPositions s;
     trailIndex := v; particleCount := particleCount s;
     trailLength := trailLength s; colorStart := colorStart s;
     colorEnd := colorEnd s; currentAttractor := currentAttractor s;
     currentParams := currentParams s |}.

(** [this.trailPositions[i]]: the array at slot [i], or [undefined]. *)
Definition trail_at (s : ParticleSystem) (i : index) : option Float32Array :=
  match i with
  | Some n => trailPositions s !! n
  | None => None
  end.

(** [trail[j]] where [trail] is [this.trailPositions[i]]: reading a property
    of [undefined] raises a TypeError. *)
Definition read_trail (s : ParticleSystem) (i : index) (j : nat) : outcome float :=
  match trail_at s i with
  | Some a => Returns (f32_get a j)
  | None => Throws TypeError
  end.

(** [trail[j] = v] where [trail] is [this.trailPositions[i]]: the array is
    updated in place, so every holder of the slot sees the store. *)
Definition write_trail (i : index) (j : nat) (v : float) (s : ParticleSystem)
    : outcome ParticleSystem :=
  match i with
  | Some n =>
      match trailPositions s !! n with
      | Some a => Returns (set_trailPositions (<[n := f32_set a j v]> (trailPositions s)) s)
      | None => Throws TypeError
      end
  | None => Throws TypeError
  end.

(** The body of the two loops of [updateBuffers], for particle [i] and
    trail slot [t]. *)
Definition updateBuffers_body (i t : nat) (s : ParticleSystem)
    : outcome ParticleSystem :=
  let scale := scale (currentAttractor s) in
  let trailIdx := js_rem (index_add (trailIndex s) t) (trailLength s) in
  let bufferIdx := (i * trailLength s + t) * 3 in
  px ← read_trail s trailIdx (i * 3);
  let s := set_positions (f32_set (positions s) bufferIdx (px * scale)) s in
  py ← read_trail s trailIdx (i * 3 + 1);
  let s := set_positions (f32_set (positions s) (bufferIdx + 1) (py * scale)) s in
  pz ← read_trail s trailIdx (i * 3 + 2);
  let s := set_positions (f32_set (positions s) (bufferIdx + 2) (pz * scale)) s in
  let trailFactor := (float_of_nat t / float_of_nat (trailLength s))%float in
  let color := THREE.lerpColors (colorEnd s) (colorStart s) trailFactor in
  let s := set_colors (f32_set (colors s) bufferIdx (THREE.r color)) s in
  let s := set_colors (f32_set (colors s) (bufferIdx + 1) (THREE.g color)) s in
  let s := set_colors (f32_set (colors s) (bufferIdx + 2) (THREE.b color)) s in
  mret (set_sizes (f32_set (sizes s) (i * trailLength s + t)
                     (2.5 * (1 - trailFactor * 0.7))) s).

Definition updateBuffers (s : ParticleSystem) : outcome ParticleSystem :=
  for_loop (particleCount s)
    (fun i => for_loop (trailLength s) (fun t => updateBuffers_body i t)) s.

Definition setParams (params : AttractorParams) (s : ParticleSystem) : ParticleSystem :=
  {| geometry := geometry s; material := material s; positions := positions s;
     colors := colors s; sizes := sizes s; trailPositions := trailPositions s;
     trailIndex := trailIndex s; particleCount := particleCount s;
     trailLength := trailLength s; colorStart := colorStart s;
     colorEnd := colorEnd s; currentAttractor := currentAttractor s;
     currentParams := params |}.

Definition setColors (start end_ : THREE.Color) (s : ParticleSystem) : ParticleSystem :=
  {| geometry := geometry s; material := material s; positions := positions s;
     colors := colors s; sizes := sizes s; trailPositions := trailPositions s;
     trailIndex := trailIndex s; particleCount := particleCount s;
     trailLength := trailLength s; colorStart := start;
     colorEnd := end_; currentAttractor := currentAttractor s;
     currentParams := currentParams s |}.

Definition getParticleCount (s : ParticleSystem) : nat :=
  particleCount s * trailLength s.

Definition dispose (s : ParticleSystem) : ParticleSystem :=
  {| geometry := THREE.Disposed; material := THREE.Disposed;
     positions := positions s; colors := colors s; sizes := sizes s;
     trailPositions := trailPositions s; trailIndex := trailIndex s;
     particleCount := particleCount s; trailLength := trailLength s;
     colorStart := colorStart s; colorEnd := colorEnd s;
     currentAttractor := currentAttractor s; currentParams := currentParams s |}.

(** The constructor up to its last statement: the fields and the zeroed
    buffers.  The ring is filled by pushing [trailLength] arrays; nothing
    inspects the two sizes. *)
Definition allocate (attractor : Attractor)
    (options : Options.ParticleSystemOptions) : ParticleSystem :=
  let particleCount := Options.particleCount options in
  let trailLength := Options.trailLength options in
  let totalPoints := particleCount * trailLength in
  {| geometry := THREE.Live;
     material := THREE.Live;
     positions := new_Float32Array (totalPoints * 3);
     colors := new_Float32Array (totalPoints * 3);
     sizes := new_Float32Array totalPoints;
     trailPositions :=
       Nat.iter trailLength
         (fun a => a ++ [new_Float32Array (particleCount * 3)]) [];
     trailIndex := Some 0;
     particleCount := particleCount;
     trailLength := trailLength;
     colorStart := Options.colorStart options;
     colorEnd := Options.colorEnd options;
     currentAttractor := attractor;
     currentParams := params attractor |}.

Section Engine.
(** [Math_random n] is the value of the call of [Math.random()] that
    follows [n] earlier calls. *)
Variable Math_random : nat -> float.

Definition random : M float := fun n => Returns (Math_random n, S n).

(** [(Math.random() - 0.5) * 2 * scale]. *)
Definition sample (scale : float) : M float :=
  u ← random; mret ((u - 0.5) * 2 * scale)%float.

(** The inner loop of [initializeParticles]: the position of particle
    [i] goes to every slot of the ring. *)
Definition initializeParticles_slots (i : nat) (x y z : float)
    (s : ParticleSystem) : outcome ParticleSystem :=
  for_loop (trailLength s) (fun t s =>
    s ← write_trail (Some t) (i * 3) x s;
    s ← write_trail (Some t) (i * 3 + 1) y s;
    write_trail (Some t) (i * 3 + 2) z s) s.

(** The body of its outer loop, for particle [i]. *)
Definition initializeParticles_body (scale : float) (i : nat)
    (s : ParticleSystem) : M ParticleSystem :=
  x ← sample scale;
  y ← sample scale;
  z0 ← sample scale;
  let z := (z0 + 25)%float in
  lift (initializeParticles_slots i x y z s).

Definition initializeParticles (s : ParticleSystem) : M ParticleSystem :=
  let scale := scale (currentAttractor s) in
  s ← for_loop (particleCount s) (initializeParticles_body scale) s;
  lift (updateBuffers s).

Definition construct (attractor : Attractor)
    (options : Options.ParticleSystemOptions) : M ParticleSystem :=
  initializeParticles (allocate attractor options).

(** The body of the loop of [update] for particle [i]: [current] and
    [next] are the ring slots [currentTrail] and [nextTrail] refer to
    (one and the same array when the ring has a single slot). *)
Definition update_body (dt : float) (current next : index) (i : nat)
    (s : ParticleSystem) : M ParticleSystem :=
  x ← lift (read_trail s current (i * 3));
  y ← lift (read_trail s current (i * 3 + 1));
  z ← lift (read_trail s current (i * 3 + 2));
  let '(nx, ny, nz) := step (currentAttractor s) x y z (currentParams s) dt in
  if negb (isFinite nx) || negb (isFinite ny) || negb (isFinite nz) then
    let scale := scale (currentAttractor s) in
    rx ← sample scale;
    s ← lift (write_trail next (i * 3) rx s);
    ry ← sample scale;
    s ← lift (write_trail next (i * 3 + 1) ry s);
    rz ← sample scale;
    lift (write_trail next (i * 3 + 2) (rz + 25)%float s)
  else
    s ← lift (write_trail next (i * 3) nx s);
    s ← lift (write_trail next (i * 3 + 1) ny s);
    lift (write_trail next (i * 3 + 2) nz s).

Definition update (speed : float) (s : ParticleSystem) : M ParticleSystem :=
  let dt := (dt (currentAttractor s) * speed)%float in
  let current := trailIndex s in
  let nextIndex :=
    js_rem (index_sub (index_add (trailIndex s) (trailLength s)) 1) (trailLength s) in
  s ← for_loop (particleCount s) (update_body dt current nextIndex) s;
  lift (updateBuffers (set_trailIndex nextIndex s)).

Definition setAttractor (attractor : Attractor) (s : ParticleSystem)
    : M ParticleSystem :=
  initializeParticles
    {| geometry := geometry s; material := material s;
       positions := positions s; colors := colors s; sizes := sizes s;
       trailPositions := trailPositions s; trailIndex := trailIndex s;
       particleCount := particleCount s; trailLength := trailLength s;
       colorStart := colorStart s; colorEnd := colorEnd s;
       currentAttractor := attractor; currentParams := params attractor |}.

(** The calls a driver makes on an engine. *)
Inductive call :=
| Update (speed : float)
| SetAttractor (attractor : Attractor)
| SetParams (params : AttractorParams)
| SetColors (start end_ : THREE.Color)
| Dispose.

Definition exec (c : call) (s : ParticleSystem) : M ParticleSystem :=
  match c with
  | Update speed => update speed s
  | SetAttractor a => setAttractor a s
  | SetParams p => mret (setParams p s)
  | SetColors c1 c2 => mret (setColors c1 c2 s)
  | Dispose => mret (dispose s)
  end.

(** A call that raises ends the sequence.  (On an engine the constructor
    built, the one call that can raise is [update] with an empty ring and a
    particle to move; it raises at its first read, before any store.) *)
Fixpoint run (cs : list call) (s : ParticleSystem) : M ParticleSystem :=
  match cs with
  | [] => mret s
  | c :: cs' => s' ← exec c s; run cs' s'
  end.

(** An engine's life: construction, then the calls [cs]. *)
Definition session (attractor : Attractor)
    (options : Options.ParticleSystemOptions) (cs : list call) : M ParticleSystem :=
  s ← construct attractor options; run cs s.
End Engine.

(** ** main.ts

    The driver of the page: the [settings] object, the engine it owns, the
    particle objects in the scene, the folder of parameter sliders and the
    texts it writes on the page.  The callbacks are the ones the source
    registers; when they are called is decided by the browser and by
    lil-gui, whose controllers write the new value into the object they
    were given and then call the callback.  The orbit of the camera, the
    renderer, the window and the wording of the texts belong to three.js
    and to the browser and are left out. *)

Module Settings.
Record Settings := {
  attractor : string;
  particleCount : nat;
  trailLength : nat;
  speed : float;
  colorStart : string;
  colorEnd : string;
  bloomStrength : float;
  autoRotate : bool;
  rotateSpeed : float
}.

(** [const settings = { ... }]. *)
Definition initial : Settings := {|
  attractor := "lorenz";
  particleCount := 5000;
  trailLength := 50;
  speed := 1;
  colorStart := "#6366f1";
  colorEnd := "#ec4899";
  bloomStrength := 1.5;
  autoRotate := true;
  rotateSpeed := 0.2
|}.

Definition set_attractor (v : string) (s : Settings) : Settings :=
  {| attractor := v; particleCount := particleCount s;
     trailLength := trailLength s; speed := speed s; colorStart := colorStart s;
     colorEnd := colorEnd s; bloomStrength := bloomStrength s;
     autoRotate := autoRotate s; rotateSpeed := rotateSpeed s |}.

Definition set_particleCount (v : nat) (s : Settings) : Settings :=
  {| attractor := attractor s; particleCount := v;
     trailLength := trailLength s; speed := speed s; colorStart := colorStart s;
     colorEnd := colorEnd s; bloomStrength := bloomStrength s;
     autoRotate := autoRotate s; rotateSpeed := rotateSpeed s |}.

Definition set_trailLength (v : nat) (s : Settings) : Settings :=
  {| attractor := attractor s; particleCount := particleCount s;
     trailLength := v; speed := speed s; colorStart := colorStart s;
     colorEnd := colorEnd s; bloomStrength := bloomStrength s;
     autoRotate := autoRotate s; rotateSpeed := rotateSpeed s |}.

Definition set_speed (v : float) (s : Settings) : Settings :=
  {| attractor := attractor s; particleCount := particleCount s;
     trailLength := trailLength s; speed := v; colorStart := colorStart s;
     colorEnd := colorEnd s; bloomStrength := bloomStrength s;
     autoRotate := autoRotate s; rotateSpeed := rotateSpeed s |}.

Definition set_colorStart (v : string) (s : Settings) : Settings :=
  {| attractor := attractor s; particleCount := particleCount s;
     trailLength := trailLength s; speed := speed s; colorStart := v;
     colorEnd := colorEnd s; bloomStrength := bloomStrength s;
     autoRotate := autoRotate s; rotateSpeed := rotateSpeed s |}.

Definition set_colorEnd (v : string) (s : Settings) : Settings :=
  {| attractor := attractor s; particleCount := particleCount s;
     trailLength := trailLength s; speed := speed s; colorStart := colorStart s;
     colorEnd := v; bloomStrength := bloomStrength s;
     autoRotate := autoRotate s; rotateSpeed := rotateSpeed s |}.

Definition set_autoRotate (v : bool) (s : Settings) : Settings :=
  {| attractor := attractor s; particleCount := particleCount s;
     trailLength := trailLength s; speed := speed s; colorStart := colorStart s;
     colorEnd := colorEnd s; bloomStrength := bloomStrength s;
     autoRotate := v; rotateSpeed := rotateSpeed s |}.

Definition set_rotateSpeed (v : float) (s : Settings) : Settings :=
  {| attractor := attractor s; particleCount := particleCount s;
     trailLength := trailLength s; speed := speed s; colorStart := colorStart s;
     colorEnd := colorEnd s; bloomStrength := bloomStrength s;
     autoRotate := autoRotate s; rotateSpeed := v |}.
End Settings.

(** The own property [key] of an object used as a table.  For a key that
    is no name of [Object.prototype], [None] is the [undefined] that
    [o[key]] reads. *)
Fixpoint property {A : Type} (o : list (string * A)) (key : string) : option A :=
  match o with
  | [] => None
  | (k, a) :: rest => if String.eqb k key then Some a else property rest key
  end.

(** [o[key] = v]: the value of an own property is replaced where it
    stands; a new property comes last. *)
Fixpoint assign {A : Type} (o : list (string * A)) (key : string) (v : A)
    : list (string * A) :=
  match o with
  | [] => [(key, v)]
  | (k, a) :: rest =>
      if String.eqb k key then (k, v) :: rest else (k, a) :: assign rest key v
  end.

(** [const latexEquations = { ... }]. *)
Definition latexEquations : list (string * list string) :=
  [("lorenz", ["\frac{dx}{dt} = \sigma(y - x)";
               "\frac{dy}{dt} = x(\rho - z) - y";
               "\frac{dz}{dt} = xy - \beta z"]);
   ("thomas", ["\frac{dx}{dt} = \sin(y) - bx";
               "\frac{dy}{dt} = \sin(z) - by";
               "\frac{dz}{dt} = \sin(x) - bz"]);
   ("dadras", ["\frac{dx}{dt} = y - ax + byz";
               "\frac{dy}{dt} = cy - xz + z";
               "\frac{dz}{dt} = dxy - ez"]);
   ("rossler", ["\frac{dx}{dt} = -y - z";
                "\frac{dy}{dt} = x + ay";
                "\frac{dz}{dt} = b + z(x - c)"]);
   ("aizawa", ["\frac{dx}{dt} = (z - b)x - dy";
               "\frac{dy}{dt} = dx + (z - b)y";
               "\frac{dz}{dt} = c + az - \frac{z^3}{3} - (x^2 + y^2)(1 + ez) + fzx^3"]);
   ("chen", ["\frac{dx}{dt} = a(y - x)";
             "\frac{dy}{dt} = (c - a)x - xz + cy";
             "\frac{dz}{dt} = xy - bz"]);
   ("halvorsen", ["\frac{dx}{dt} = -ax - 4y - 4z - y^2";
                  "\frac{dy}{dt} = -ay - 4z - 4x - z^2";
                  "\frac{dz}{dt} = -az - 4x - 4y - x^2"]);
   ("sprott", ["\frac{dx}{dt} = y + axy + xz";
               "\frac{dy}{dt} = 1 - bx^2 + yz";
               "\frac{dz}{dt} = x - x^2 - y^2"])]%string.

(** The objects the driver puts in the scene: the [THREE.Points] of an
    engine, known by the number of engines constructed before it, and the
    group of the three axes. *)
Inductive Object3D :=
| Points (engine : nat)
| AxesGroup.

Definition same_object (x y : Object3D) : bool :=
  match x, y with
  | Points i, Points j => Nat.eqb i j
  | AxesGroup, AxesGroup => true
  | _, _ => false
  end.

(** [scene.remove(x)] and [scene.add(x)] of three.js: the first child that
    is [x] is taken out; an added object comes last. *)
Fixpoint scene_remove (x : Object3D) (children : list Object3D) : list Object3D :=
  match children with
  | [] => []
  | y :: rest => if same_object y x then rest else y :: scene_remove x rest
  end.

Definition scene_add (x : Object3D) (children : list Object3D) : list Object3D :=
  children ++ [x].

(** A slider of lil-gui: the property of the object it is bound to, and
    its range [min, max, step]. *)
Record Controller := {
  ctl_key : string;
  ctl_min : float;
  ctl_max : float;
  ctl_step : float
}.

(** The folder [createParamFolder] makes: the object [params] its sliders
    are bound to, the sliders, and whether [destroy()] was called on it. *)
Record Folder := {
  folder_params : AttractorParams;
  controllers : list Controller;
  destroyed : bool
}.

(** The elements and the global the driver looks for on the page. *)
Record Document := {
  descEl : bool;
  eqEl : bool;
  katex : bool;
  countEl : bool;
  fpsEl : bool
}.

(** What the driver last wrote in each element: the descriptor whose
    description and link are shown ([fieldless] stands for an inherited
    member, of which both read as the word [undefined]), the equations,
    the number of points, the frames per second. *)
Record Texts := {
  description : option Attractor;
  equation : option (list string);
  particles_count : option nat;
  fps : option nat
}.

(** The camera and the orbit controls, as far as the driver sets them:
    the position last given to [camera.position.set], the target, and the
    two rotation settings. *)
Record View := {
  camera_position : float * float * float;
  controls_target : float * float * float;
  controls_autoRotate : bool;
  controls_autoRotateSpeed : float
}.

(** The state of the driver.  [particleSystem] is the engine the variable
    of that name refers to, with the number that tells its objects apart;
    [stepless] tells that this engine was constructed on a member inherited
    from [Object.prototype], so that its field (in the record of the
    engine, [fieldless]) has no [step] to call; [constructed] counts the
    engines constructed so far; [released] holds the engines the variable
    no longer refers to, as they were left. *)
Record Driver := {
  settings : Settings.Settings;
  view : View;
  particleSystem : nat * ParticleSystem;
  stepless : bool;
  constructed : nat;
  released : list (nat * ParticleSystem);
  scene : list Object3D;
  paramFolder : option Folder;
  texts : Texts;
  frameCount : nat;
  lastTime : float
}.

Definition set_settings (v : Settings.Settings) (d : Driver) : Driver :=
  {| settings := v; view := view d; particleSystem := particleSystem d;
     stepless := stepless d;
     constructed := constructed d; released := released d; scene := scene d;
     paramFolder := paramFolder d; texts := texts d;
     frameCount := frameCount d; lastTime := lastTime d |}.

Definition set_view (v : View) (d : Driver) : Driver :=
  {| settings := settings d; view := v; particleSystem := particleSystem d;
     stepless := stepless d;
     constructed := constructed d; released := released d; scene := scene d;
     paramFolder := paramFolder d; texts := texts d;
     frameCount := frameCount d; lastTime := lastTime d |}.

Definition set_particleSystem (v : nat * ParticleSystem) (d : Driver) : Driver :=
  {| settings := settings d; view := view d; particleSystem := v;
     stepless := stepless d;
     constructed := constructed d; released := released d; scene := scene d;
     paramFolder := paramFolder d; texts := texts d;
     frameCount := frameCount d; lastTime := lastTime d |}.

Definition set_scene (v : list Object3D) (d : Driver) : Driver :=
  {| settings := settings d; view := view d; particleSystem := particleSystem d;
     stepless := stepless d;
     constructed := constructed d; released := released d; scene := v;
     paramFolder := paramFolder d; texts := texts d;
     frameCount := frameCount d; lastTime := lastTime d |}.

Definition set_paramFolder (v : option Folder) (d : Driver) : Driver :=
  {| settings := settings d; view := view d; particleSystem := particleSystem d;
     stepless := stepless d;
     constructed := constructed d; released := released d; scene := scene d;
     paramFolder := v; texts := texts d;
     frameCount := frameCount d; lastTime := lastTime d |}.

Definition set_texts (v : Texts) (d : Driver) : Driver :=
  {| settings := settings d; view := view d; particleSystem := particleSystem d;
     stepless := stepless d;
     constructed := constructed d; released := released d; scene := scene d;
     paramFolder := paramFolder d; texts := v;
     frameCount := frameCount d; lastTime := lastTime d |}.

Definition set_frameCount (v : nat) (d : Driver) : Driver :=
  {| settings := settings d; view := view d; particleSystem := particleSystem d;
     stepless := stepless d;
     constructed := constructed d; released := released d; scene := scene d;
     paramFolder := paramFolder d; texts := texts d;
     frameCount := v; lastTime := lastTime d |}.

Definition set_lastTime (v : float) (d : Driver) : Driver :=
  {| settings := settings d; view := view d; particleSystem := particleSystem d;
     stepless := stepless d;
     constructed := constructed d; released := released d; scene := scene d;
     paramFolder := paramFolder d; texts := texts d;
     frameCount := frameCount d; lastTime := v |}.

(** [particleSystem = new ParticleSystem(...)]: the variable takes the new
    engine and lets go of the one it held. *)
Definition replace_particleSystem (s : ParticleSystem) (inherited : bool)
    (d : Driver) : Driver :=
  {| settings := settings d; view := view d;
     particleSystem := (constructed d, s);
     stepless := inherited;
     constructed := S (constructed d);
     released := released d ++ [particleSystem d]; scene := scene d;
     paramFolder := paramFolder d; texts := texts d;
     frameCount := frameCount d; lastTime := lastTime d |}.

(** A callback of the driver: it is given the driver and the number of
    calls of [Math.random] so far.  What it changed before it raised
    stays changed. *)
Definition DM (A : Type) : Type := Driver -> nat -> outcome A * Driver * nat.

#[global] Instance DM_ret : MRet DM := fun A a d c => (Returns a, d, c).
#[global] Instance DM_bind : MBind DM := fun A B k m d c =>
  match m d c with
  | (Returns a, d', c') => k a d' c'
  | (Throws e, d', c') => (Throws e, d', c')
  end.

Definition read {A : Type} (f : Driver -> A) : DM A := fun d c => (Returns (f d), d, c).

Definition write (f : Driver -> Driver) : DM unit := fun d c => (Returns tt, f d, c).

(** A value whose property is read next: reading a property of
    [undefined] raises a TypeError. *)
Definition defined {A : Type} (o : option A) : DM A := fun d c =>
  match o with
  | Some a => (Returns a, d, c)
  | None => (Throws TypeError, d, c)
  end.

(** A statement that raises. *)
Definition raise {A : Type} (e : error) : DM A := fun d c => (Throws e, d, c).

(** [for (const x of xs) body(x)]. *)
Fixpoint for_of `{MBind m, MRet m} {A : Type} (xs : list A) (body : A -> m unit)
    : m unit :=
  match xs with
  | [] => mret tt
  | x :: xs' => body x;; for_of xs' body
  end.

Section Driver.
Variable Math_sin : float -> float.
Variable Math_random : nat -> float.
(** [new THREE.Color(text)] of three.js. *)
Variable THREE_Color : string -> THREE.Color.
Variable document : Document.

(** A method called on the engine of the variable [particleSystem].  A
    call of the engine that raises has stored and drawn nothing. *)
Definition on_engine (method : ParticleSystem -> M ParticleSystem) : DM unit :=
  fun d c =>
    match method (snd (particleSystem d)) c with
    | Returns (s', c') =>
        (Returns tt, set_particleSystem (fst (particleSystem d), s') d, c')
    | Throws e => (Throws e, d, c)
    end.

(** The options the driver constructs an engine with. *)
Definition options_of (st : Settings.Settings) : Options.ParticleSystemOptions :=
  {| Options.particleCount := Settings.particleCount st;
     Options.trailLength := Settings.trailLength st;
     Options.colorStart := THREE_Color (Settings.colorStart st);
     Options.colorEnd := THREE_Color (Settings.colorEnd st) |}.

(** [particleSystem = new ParticleSystem(attractor, options)], where
    [attractor] is the result of a lookup.  On [undefined] the constructor
    raises a TypeError at [attractor.params].  On an inherited member it
    returns: the engine it makes has no parameter, and its ring and its
    buffers hold NaN, the product of a number and the [scale] the member
    does not have. *)
Definition new_ParticleSystem (attractor : member)
    (options : Options.ParticleSystemOptions) : DM unit :=
  fun d c =>
    match attractor with
    | Descriptor a =>
        match construct Math_random a options c with
        | Returns (s, c') => (Returns tt, replace_particleSystem s false d, c')
        | Throws e => (Throws e, d, c)
        end
    | Inherited _ =>
        match construct Math_random fieldless options c with
        | Returns (s, c') => (Returns tt, replace_particleSystem s true d, c')
        | Throws e => (Throws e, d, c)
        end
    | Undefined => (Throws TypeError, d, c)
    end.

(** The text is made of [attractor.description] and
    [attractor.wikipediaUrl]; for an inherited member both are the word
    [undefined]. *)
Definition updateDescription : DM unit :=
  if descEl document then
    key ← read (fun d => Settings.attractor (settings d));
    attractor ← defined (object_of (lookup (attractors Math_sin) key));
    write (fun d =>
      set_texts {| description := Some attractor; equation := equation (texts d);
                   particles_count := particles_count (texts d);
                   fps := fps (texts d) |} d)
  else mret tt.

(** The equations are shown as KaTeX renders them, or as they are
    written when it fails on one.  [latexEquations[key] || []] is the empty
    list for a key that reads [undefined]; for a name of [Object.prototype]
    it is the member inherited there, which has no [map] to call. *)
Definition updateEquation : DM unit :=
  if eqEl document && katex document then
    key ← read (fun d => Settings.attractor (settings d));
    equations ←
      match property latexEquations key with
      | Some equations => mret equations
      | None => if inherits key then raise TypeError else mret []
      end;
    write (fun d =>
      set_texts {| description := description (texts d);
                   equation := Some equations;
                   particles_count := particles_count (texts d);
                   fps := fps (texts d) |} d)
  else mret tt.

Definition updateParticlesDisplay : DM unit :=
  if countEl document then
    write (fun d =>
      set_texts {| description := description (texts d);
                   equation := equation (texts d);
                   particles_count := Some (getParticleCount (snd (particleSystem d)));
                   fps := fps (texts d) |} d)
  else mret tt.

Definition recreateParticleSystem : DM unit :=
  write (fun d => set_scene (scene_remove (Points (fst (particleSystem d))) (scene d)) d);;
  write (fun d =>
    set_particleSystem (fst (particleSystem d), dispose (snd (particleSystem d))) d);;
  st ← read settings;
  new_ParticleSystem (lookup (attractors Math_sin) (Settings.attractor st))
    (options_of st);;
  write (fun d => set_scene (scene_add (Points (fst (particleSystem d))) (scene d)) d);;
  updateParticlesDisplay.

(** [paramFolder.add(params, key, range[0], range[1], range[2])]. *)
Definition add_controller (c : Controller) (d : Driver) : Driver :=
  match paramFolder d with
  | Some f =>
      set_paramFolder
        (Some {| folder_params := folder_params f;
                 controllers := controllers f ++ [c];
                 destroyed := destroyed f |}) d
  | None => d
  end.

(** [paramFolder.open()] only unfolds the folder on the page and is left
    out. *)
Definition createParamFolder (attractor : Attractor) : DM unit :=
  write (set_paramFolder
           (Some {| folder_params := params attractor; controllers := [];
                    destroyed := false |}));;
  for_of (map fst (params attractor)) (fun key =>
    range ← defined (property (paramRanges attractor) key);
    write (add_controller
             {| ctl_key := key; ctl_min := fst (fst range);
                ctl_max := snd (fst range); ctl_step := snd range |})).

(** The callback of the [Type] list. *)
Definition onAttractorChange (value : string) : DM unit :=
  folder ← read paramFolder;
  match folder with
  | Some f =>
      write (set_paramFolder
               (Some {| folder_params := folder_params f;
                        controllers := controllers f; destroyed := true |}))
  | None => mret tt
  end;;
  attractor ← defined (descriptor (lookup (attractors Math_sin) value));
  write (fun d =>
    set_view {| camera_position := cameraPosition attractor;
                controls_target := controls_target (view d);
                controls_autoRotate := controls_autoRotate (view d);
                controls_autoRotateSpeed := controls_autoRotateSpeed (view d) |} d);;
  recreateParticleSystem;;
  updateDescription;;
  updateEquation;;
  createParamFolder attractor.

(** The callback of every parameter slider: [params] is the object of the
    folder the slider is in. *)
Definition onParamChange : DM unit :=
  folder ← read paramFolder;
  match folder with
  | Some f => on_engine (fun s => mret (setParams (folder_params f) s))
  | None => mret tt
  end.

(** The callback of the two colour pickers. *)
Definition onColorChange : DM unit :=
  st ← read settings;
  on_engine (fun s =>
    mret (setColors (THREE_Color (Settings.colorStart st))
            (THREE_Color (Settings.colorEnd st)) s)).

Definition onAutoRotateChange (v : bool) : DM unit :=
  write (fun d =>
    set_view {| camera_position := camera_position (view d);
                controls_target := controls_target (view d);
                controls_autoRotate := v;
                controls_autoRotateSpeed := controls_autoRotateSpeed (view d) |} d).

Definition onRotateSpeedChange (v : float) : DM unit :=
  write (fun d =>
    set_view {| camera_position := camera_position (view d);
                controls_target := controls_target (view d);
                controls_autoRotate := controls_autoRotate (view d);
                controls_autoRotateSpeed := v |} d).

(** The [Reset View] button. *)
Definition reset : DM unit :=
  key ← read (fun d => Settings.attractor (settings d));
  attractor ← defined (descriptor (lookup (attractors Math_sin) key));
  write (fun d =>
    set_view {| camera_position := cameraPosition attractor;
                controls_target := (0, 0, 0)%float;
                controls_autoRotate := controls_autoRotate (view d);
                controls_autoRotateSpeed := controls_autoRotateSpeed (view d) |} d).

(** [updateFPS], where [now] is the value of [performance.now()]. *)
Definition updateFPS (now : float) : DM unit :=
  write (fun d =>
    let d := set_frameCount (S (frameCount d)) d in
    if (1000 <=? now - lastTime d)%float then
      let d :=
        if fpsEl document then
          set_texts {| description := description (texts d);
                       equation := equation (texts d);
                       particles_count := particles_count (texts d);
                       fps := Some (frameCount d) |} d
        else d in
      set_lastTime now (set_frameCount 0 d)
    else d).

(** One frame of [animate]; the next one is requested before anything
    else, so that a frame that raises does not stop the animation.  On an
    engine whose field has no [step], [update] raises a TypeError at the
    first particle, before it stores anything. *)
Definition animate (now : float) : DM unit :=
  st ← read settings;
  inherited ← read stepless;
  on_engine (fun s =>
    if inherited && (0 <? particleCount s) then lift (Throws TypeError)
    else update Math_random (Settings.speed st) s);;
  updateFPS now.

(** The script from its first line to the call of [animate()], for the
    settings [st]: the page is loaded at time [now].  The camera is placed
    before the engine is constructed: from [cameraPosition], which only a
    descriptor has. *)
Definition script (st : Settings.Settings) (now : float) : M Driver := fun c =>
  match descriptor (lookup (attractors Math_sin) (Settings.attractor st)) with
  | Some attractor =>
      match construct Math_random attractor (options_of st) c with
      | Returns (s, c') =>
          let d :=
            {| settings := st;
               view := {| camera_position := cameraPosition attractor;
                          controls_target := (0, 0, 0)%float;
                          controls_autoRotate := Settings.autoRotate st;
                          controls_autoRotateSpeed := Settings.rotateSpeed st |};
               particleSystem := (0, s);
               stepless := false;
               constructed := 1;
               released := [];
               scene := scene_add AxesGroup (scene_add (Points 0) []);
               paramFolder := None;
               texts := {| description := None; equation := None;
                           particles_count := None; fps := None |};
               frameCount := 0;
               lastTime := now |} in
          match (updateDescription;; updateParticlesDisplay;;
                 createParamFolder attractor) d c' with
          | (Returns _, d', c'') => Returns (d', c'')
          | (Throws e, _, _) => Throws e
          end
      | Throws e => Throws e
      end
  | None => Throws TypeError
  end.

Definition main (now : float) : M Driver := script Settings.initial now.

(** What the page and the browser make the driver do.  A controller of
    lil-gui first writes the value into the object it is bound to, then
    calls the callback registered for it; a slider of a folder that was
    destroyed, or that the folder does not have, is not on the page. *)
Inductive event :=
| AttractorSelected (value : string)
| ParamSlid (key : string) (value : float)
| SpeedSlid (value : float)
| ColorStartPicked (value : string)
| ColorEndPicked (value : string)
| CountSlid (value : nat)
| CountFinished
| TrailSlid (value : nat)
| TrailFinished
| AutoRotateToggled (value : bool)
| RotateSpeedSlid (value : float)
| ResetClicked
| EquationTimer
| AnimationFrame (now : float).

Definition has_slider (f : Folder) (key : string) : bool :=
  negb (destroyed f) && existsb (String.eqb key) (map ctl_key (controllers f)).

Definition dispatch (ev : event) : DM unit :=
  match ev with
  | AttractorSelected value =>
      write (fun d => set_settings (Settings.set_attractor value (settings d)) d);;
      onAttractorChange value
  | ParamSlid key value =>
      folder ← read paramFolder;
      match folder with
      | Some f =>
          if has_slider f key then
            write (set_paramFolder
                     (Some {| folder_params := assign (folder_params f) key value;
                              controllers := controllers f;
                              destroyed := destroyed f |}));;
            onParamChange
          else mret tt
      | None => mret tt
      end
  | SpeedSlid value =>
      write (fun d => set_settings (Settings.set_speed value (settings d)) d)
  | ColorStartPicked value =>
      write (fun d => set_settings (Settings.set_colorStart value (settings d)) d);;
      onColorChange
  | ColorEndPicked value =>
      write (fun d => set_settings (Settings.set_colorEnd value (settings d)) d);;
      onColorChange
  | CountSlid value =>
      write (fun d => set_settings (Settings.set_particleCount value (settings d)) d)
  | CountFinished => recreateParticleSystem
  | TrailSlid value =>
      write (fun d => set_settings (Settings.set_trailLength value (settings d)) d)
  | TrailFinished => recreateParticleSystem
  | AutoRotateToggled value =>
      write (fun d => set_settings (Settings.set_autoRotate value (settings d)) d);;
      onAutoRotateChange value
  | RotateSpeedSlid value =>
      write (fun d => set_settings (Settings.set_rotateSpeed value (settings d)) d);;
      onRotateSpeedChange value
  | ResetClicked => reset
  | EquationTimer => updateEquation
  | AnimationFrame now => animate now
  end.

(** The events in turn.  An error a callback raises goes to the console
    and the page lives on. *)
Fixpoint play (evs : list event) (d : Driver) (c : nat)
    : list error * Driver * nat :=
  match evs with
  | [] => ([], d, c)
  | ev :: evs' =>
      let '(o, d', c') := dispatch ev d c in
      let '(console, d'', c'') := play evs' d' c' in
      (match o with Returns _ => console | Throws e => e :: console end, d'', c'')
  end.
End Driver.

(** ** The catalog table of the specification

    One row per entry, as the specification prints it: identifier, state
    equations, default parameters, dt and scale.  A product of several
    factors is taken from left to right, a power is a repeated product, and
    the Greek letters of the Lorenz row are the keys [sigma], [rho] and
    [beta]. *)

Record TableRow := {
  row_id : string;
  row_equations : AttractorParams -> float -> float -> float -> float * float * float;
  row_params : AttractorParams;
  row_dt : float;
  row_scale : float
}.

(** One explicit Euler step of the equations [eqs]. *)
Definition euler_step
    (eqs : AttractorParams -> float -> float -> float -> float * float * float)
    (x y z : float) (p : AttractorParams) (dt : float) : float * float * float :=
  let '(dx, dy, dz) := eqs p x y z in
  (x + dx * dt, y + dy * dt, z + dz * dt)%float.

Section Table.
Variable sin : float -> float.
Local Open Scope float_scope.

Definition catalog_table : list TableRow :=
  [ {| row_id := "lorenz";
       row_equations := fun p x y z =>
         let sigma := param p "sigma" in
         let rho := param p "rho" in
         let beta := param p "beta" in
         (sigma * (y - x), x * (rho - z) - y, x * y - beta * z);
       row_params := [("sigma", 10); ("rho", 28); ("beta", 8 / 3)]%string;
       row_dt := 0.005; row_scale := 1.5 |};
    {| row_id := "thomas";
       row_equations := fun p x y z =>
         let b := param p "b" in
         (sin y - b * x, sin z - b * y, sin x - b * z);
       row_params := [("b", 0.208186)]%string;
       row_dt := 0.04; row_scale := 8 |};
    {| row_id := "dadras";
       row_equations := fun p x y z =>
         let a := param p "a" in
         let b := param p "b" in
         let c := param p "c" in
         let d := param p "d" in
         let e := param p "e" in
         (y - a * x + b * y * z, c * y - x * z + z, d * x * y - e * z);
       row_params := [("a", 3); ("b", 2.7); ("c", 1.7); ("d", 2); ("e", 9)]%string;
       row_dt := 0.004; row_scale := 2 |};
    {| row_id := "rossler";
       row_equations := fun p x y z =>
         let a := param p "a" in
         let b := param p "b" in
         let c := param p "c" in
         (- y - z, x + a * y, b + z * (x - c));
       row_params := [("a", 0.2); ("b", 0.2); ("c", 5.7)]%string;
       row_dt := 0.01; row_scale := 2.5 |};
    {| row_id := "aizawa";
       row_equations := fun p x y z =>
         let a := param p "a" in
         let b := param p "b" in
         let c := param p "c" in
         let d := param p "d" in
         let e := param p "e" in
         let f := param p "f" in
         ((z - b) * x - d * y,
          d * x + (z - b) * y,
          c + a * z - z * z * z / 3 - (x * x + y * y) * (1 + e * z)
          + f * z * x * x * x);
       row_params := [("a", 0.95); ("b", 0.7); ("c", 0.6); ("d", 3.5);
                      ("e", 0.25); ("f", 0.1)]%string;
       row_dt := 0.005; row_scale := 10 |};
    {| row_id := "chen";
       row_equations := fun p x y z =>
         let a := param p "a" in
         let b := param p "b" in
         let c := param p "c" in
         (a * (y - x), (c - a) * x - x * z + c * y, x * y - b * z);
       row_params := [("a", 40); ("b", 3); ("c", 28)]%string;
       row_dt := 0.002; row_scale := 1.2 |};
    {| row_id := "halvorsen";
       row_equations := fun p x y z =>
         let a := param p "a" in
         (- a * x - 4 * y - 4 * z - y * y,
          - a * y - 4 * z - 4 * x - z * z,
          - a * z - 4 * x - 4 * y - x * x);
       row_params := [("a", 1.89)]%string;
       row_dt := 0.005; row_scale := 4 |};
    {| row_id := "sprott";
       row_equations := fun p x y z =>
         let a := param p "a" in
         let b := param p "b" in
         (y + a * x * y + x * z, 1 - b * x * x + y * z, x - x * x - y * y);
       row_params := [("a", 2.07); ("b", 1.79)]%string;
       row_dt := 0.02; row_scale := 5 |} ].
End Table.

(** A catalog entry agrees with a row of the table. *)
Definition matches_row (row : TableRow) (entry : string * Attractor) : Prop :=
  fst entry = row_id row /\
  params (snd entry) = row_params row /\
  dt (snd entry) = row_dt row /\
  scale (snd entry) = row_scale row /\
  forall x y z p h,
    step (snd entry) x y z p h = euler_step (row_equations row) x y z p h.

(** ** Pure forms of the loops

    The loops of the engine store into arrays whose every cell they reach
    is determined by its index.  The proofs go through these pure forms. *)

Fixpoint loop {St : Type} (n : nat) (body : nat -> St -> St) (s : St) : St :=
  match n with
  | O => s
  | S n' => body n' (loop n' body s)
  end.

(** Three stores at [3j], [3j+1], [3j+2], and one store at [j], of the
    values [v] gives for these cells. *)
Definition store3 {A} (v : nat -> A) (j : nat) (l : list A) : list A :=
  <[j * 3 + 2 := v (j * 3 + 2)]> (<[j * 3 + 1 := v (j * 3 + 1)]> (<[j * 3 := v (j * 3)]> l)).

Definition store1 {A} (v : nat -> A) (j : nat) (l : list A) : list A :=
  <[j := v j]> l.

(** The array in which cell [m] holds [v m]. *)
Definition tabulate {A} (v : nat -> A) (n : nat) : list A := v <$> seq 0 n.

(** The ring slot [updateBuffers] reads for trail slot [t]:
    [this.trailPositions[(this.trailIndex + t) % this.trailLength]]. *)
Definition ring_slot (s : ParticleSystem) (t : nat) : option Float32Array :=
  trail_at s (js_rem (index_add (trailIndex s) t) (trailLength s)).

(** What [updateBuffers] stores in cell [m] of [positions] and of [colors],
    and in cell [j] of [sizes]. *)
Definition position_cell (s : ParticleSystem) (m : nat) : float :=
  let j := m / 3 in
  fround (f32_get (default [] (ring_slot s (j mod trailLength s)))
            (j / trailLength s * 3 + m mod 3)
          * scale (currentAttractor s)).

Definition channel (c : nat) (color : THREE.Color) : float :=
  match c with
  | 0 => THREE.r color
  | 1 => THREE.g color
  | _ => THREE.b color
  end.

Definition trail_color (s : ParticleSystem) (t : nat) : THREE.Color :=
  THREE.lerpColors (colorEnd s) (colorStart s)
    (float_of_nat t / float_of_nat (trailLength s)).

Definition color_cell (s : ParticleSystem) (m : nat) : float :=
  fround (channel (m mod 3) (trail_color s ((m / 3) mod trailLength s))).

Definition trail_size (s : ParticleSystem) (t : nat) : float :=
  fround (2.5 * (1 - float_of_nat t / float_of_nat (trailLength s) * 0.7)).

Definition size_cell (s : ParticleSystem) (j : nat) : float :=
  trail_size s (j mod trailLength s).

(** The engine after [updateBuffers]. *)
Definition repack (s : ParticleSystem) : ParticleSystem :=
  let n := particleCount s * trailLength s in
  set_sizes (tabulate (size_cell s) n)
    (set_colors (tabulate (color_cell s) (n * 3))
       (set_positions (tabulate (position_cell s) (n * 3)) s)).

(** The stores of one iteration, as stores of the cells of [s]. *)
Definition repack_step (s : ParticleSystem) (j : nat) (x : ParticleSystem)
    : ParticleSystem :=
  set_sizes (store1 (size_cell s) j (sizes x))
    (set_colors (store3 (color_cell s) j (colors x))
       (set_positions (store3 (position_cell s) j (positions x)) x)).

(** The fields [updateBuffers] reads and leaves alone. *)
Definition same_config (s x : ParticleSystem) : Prop :=
  geometry x = geometry s /\ material x = material s /\
  trailPositions x = trailPositions s /\ trailIndex x = trailIndex s /\
  particleCount x = particleCount s /\ trailLength x = trailLength s /\
  colorStart x = colorStart s /\ colorEnd x = colorEnd s /\
  currentAttractor x = currentAttractor s /\ currentParams x = currentParams s.

(** The three buffers have the size the constructor gave them, and the ring
    has the slots the repacking reads. *)
Definition buffers_fit (s : ParticleSystem) : Prop :=
  length (positions s) = particleCount s * trailLength s * 3 /\
  length (colors s) = particleCount s * trailLength s * 3 /\
  length (sizes s) = particleCount s * trailLength s /\
  forall t, t < trailLength s -> is_Some (ring_slot s t).

(** The engine's buffers and ring have the sizes the constructor gave
    them, and the ring index, when the ring has a slot, points into it. *)
Definition well_formed (s : ParticleSystem) : Prop :=
  length (positions s) = particleCount s * trailLength s * 3 /\
  length (colors s) = particleCount s * trailLength s * 3 /\
  length (sizes s) = particleCount s * trailLength s /\
  length (trailPositions s) = trailLength s /\
  Forall (fun a => length a = particleCount s * 3) (trailPositions s) /\
  (0 < trailLength s -> exists k, trailIndex s = Some k /\ k < trailLength s).

(** The three stores of [initializeParticles] and of [update] into one
    array of the ring, for particle [i]. *)
Definition store_particle (i : nat) (x y z : float) (a : Float32Array)
    : Float32Array :=
  f32_set (f32_set (f32_set a (i * 3) x) (i * 3 + 1) y) (i * 3 + 2) z.

(** The position of particle [i] in an array of the ring, and the fact
    that an array holds at particle [i] the binary32 roundings of [v]. *)
Definition particle_at (a : Float32Array) (i : nat) : float * float * float :=
  (f32_get a (i * 3), f32_get a (i * 3 + 1), f32_get a (i * 3 + 2)).

Definition holds_particle (b : Float32Array) (i : nat) (v : float * float * float)
    : Prop :=
  b !! (i * 3) = Some (fround (fst (fst v))) /\
  b !! (i * 3 + 1) = Some (fround (snd (fst v))) /\
  b !! (i * 3 + 2) = Some (fround (snd v)).

Section SeedForms.
Variable Math_random : nat -> float.

(** The three coordinates drawn from call [c] of [Math.random] on. *)
Definition seed_x (scale : float) (c : nat) : float :=
  ((Math_random c - 0.5) * 2 * scale)%float.
Definition seed_y (scale : float) (c : nat) : float :=
  ((Math_random (S c) - 0.5) * 2 * scale)%float.
Definition seed_z (scale : float) (c : nat) : float :=
  ((Math_random (S (S c)) - 0.5) * 2 * scale + 25)%float.

(** What [initializeParticles], started after [c0] calls of
    [Math.random], stores in cell [m] of every array of the ring. *)
Definition seed_cell (scale : float) (c0 m : nat) : float :=
  let u := Math_random (c0 + m) in
  if Nat.eqb (m mod 3) 2
  then fround ((u - 0.5) * 2 * scale + 25)%float
  else fround ((u - 0.5) * 2 * scale)%float.

(** The ring after [initializeParticles]. *)
Definition seeded_ring (s : ParticleSystem) (c0 : nat) : list Float32Array :=
  replicate (trailLength s)
    (tabulate (seed_cell (scale (currentAttractor s)) c0) (particleCount s * 3)).

(** The position [update] stores for a particle that is at [(x, y, z)]
    when [c] calls of [Math.random] have been made, and the number of
    calls afterwards. *)
Definition next_position (s : ParticleSystem) (dt : float)
    (p : float * float * float) (c : nat) : float * float * float * nat :=
  let '(x, y, z) := p in
  let '(nx, ny, nz) := step (currentAttractor s) x y z (currentParams s) dt in
  if negb (isFinite nx) || negb (isFinite ny) || negb (isFinite nz) then
    let scale := scale (currentAttractor s) in
    (seed_x scale c, seed_y scale c, seed_z scale c, S (S (S c)))
  else (nx, ny, nz, c).

(** One iteration of the loop of [update] on a ring that has the slots
    [current] and [next]. *)
Definition update_step (dt : float) (current next i : nat)
    (sc : ParticleSystem * nat) : ParticleSystem * nat :=
  let s := fst sc in
  let a : Float32Array := default (new_Float32Array 0) (trailPositions s !! current) in
  let b : Float32Array := default (new_Float32Array 0) (trailPositions s !! next) in
  let '(vx, vy, vz, c') := next_position s dt (particle_at a i) (snd sc) in
  (set_trailPositions (<[next := store_particle i vx vy vz b]> (trailPositions s)) s,
   c').

(** The same iteration seen from the array [b] of slot [next] alone, the
    positions being read in [a0]. *)
Definition advance_particle (s : ParticleSystem) (dt : float) (a0 : Float32Array)
    (i : nat) (bc : Float32Array * nat) : Float32Array * nat :=
  let '(vx, vy, vz, c') := next_position s dt (particle_at a0 i) (snd bc) in
  (store_particle i vx vy vz (fst bc), c').
End SeedForms.

(** What holds of an engine built with the options [o], whatever was
    called on it: its sizes are those of [o], it is well formed, and its
    [sizes] buffer is the one a repacking writes. *)
Definition engine_invariant (o : Options.ParticleSystemOptions)
    (s : ParticleSystem) : Prop :=
  well_formed s /\
  particleCount s = Options.particleCount o /\
  trailLength s = Options.trailLength o /\
  sizes s = tabulate (size_cell s) (particleCount s * trailLength s).

(** Two calls end alike: both return, with results related by [r], or both
    raise a TypeError. *)
Definition same_outcome {A : Type} (r : A -> A -> Prop) (o1 o2 : outcome A) : Prop :=
  match o1, o2 with
  | Returns a1, Returns a2 => r a1 a2
  | Throws e1, Throws e2 => e1 = TypeError /\ e2 = TypeError
  | _, _ => False
  end.

(** The same for calls that draw random numbers: they also draw equally
    many. *)
Definition same_run {A : Type} (r : A -> A -> Prop) (m1 m2 : M A) : Prop :=
  forall c,
    same_outcome (fun p1 p2 => r (fst p1) (fst p2) /\ snd p1 = snd p2) (m1 c) (m2 c).

(** [x] is [y] after [dispose()]. *)
Definition disposed (x y : ParticleSystem) : Prop := x = dispose y.

(** ** The specification's reading of the repacked buffer

    "Ordered oldest-to-newest": trail slot [t] of a particle holds the ring
    position that is [trailLength - 1 - t] advances old, where the ring slot
    at the index, written by the latest advance, is 0 advances old and the
    slot [a] places after it round the ring is [a] advances old. *)
Definition oldest_to_newest (s : ParticleSystem) : Prop :=
  forall i t j, i < particleCount s -> t < trailLength s -> j < 3 ->
    exists k slot,
      trailIndex s = Some k /\
      trailPositions s !! ((k + (trailLength s - 1 - t)) mod trailLength s)
      = Some slot /\
      positions s !! ((i * trailLength s + t) * 3 + j)
      = Some (fround (f32_get slot (i * 3 + j) * scale (currentAttractor s))).

(** Two engines show the same trails: they agree on everything but the
    ring index, the placement of the slots in the ring and the mark of
    [dispose()], and the slot [t] places after the index holds the same
    array in both. *)
Definition same_trails (x y : ParticleSystem) : Prop :=
  positions x = positions y /\ colors x = colors y /\ sizes x = sizes y /\
  particleCount x = particleCount y /\ trailLength x = trailLength y /\
  colorStart x = colorStart y /\ colorEnd x = colorEnd y /\
  currentAttractor x = currentAttractor y /\ currentParams x = currentParams y /\
  well_formed x /\ well_formed y /\
  forall t, t < trailLength x -> ring_slot x t = ring_slot y t.

(** ** Forms for the further properties of the code *)

(** The test of the [if] of [update], for a particle at [p]: whether a new
    position is drawn for it. *)
Definition resampled (s : ParticleSystem) (dt : float) (p : float * float * float)
    : bool :=
  let '(x, y, z) := p in
  let '(nx, ny, nz) := step (currentAttractor s) x y z (currentParams s) dt in
  negb (isFinite nx) || negb (isFinite ny) || negb (isFinite nz).

(** How many of the first [n] particles of the array [a0] it holds for. *)
Definition count_resampled (s : ParticleSystem) (dt : float) (a0 : Float32Array)
    (n : nat) : nat :=
  length (List.filter (fun i => resampled s dt (particle_at a0 i)) (seq 0 n)).

(** The position buffer is the one a repacking of the ring writes. *)
Definition mirrors_ring (s : ParticleSystem) : Prop :=
  positions s = tabulate (position_cell s) (particleCount s * trailLength s * 3).

(** The colour buffer is the one a repacking writes for the colours the
    engine has now. *)
Definition colours_in_step (s : ParticleSystem) : Prop :=
  colors s = tabulate (color_cell s) (particleCount s * trailLength s * 3).

(** A call that is not [setColors]. *)
Definition keeps_colours (cl : call) : Prop :=
  match cl with
  | SetColors _ _ => False
  | _ => True
  end.

(** The slider [createParamFolder] makes for [key]. *)
Definition controller_for (attractor : Attractor) (key : string) : option Controller :=
  range ← property (paramRanges attractor) key;
  Some {| ctl_key := key; ctl_min := fst (fst range); ctl_max := snd (fst range);
          ctl_step := snd range |}.

(** The value of the slider of [c] on a folder bound to [p] lies in the
    range of the slider, and the step of the slider is positive. *)
Definition slider_in_range (p : AttractorParams) (c : Controller) : bool :=
  ((ctl_min c <=? param p (ctl_key c)) && (param p (ctl_key c) <=? ctl_max c)
   && (ctl_min c <? ctl_max c) && (0 <? ctl_step c))%float.

(** An event of a page as the driver builds it: the list offers the
    identifiers of [attractorNames], and the two sliders of the
    [Particles] folder have the ranges that [particleFolder.add] gives
    them. *)
Definition on_page (Math_sin : float -> float) (ev : event) : Prop :=
  match ev with
  | AttractorSelected value => In value (attractorNames Math_sin)
  | CountSlid value => 1000 <= value <= 20 * 1000
  | TrailSlid value => 10 <= value <= 100
  | _ => True
  end.

(** The engines of the [Points] among the children of the scene. *)
Fixpoint points_of (children : list Object3D) : list nat :=
  match children with
  | [] => []
  | Points i :: rest => i :: points_of rest
  | AxesGroup :: rest => points_of rest
  end.

(** The engine of the driver is one a session reaches, it has a ring and
    was not disposed; its points are the only ones in the scene; the
    engines let go of are the ones constructed before it, all disposed; and
    the engine was constructed on a descriptor. *)
Definition stage_invariant (d : Driver) : Prop :=
  let s := snd (particleSystem d) in
  (exists o, engine_invariant o s /\ 1 <= Options.trailLength o) /\
  geometry s = THREE.Live /\ material s = THREE.Live /\
  points_of (scene d) = [fst (particleSystem d)] /\
  Forall (fun r => geometry (snd r) = THREE.Disposed /\
                   material (snd r) = THREE.Disposed) (released d) /\
  map fst (released d) ++ [fst (particleSystem d)] = seq 0 (constructed d) /\
  stepless d = false.

(** The settings name the field of the engine and a ring of at least one
    slot; the engine and the folder of sliders have a value for each
    parameter of the field, and for nothing else; the page shows the number
    of points of the engine. *)
Definition panel_invariant (Math_sin : float -> float) (document : Document)
    (d : Driver) : Prop :=
  let s := snd (particleSystem d) in
  own_property (attractors Math_sin) (Settings.attractor (settings d))
  = Some (currentAttractor s) /\
  1 <= Settings.trailLength (settings d) /\
  map fst (currentParams s) = map fst (params (currentAttractor s)) /\
  (exists f, paramFolder d = Some f /\ destroyed f = false /\
     map ctl_key (controllers f) = map fst (params (currentAttractor s)) /\
     map fst (folder_params f) = map fst (params (currentAttractor s))) /\
  (countEl document = true ->
   particles_count (texts d) = Some (getParticleCount s)).

(** The engine has the colours that the settings name, and the page (when
    it has the element) shows the description of the engine's field. *)
Definition palette_invariant (THREE_Color : string -> THREE.Color)
    (document : Document) (d : Driver) : Prop :=
  let s := snd (particleSystem d) in
  colorStart s = THREE_Color (Settings.colorStart (settings d)) /\
  colorEnd s = THREE_Color (Settings.colorEnd (settings d)) /\
  (descEl document = true -> description (texts d) = Some (currentAttractor s)).

(** ** Inputs of the examples *)

(** A source of random numbers whose every draw is 0.5 (the centre of the
    seeding cube), and one whose every draw is 5/6 (which seeds a Lorenz
    particle at (1, 1, 26)). *)
Definition draws_centre : nat -> float := fun _ => 0.5%float.
Definition draws_lorenz : nat -> float := fun _ => (5 / 6)%float.

Definition red : THREE.Color :=
  {| THREE.r := 1%float; THREE.g := 0%float; THREE.b := 0%float |}.
Definition blue : THREE.Color :=
  {| THREE.r := 0%float; THREE.g := 0%float; THREE.b := 1%float |}.

(** [particleCount] particles with trails of [trailLength] slots, from
    [red] (colorStart) to [blue] (colorEnd). *)
Definition options (particleCount trailLength : nat) : Options.ParticleSystemOptions :=
  {| Options.particleCount := particleCount;
     Options.trailLength := trailLength;
     Options.colorStart := red;
     Options.colorEnd := blue |}.

(** A page that has every element the driver looks for, and a reading of
    colour texts that gives [red] for each. *)
Definition whole_page : Document :=
  {| descEl := true; eqEl := true; katex := true; countEl := true; fpsEl := true |}.

Definition all_red : string -> THREE.Color := fun _ => red.

(** * Proofs *)

(** Reads a field through the setters. *)
Ltac fields :=
  cbn [geometry material positions colors sizes trailPositions trailIndex
       particleCount trailLength colorStart colorEnd currentAttractor
       currentParams set_positions set_colors set_sizes set_trailPositions
       set_trailIndex repack allocate setParams setColors dispose
       getParticleCount].

(** Splits the conjunctions of the goal, and no definition. *)
Ltac splits := repeat match goal with |- _ /\ _ => split end.

(** ** Loops *)

Lemma for_loop_outcome_S {St : Type} (n : nat) (body : nat -> St -> outcome St) (s : St) :
  for_loop (S n) body s
  = match for_loop n body s with
    | Returns a => body n a
    | Throws e => Throws e
    end.
Proof. reflexivity. Qed.

Lemma for_loop_M_S {St : Type} (n : nat) (body : nat -> St -> M St) (s : St) (c : nat) :
  for_loop (S n) body s c
  = match for_loop n body s c with
    | Returns (a, c') => body n a c'
    | Throws e => Throws e
    end.
Proof. reflexivity. Qed.

Lemma for_loop_outcome {St : Type} (Inv : St -> Prop) (n : nat)
    (body : nat -> St -> outcome St) (f : nat -> St -> St) (s : St) :
  Inv s ->
  (forall i s, i < n -> Inv s -> body i s = Returns (f i s) /\ Inv (f i s)) ->
  for_loop n body s = Returns (loop n f s) /\ Inv (loop n f s).
Proof.
  intros Hs Hbody. induction n as [|n IH].
  - split; [reflexivity | exact Hs].
  - destruct IH as [IH1 IH2]; [intros; apply Hbody; [lia | assumption] |].
    rewrite for_loop_outcome_S, IH1. simpl. apply Hbody; [lia | exact IH2].
Qed.

Lemma for_loop_M {St : Type} (Inv : St * nat -> Prop) (n : nat)
    (body : nat -> St -> M St) (f : nat -> St * nat -> St * nat) (s : St) (c : nat) :
  Inv (s, c) ->
  (forall i s c, i < n -> Inv (s, c) ->
     body i s c = Returns (f i (s, c)) /\ Inv (f i (s, c))) ->
  for_loop n body s c = Returns (loop n f (s, c)) /\ Inv (loop n f (s, c)).
Proof.
  intros Hs Hbody. induction n as [|n IH].
  - split; [reflexivity | exact Hs].
  - destruct IH as [IH1 IH2]; [intros; apply Hbody; [lia | assumption] |].
    rewrite for_loop_M_S, IH1. simpl.
    destruct (loop n f (s, c)) as [s' c'] eqn:E.
    apply Hbody; [lia | exact IH2].
Qed.

Lemma loop_ext {St : Type} (n : nat) (f g : nat -> St -> St) (s : St) :
  (forall i x, i < n -> f i x = g i x) -> loop n f s = loop n g s.
Proof.
  intros H. induction n as [|n IH]; simpl; [reflexivity |].
  rewrite IH by (intros; apply H; lia). apply H; lia.
Qed.

Lemma loop_add {St : Type} (a b : nat) (f : nat -> St -> St) (s : St) :
  loop (a + b) f s = loop b (fun j => f (a + j)) (loop a f s).
Proof.
  induction b as [|b IH]; simpl.
  - rewrite Nat.add_0_r. reflexivity.
  - rewrite Nat.add_succ_r. simpl. rewrite IH. reflexivity.
Qed.

(** Two nested loops are one loop over the flat index [i * w + t]. *)
Lemma loop_nested {St : Type} (n w : nat) (f : nat -> nat -> St -> St) (s : St) :
  loop n (fun i => loop w (f i)) s
  = loop (n * w) (fun j => f (j / w) (j mod w)) s.
Proof.
  induction n as [|n IH]; simpl; [reflexivity |].
  rewrite IH. replace (w + n * w) with (n * w + w) by lia.
  rewrite loop_add. apply loop_ext. intros t x Ht.
  replace (n * w + t) with (t + n * w) by lia.
  rewrite Nat.div_add by lia. rewrite Nat.Div0.mod_add.
  rewrite Nat.div_small by lia. rewrite Nat.mod_small by lia.
  reflexivity.
Qed.

(** ** Arrays filled block by block *)

Lemma tabulate_length {A} (v : nat -> A) (n : nat) : length (tabulate v n) = n.
Proof. unfold tabulate. rewrite length_fmap, length_seq. reflexivity. Qed.

Lemma tabulate_lookup {A} (v : nat -> A) (n m : nat) :
  m < n -> tabulate v n !! m = Some (v m).
Proof.
  intros H. unfold tabulate. rewrite list_lookup_fmap.
  rewrite lookup_seq_lt by exact H. reflexivity.
Qed.

Lemma store3_length {A} (v : nat -> A) (j : nat) (l : list A) :
  length (store3 v j l) = length l.
Proof. unfold store3. rewrite !length_insert. reflexivity. Qed.

Lemma loop_store3_length {A} (v : nat -> A) (n : nat) (l : list A) :
  length (loop n (store3 v) l) = length l.
Proof.
  induction n as [|n IH]; simpl; [reflexivity |].
  rewrite store3_length. exact IH.
Qed.

Lemma store3_lookup {A} (v : nat -> A) (j m : nat) (l : list A) :
  (j + 1) * 3 <= length l ->
  store3 v j l !! m
  = if decide (j * 3 <= m < (j + 1) * 3) then Some (v m) else l !! m.
Proof.
  intros Hlen. unfold store3.
  destruct (decide (m = j * 3 + 2)) as [->|N2].
  { rewrite list_lookup_insert_eq by (rewrite !length_insert; lia).
    rewrite decide_True by lia. reflexivity. }
  rewrite list_lookup_insert_ne by lia.
  destruct (decide (m = j * 3 + 1)) as [->|N1].
  { rewrite list_lookup_insert_eq by (rewrite !length_insert; lia).
    rewrite decide_True by lia. reflexivity. }
  rewrite list_lookup_insert_ne by lia.
  destruct (decide (m = j * 3)) as [->|N0].
  { rewrite list_lookup_insert_eq by lia.
    rewrite decide_True by lia. reflexivity. }
  rewrite list_lookup_insert_ne by lia.
  rewrite decide_False by lia. reflexivity.
Qed.

Lemma loop_store3_lookup {A} (v : nat -> A) (n m : nat) (l : list A) :
  n * 3 <= length l ->
  loop n (store3 v) l !! m = if decide (m < n * 3) then Some (v m) else l !! m.
Proof.
  induction n as [|n IH]; intros Hlen; cbn [loop].
  - rewrite decide_False by lia. reflexivity.
  - rewrite store3_lookup by (rewrite loop_store3_length; lia).
    rewrite IH by lia.
    repeat case_decide; try reflexivity; lia.
Qed.

(** A loop of [n] blocks over an array of [3n] cells fills it. *)
Lemma loop_store3 {A} (v : nat -> A) (n : nat) (l : list A) :
  length l = n * 3 -> loop n (store3 v) l = tabulate v (n * 3).
Proof.
  intros Hlen. apply list_eq. intros m.
  rewrite loop_store3_lookup by lia.
  case_decide.
  - rewrite tabulate_lookup by assumption. reflexivity.
  - rewrite !lookup_ge_None_2; [reflexivity | rewrite tabulate_length; lia | lia].
Qed.

Lemma loop_store1_length {A} (v : nat -> A) (n : nat) (l : list A) :
  length (loop n (store1 v) l) = length l.
Proof.
  induction n as [|n IH]; cbn [loop]; [reflexivity |].
  unfold store1 at 1. rewrite length_insert. exact IH.
Qed.

Lemma loop_store1_lookup {A} (v : nat -> A) (n m : nat) (l : list A) :
  n <= length l ->
  loop n (store1 v) l !! m = if decide (m < n) then Some (v m) else l !! m.
Proof.
  induction n as [|n IH]; intros Hlen; cbn [loop].
  - rewrite decide_False by lia. reflexivity.
  - unfold store1 at 1. destruct (decide (m = n)) as [->|N].
    + rewrite list_lookup_insert_eq by (rewrite loop_store1_length; lia).
      rewrite decide_True by lia. reflexivity.
    + rewrite list_lookup_insert_ne by lia. rewrite IH by lia.
      repeat case_decide; try reflexivity; lia.
Qed.

Lemma loop_store1 {A} (v : nat -> A) (n : nat) (l : list A) :
  length l = n -> loop n (store1 v) l = tabulate v n.
Proof.
  intros Hlen. apply list_eq. intros m.
  rewrite loop_store1_lookup by lia.
  case_decide.
  - rewrite tabulate_lookup by assumption. reflexivity.
  - rewrite !lookup_ge_None_2; [reflexivity | rewrite tabulate_length; lia | lia].
Qed.

(** ** updateBuffers *)

Lemma flat_index_div (i t w : nat) : t < w -> (i * w + t) / w = i.
Proof.
  intros H. replace (i * w + t) with (t + i * w) by lia.
  rewrite Nat.div_add by lia. rewrite Nat.div_small by lia. reflexivity.
Qed.

Lemma flat_index_mod (i t w : nat) : t < w -> (i * w + t) mod w = t.
Proof.
  intros H. replace (i * w + t) with (t + i * w) by lia.
  rewrite Nat.Div0.mod_add. apply Nat.mod_small. exact H.
Qed.

Lemma same_config_refl (s : ParticleSystem) : same_config s s.
Proof. unfold same_config. tauto. Qed.

Lemma repack_step_config (s x : ParticleSystem) (j : nat) :
  same_config s x -> same_config s (repack_step s j x).
Proof. unfold same_config, repack_step. simpl. tauto. Qed.

Lemma position_cell_at (s : ParticleSystem) (i t c : nat) :
  t < trailLength s -> c < 3 ->
  position_cell s ((i * trailLength s + t) * 3 + c)
  = fround (f32_get (default [] (ring_slot s t)) (i * 3 + c)
            * scale (currentAttractor s)).
Proof.
  intros Ht Hc. unfold position_cell.
  rewrite (flat_index_div _ c 3 Hc), (flat_index_mod _ c 3 Hc).
  rewrite (flat_index_div _ t _ Ht), (flat_index_mod _ t _ Ht). reflexivity.
Qed.

Lemma color_cell_at (s : ParticleSystem) (i t c : nat) :
  t < trailLength s -> c < 3 ->
  color_cell s ((i * trailLength s + t) * 3 + c)
  = fround (channel c (trail_color s t)).
Proof.
  intros Ht Hc. unfold color_cell.
  rewrite (flat_index_div _ c 3 Hc), (flat_index_mod _ c 3 Hc).
  rewrite (flat_index_mod _ t _ Ht). reflexivity.
Qed.

Lemma size_cell_at (s : ParticleSystem) (i t : nat) :
  t < trailLength s -> size_cell s (i * trailLength s + t) = trail_size s t.
Proof. intros Ht. unfold size_cell. rewrite (flat_index_mod _ t _ Ht). reflexivity. Qed.

Lemma updateBuffers_body_step (s x : ParticleSystem) (i t : nat) :
  same_config s x -> t < trailLength s -> is_Some (ring_slot s t) ->
  updateBuffers_body i t x = Returns (repack_step s (i * trailLength s + t) x).
Proof.
  intros (Hg & Hm & Htp & Hti & Hp & Hl & Hcs & Hce & Ha & Hpa) Ht [a Ha'].
  unfold repack_step, store3, store1.
  rewrite (size_cell_at s i t Ht).
  assert (0 < 3) as H0 by lia.
  pose proof (position_cell_at s i t 0 Ht H0) as P0.
  pose proof (color_cell_at s i t 0 Ht H0) as C0.
  rewrite !Nat.add_0_r in P0. rewrite Nat.add_0_r in C0. rewrite P0, C0.
  rewrite !position_cell_at, !color_cell_at by lia.
  rewrite Ha'.
  unfold ring_slot, trail_at in Ha'.
  unfold updateBuffers_body, read_trail, trail_at.
  destruct x; simpl in *; subst; simpl.
  destruct (js_rem (index_add (trailIndex s) t) (trailLength s)); [| discriminate].
  rewrite Ha'. reflexivity.
Qed.

Lemma repack_step_loop (s x : ParticleSystem) (n : nat) :
  loop n (repack_step s) x
  = set_sizes (loop n (store1 (size_cell s)) (sizes x))
      (set_colors (loop n (store3 (color_cell s)) (colors x))
         (set_positions (loop n (store3 (position_cell s)) (positions x)) x)).
Proof.
  induction n as [|n IH]; cbn [loop].
  - destruct x; reflexivity.
  - rewrite IH. reflexivity.
Qed.

Lemma updateBuffers_inner (s x : ParticleSystem) (i : nat) :
  (forall t, t < trailLength s -> is_Some (ring_slot s t)) ->
  same_config s x ->
  for_loop (trailLength s) (fun t => updateBuffers_body i t) x
  = Returns (loop (trailLength s) (fun t => repack_step s (i * trailLength s + t)) x)
  /\ same_config s (loop (trailLength s) (fun t => repack_step s (i * trailLength s + t)) x).
Proof.
  intros Hring Hx.
  apply (for_loop_outcome (same_config s)); [exact Hx |].
  intros t y Ht Hy. split.
  - apply updateBuffers_body_step; auto.
  - apply repack_step_config. exact Hy.
Qed.

(** On an engine whose buffers fit, [updateBuffers] raises nothing and
    stores in every cell of the three buffers the value of that cell. *)
Lemma updateBuffers_repack (s : ParticleSystem) :
  buffers_fit s -> updateBuffers s = Returns (repack s).
Proof.
  intros (Hp & Hc & Hs & Hring). unfold updateBuffers.
  destruct (for_loop_outcome (same_config s) (particleCount s)
              (fun i => for_loop (trailLength s) (fun t => updateBuffers_body i t))
              (fun i => loop (trailLength s)
                          (fun t => repack_step s (i * trailLength s + t))) s)
    as [E _].
  { apply same_config_refl. }
  { intros i x _ Hx. apply updateBuffers_inner; assumption. }
  rewrite E. f_equal.
  rewrite (loop_nested (particleCount s) (trailLength s)
             (fun i t => repack_step s (i * trailLength s + t))).
  rewrite (loop_ext _ _ (repack_step s)).
  2:{ intros j x Hj. f_equal.
      pose proof (Nat.div_mod_eq j (trailLength s)). lia. }
  rewrite repack_step_loop.
  rewrite !loop_store3 by assumption.
  rewrite loop_store1 by assumption.
  reflexivity.
Qed.

(** ** The ring *)

Lemma well_formed_fit (s : ParticleSystem) : well_formed s -> buffers_fit s.
Proof.
  intros (Hp & Hc & Hs & Hl & _ & Hi). repeat split; try assumption.
  intros t Ht. destruct Hi as (k & Hk & Hlt); [lia |].
  unfold ring_slot, trail_at. rewrite Hk. simpl.
  destruct (Nat.eqb_spec (trailLength s) 0) as [E|_]; [lia |].
  apply lookup_lt_is_Some. rewrite Hl. apply Nat.mod_upper_bound. lia.
Qed.

Lemma write_trail_some (s : ParticleSystem) (n j : nat) (v : float)
    (a : Float32Array) :
  trailPositions s !! n = Some a ->
  write_trail (Some n) j v s
  = Returns (set_trailPositions (<[n := f32_set a j v]> (trailPositions s)) s).
Proof. intros Ha. unfold write_trail. rewrite Ha. reflexivity. Qed.

Lemma bind_Returns {A B} (a : A) (k : A -> outcome B) : Returns a ≫= k = k a.
Proof. reflexivity. Qed.

Lemma write_trail_three (s : ParticleSystem) (n i : nat) (x y z : float)
    (a : Float32Array) :
  trailPositions s !! n = Some a ->
  (s1 ← write_trail (Some n) (i * 3) x s;
   s2 ← write_trail (Some n) (i * 3 + 1) y s1;
   write_trail (Some n) (i * 3 + 2) z s2)
  = Returns (set_trailPositions
               (<[n := store_particle i x y z a]> (trailPositions s)) s).
Proof.
  intros Ha. assert (n < length (trailPositions s)) as Hn
    by (apply lookup_lt_is_Some; eauto).
  rewrite (write_trail_some s n _ _ a Ha), bind_Returns.
  rewrite (write_trail_some _ n _ _ (f32_set a (i * 3) x))
    by (simpl; apply list_lookup_insert_eq; exact Hn).
  rewrite bind_Returns.
  rewrite (write_trail_some _ n _ _ (f32_set (f32_set a (i * 3) x) (i * 3 + 1) y))
    by (simpl; apply list_lookup_insert_eq; rewrite length_insert; exact Hn).
  simpl. rewrite !list_insert_insert_eq. reflexivity.
Qed.

Lemma insert_take_drop {A} (w : A -> A) (l : list A) (n : nat) (a : A) :
  l !! n = Some a ->
  <[n := w a]> ((w <$> take n l) ++ drop n l)
  = (w <$> take (S n) l) ++ drop (S n) l.
Proof.
  intros Ha. assert (n < length l) as Hn by (apply lookup_lt_is_Some; eauto).
  assert (length (w <$> take n l) = n) as Hlen
    by (rewrite length_fmap, length_take; lia).
  rewrite insert_app_r_alt by lia. rewrite Hlen, Nat.sub_diag.
  rewrite (drop_S l a n Ha). simpl.
  rewrite (take_S_r l n a Ha). rewrite fmap_app. simpl.
  rewrite <- app_assoc. reflexivity.
Qed.

(** The inner loop of [initializeParticles]: every array of the ring
    receives the particle's position. *)
Lemma seed_slots (s : ParticleSystem) (i : nat) (x y z : float) :
  length (trailPositions s) = trailLength s ->
  initializeParticles_slots i x y z s
  = Returns (set_trailPositions (store_particle i x y z <$> trailPositions s) s).
Proof.
  intros HT. unfold initializeParticles_slots.
  set (w := store_particle i x y z). set (ring := trailPositions s).
  assert (forall n, n <= length ring ->
    for_loop n (fun t s =>
      s ← write_trail (Some t) (i * 3) x s;
      s ← write_trail (Some t) (i * 3 + 1) y s;
      write_trail (Some t) (i * 3 + 2) z s) s
    = Returns (set_trailPositions ((w <$> take n ring) ++ drop n ring) s)) as H.
  { induction n as [|n IH]; intros Hn.
    - simpl. rewrite drop_0. destruct s; reflexivity.
    - rewrite for_loop_outcome_S, IH by lia.
      destruct (lookup_lt_is_Some_2 ring n) as [a Ha]; [lia |].
      rewrite (write_trail_three _ n i x y z a).
      + rewrite <- (insert_take_drop w ring n a Ha). reflexivity.
      + simpl. rewrite lookup_app_r by (rewrite length_fmap, length_take; lia).
        rewrite length_fmap, length_take.
        replace (n - n `min` length ring) with 0 by lia.
        rewrite lookup_drop, Nat.add_0_r. exact Ha. }
  rewrite <- HT. fold ring. rewrite H by lia.
  rewrite firstn_all, drop_all, app_nil_r. reflexivity.
Qed.

(** ** initializeParticles *)

Lemma fmap_replicate_const {A B} (f : A -> B) (b : B) (l : list A) :
  Forall (fun a => f a = b) l -> f <$> l = replicate (length l) b.
Proof.
  induction 1 as [|a l Ha _ IH]; [reflexivity |].
  rewrite fmap_cons, Ha, IH. reflexivity.
Qed.

Section Seeding.
Variable Math_random : nat -> float.

Lemma seed_body (scale : float) (i : nat) (s : ParticleSystem) (c : nat) :
  initializeParticles_body Math_random scale i s c
  = match initializeParticles_slots i (seed_x Math_random scale c)
            (seed_y Math_random scale c) (seed_z Math_random scale c) s with
    | Returns a => Returns (a, S (S (S c)))
    | Throws e => Throws e
    end.
Proof. reflexivity. Qed.

Lemma store_particle_seed (scale : float) (c n : nat) (a : Float32Array) :
  store_particle n (seed_x Math_random scale (c + n * 3))
    (seed_y Math_random scale (c + n * 3))
    (seed_z Math_random scale (c + n * 3)) a
  = store3 (seed_cell Math_random scale c) n a.
Proof.
  unfold store_particle, store3, f32_set, seed_cell, seed_x, seed_y, seed_z.
  replace ((n * 3) mod 3) with 0
    by (symmetry; apply Nat.Div0.mod_mul).
  replace ((n * 3 + 1) mod 3) with 1
    by (symmetry; rewrite Nat.add_comm, Nat.Div0.mod_add; reflexivity).
  replace ((n * 3 + 2) mod 3) with 2
    by (symmetry; rewrite Nat.add_comm, Nat.Div0.mod_add; reflexivity).
  simpl.
  replace (c + (n * 3 + 1)) with (S (c + n * 3)) by lia.
  replace (c + (n * 3 + 2)) with (S (S (c + n * 3))) by lia.
  reflexivity.
Qed.

(** The outer loop of [initializeParticles] after [n] particles. *)
Lemma seed_particles (s : ParticleSystem) (scale : float) (c n : nat) :
  length (trailPositions s) = trailLength s ->
  for_loop n (initializeParticles_body Math_random scale) s c
  = Returns
      (set_trailPositions
         (loop n (store3 (seed_cell Math_random scale c)) <$> trailPositions s) s,
       c + n * 3).
Proof.
  intros Hlen. induction n as [|n IH].
  - simpl. rewrite Nat.add_0_r. rewrite list_fmap_id. destruct s; reflexivity.
  - rewrite for_loop_M_S, IH, seed_body.
    rewrite seed_slots
      by (cbn [trailPositions set_trailPositions trailLength];
          rewrite length_fmap; auto).
    cbn [trailPositions set_trailPositions].
    rewrite <- list_fmap_compose. f_equal. f_equal.
    + change (set_trailPositions ?a (set_trailPositions ?b s))
        with (set_trailPositions a s).
      f_equal. apply list_fmap_ext. intros _ a _. simpl.
      apply store_particle_seed.
    + lia.
Qed.

Lemma seeded_ring_fmap (s : ParticleSystem) (c : nat) :
  length (trailPositions s) = trailLength s ->
  Forall (fun a => length a = particleCount s * 3) (trailPositions s) ->
  loop (particleCount s)
    (store3 (seed_cell Math_random (scale (currentAttractor s)) c))
    <$> trailPositions s
  = seeded_ring Math_random s c.
Proof.
  intros Hlen Hall. unfold seeded_ring. rewrite <- Hlen.
  apply fmap_replicate_const.
  eapply Forall_impl; [exact Hall |]. intros a Ha. simpl.
  apply loop_store3. exact Ha.
Qed.

Lemma seeded_well_formed (s : ParticleSystem) (c : nat) :
  well_formed s ->
  well_formed (set_trailPositions (seeded_ring Math_random s c) s).
Proof.
  intros (Hp & Hc & Hs & Hl & Hall & Hi).
  unfold well_formed. simpl. repeat split; try assumption.
  - unfold seeded_ring. apply length_replicate.
  - unfold seeded_ring. apply Forall_replicate. apply tabulate_length.
Qed.

(** [initializeParticles] on a well-formed engine: it raises nothing,
    draws three numbers for each particle, gives every slot of the ring
    the particle's position and repacks. *)
Lemma initializeParticles_seeded (s : ParticleSystem) (c : nat) :
  well_formed s ->
  initializeParticles Math_random s c
  = Returns (repack (set_trailPositions (seeded_ring Math_random s c) s),
             c + particleCount s * 3).
Proof.
  intros Hwf. pose proof Hwf as (Hp & Hc & Hs & Hl & Hall & Hi).
  unfold initializeParticles, mbind, M_bind.
  rewrite seed_particles by exact Hl.
  rewrite seeded_ring_fmap by assumption.
  unfold lift. rewrite updateBuffers_repack; [reflexivity |].
  apply well_formed_fit, seeded_well_formed, Hwf.
Qed.
End Seeding.

(** ** update *)

Section Advancing.
Variable Math_random : nat -> float.

Lemma update_body_step (s : ParticleSystem) (dt : float)
    (current next i c : nat) (a b : Float32Array) :
  trailPositions s !! current = Some a ->
  trailPositions s !! next = Some b ->
  update_body Math_random dt (Some current) (Some next) i s c
  = Returns (update_step Math_random dt current next i (s, c)).
Proof.
  intros Ha Hb.
  assert (next < length (trailPositions s)) as Hn
    by (apply lookup_lt_is_Some; eauto).
  unfold update_body, update_step, next_position, particle_at, read_trail, trail_at.
  cbv zeta. cbn [fst snd]. rewrite Ha, Hb. cbn [default from_option id].
  unfold sample, random, lift, mbind, M_bind, mret, M_ret. cbv beta.
  destruct (step (currentAttractor s) (f32_get a (i * 3)) (f32_get a (i * 3 + 1))
              (f32_get a (i * 3 + 2)) (currentParams s) dt) as [[nx ny] nz].
  destruct (negb (isFinite nx) || negb (isFinite ny) || negb (isFinite nz)).
  - rewrite (write_trail_some s next _ _ b Hb).
    rewrite (write_trail_some _ next _ _ (f32_set b (i * 3) _))
      by (simpl; apply list_lookup_insert_eq; exact Hn).
    rewrite (write_trail_some _ next _ _ (f32_set (f32_set b (i * 3) _) (i * 3 + 1) _))
      by (simpl; apply list_lookup_insert_eq; rewrite length_insert; exact Hn).
    simpl. rewrite !list_insert_insert_eq. reflexivity.
  - rewrite (write_trail_some s next _ _ b Hb).
    rewrite (write_trail_some _ next _ _ (f32_set b (i * 3) _))
      by (simpl; apply list_lookup_insert_eq; exact Hn).
    rewrite (write_trail_some _ next _ _ (f32_set (f32_set b (i * 3) _) (i * 3 + 1) _))
      by (simpl; apply list_lookup_insert_eq; rewrite length_insert; exact Hn).
    simpl. rewrite !list_insert_insert_eq. reflexivity.
Qed.

Lemma store_particle_length (i : nat) (x y z : float) (b : Float32Array) :
  length (store_particle i x y z b) = length b.
Proof. unfold store_particle, f32_set. rewrite !length_insert. reflexivity. Qed.

Lemma store_particle_holds (i : nat) (x y z : float) (b : Float32Array) :
  (i + 1) * 3 <= length b ->
  holds_particle (store_particle i x y z b) i (x, y, z).
Proof.
  intros H. unfold holds_particle, store_particle, f32_set. cbn [fst snd].
  repeat split.
  - rewrite !list_lookup_insert_ne by lia.
    apply list_lookup_insert_eq. lia.
  - rewrite list_lookup_insert_ne by lia.
    apply list_lookup_insert_eq. rewrite length_insert. lia.
  - apply list_lookup_insert_eq. rewrite !length_insert. lia.
Qed.

Lemma store_particle_other (i m : nat) (x y z : float) (b : Float32Array) :
  m < i * 3 \/ (i + 1) * 3 <= m ->
  store_particle i x y z b !! m = b !! m.
Proof.
  intros H. unfold store_particle, f32_set.
  rewrite !list_lookup_insert_ne by lia. reflexivity.
Qed.

Lemma next_position_calls (s : ParticleSystem) (dt : float)
    (p : float * float * float) (c : nat) :
  c <= snd (next_position Math_random s dt p c).
Proof.
  unfold next_position. destruct p as [[x y] z].
  destruct (step _ _ _ _ _ _) as [[nx ny] nz].
  destruct (_ || _); simpl; lia.
Qed.

(** The loop of [update] after [n] particles, on a ring whose slots
    [current] and [next] are [a0] and [b0]: only slot [next] has changed,
    and only at the first [n] particles, each of which holds the position
    computed from its position in [a0]. *)
Lemma update_loop (s : ParticleSystem) (dt : float) (current next c : nat)
    (a0 b0 : Float32Array) (n : nat) :
  trailPositions s !! current = Some a0 ->
  trailPositions s !! next = Some b0 ->
  n * 3 <= length b0 ->
  exists ring b c',
    loop n (update_step Math_random dt current next) (s, c)
    = (set_trailPositions ring s, c') /\
    c <= c' /\
    length ring = length (trailPositions s) /\
    (forall j, j <> next -> ring !! j = trailPositions s !! j) /\
    ring !! next = Some b /\
    length b = length b0 /\
    (forall m, n * 3 <= m -> b !! m = b0 !! m) /\
    (forall i, i < n -> exists ci, c <= ci /\
       holds_particle b i
         (fst (next_position Math_random s dt (particle_at a0 i) ci))).
Proof.
  intros Ha Hb. induction n as [|n IH]; intros Hlen.
  - exists (trailPositions s), b0, c. cbn [loop].
    repeat split; auto; try lia.
    destruct s; reflexivity.
  - destruct IH as (ring & b & c' & E & Hc & Hl & Hother & Hnext & Hbl & Htail & Hpart);
      [lia |].
    cbn [loop]. rewrite E. unfold update_step. cbn [fst snd].
    cbn [trailPositions set_trailPositions]. rewrite Hnext.
    cbn [default from_option id].
    assert (particle_at (default (new_Float32Array 0) (ring !! current)) n
            = particle_at a0 n) as Eread.
    { destruct (decide (current = next)) as [->|Hne].
      - rewrite Hnext. cbn [default from_option id].
        assert (a0 = b0) as -> by congruence.
        unfold particle_at, f32_get. rewrite !Htail by lia. reflexivity.
      - rewrite Hother, Ha by exact Hne. reflexivity. }
    rewrite Eread.
    change (next_position Math_random (set_trailPositions ring s) dt)
      with (next_position Math_random s dt).
    pose proof (next_position_calls s dt (particle_at a0 n) c') as Hcalls.
    destruct (next_position Math_random s dt (particle_at a0 n) c')
      as [[[vx vy] vz] c''] eqn:Enext.
    exists (<[next := store_particle n vx vy vz b]> ring),
           (store_particle n vx vy vz b), c''.
    assert (next < length ring) as Hn by (apply lookup_lt_is_Some; eauto).
    simpl in Hcalls. repeat split.
    + lia.
    + rewrite length_insert. exact Hl.
    + intros j Hj. rewrite list_lookup_insert_ne by auto. apply Hother, Hj.
    + apply list_lookup_insert_eq. exact Hn.
    + rewrite store_particle_length. exact Hbl.
    + intros m Hm. rewrite store_particle_other by lia. apply Htail. lia.
    + intros i Hi. destruct (decide (i = n)) as [->|Hin].
      * exists c'. split; [exact Hc |]. rewrite Enext. cbn [fst].
        apply store_particle_holds. lia.
      * destruct (Hpart i) as (ci & Hci & H0 & H1 & H2); [lia |].
        exists ci. split; [exact Hci |]. unfold holds_particle.
        rewrite !store_particle_other by lia. auto.
Qed.

Lemma update_step_length (dt : float) (current next i : nat)
    (sc : ParticleSystem * nat) :
  length (trailPositions (fst (update_step Math_random dt current next i sc)))
  = length (trailPositions (fst sc)).
Proof.
  unfold update_step.
  destruct (next_position _ _ _ _ _) as [[[vx vy] vz] c'].
  cbn [fst trailPositions set_trailPositions]. apply length_insert.
Qed.

(** The loop of [update] raises nothing when the ring has the two slots. *)
Lemma update_loop_returns (s : ParticleSystem) (dt : float)
    (current next c n : nat) :
  current < length (trailPositions s) ->
  next < length (trailPositions s) ->
  for_loop n (update_body Math_random dt (Some current) (Some next)) s c
  = Returns (loop n (update_step Math_random dt current next) (s, c)).
Proof.
  intros Hc Hn.
  apply (for_loop_M
           (fun sc => length (trailPositions (fst sc)) = length (trailPositions s))).
  - reflexivity.
  - intros i x c0 _ Hx. cbn [fst] in Hx. split.
    + destruct (lookup_lt_is_Some_2 (trailPositions x) current) as [a Ha]; [lia |].
      destruct (lookup_lt_is_Some_2 (trailPositions x) next) as [b Hb]; [lia |].
      apply (update_body_step x dt current next i c0 a b Ha Hb).
    + rewrite update_step_length. exact Hx.
Qed.

(** [update] on a well-formed engine with a ring of at least one slot,
    whose index is [k]: it raises nothing; the index becomes [k'], the
    slot before [k] round the ring; slot [k'] receives for every particle
    the position computed from its position in slot [k], the other slots
    are left as they were; and the buffers are repacked. *)
Lemma update_advanced (s : ParticleSystem) (speed : float) (c k : nat)
    (a0 : Float32Array) :
  well_formed s -> trailIndex s = Some k -> k < trailLength s ->
  trailPositions s !! k = Some a0 ->
  let k' := (k + trailLength s - 1) mod trailLength s in
  let dt := (dt (currentAttractor s) * speed)%float in
  exists ring b c',
    update Math_random speed s c
    = Returns (repack (set_trailIndex (Some k') (set_trailPositions ring s)), c') /\
    well_formed (set_trailIndex (Some k') (set_trailPositions ring s)) /\
    c <= c' /\
    (forall j, j <> k' -> ring !! j = trailPositions s !! j) /\
    ring !! k' = Some b /\
    (forall i, i < particleCount s -> exists ci, c <= ci /\
       holds_particle b i
         (fst (next_position Math_random s dt (particle_at a0 i) ci))).
Proof.
  intros Hwf Hk Hlt Ha0 k' dt0.
  pose proof Hwf as (Hp & Hc & Hs & Hl & Hall & Hi).
  assert (k' < trailLength s) as Hk' by (apply Nat.mod_upper_bound; lia).
  destruct (lookup_lt_is_Some_2 (trailPositions s) k') as [b0 Hb0]; [lia |].
  assert (length b0 = particleCount s * 3) as Hb0len
    by (eapply (proj1 (Forall_lookup _ _) Hall); exact Hb0).
  destruct (update_loop s dt0 k k' c a0 b0 (particleCount s) Ha0 Hb0)
    as (ring & b & c' & E & Hcc & Hrl & Hother & Hnext & Hbl & _ & Hpart); [lia |].
  exists ring, b, c'.
  assert (well_formed (set_trailIndex (Some k') (set_trailPositions ring s))) as Hwf'.
  { unfold well_formed. cbn. repeat split; try assumption; try lia.
    - apply Forall_lookup. intros j x Hx.
      destruct (decide (j = k')) as [->|Hj].
      + rewrite Hnext in Hx. injection Hx as <-. lia.
      + rewrite Hother in Hx by exact Hj.
        eapply (proj1 (Forall_lookup _ _) Hall); exact Hx.
    - intros _. exists k'. auto. }
  split; [| split; [exact Hwf' | repeat split; assumption]].
  unfold update. rewrite Hk. cbn [index_add index_sub js_rem].
  destruct (Nat.eqb_spec (trailLength s) 0) as [E0|_]; [lia |].
  fold k'. fold dt0. unfold mbind, M_bind.
  rewrite update_loop_returns by lia. rewrite E.
  unfold lift. rewrite updateBuffers_repack; [reflexivity |].
  apply well_formed_fit, Hwf'.
Qed.
End Advancing.

(** ** The engine's invariant *)

Lemma push_arrays (n : nat) (a : Float32Array) :
  Nat.iter n (fun l => l ++ [a]) [] = replicate n a.
Proof.
  induction n as [|n IH]; [reflexivity |].
  rewrite Nat.iter_succ, IH.
  clear IH. induction n as [|n IH]; [reflexivity |].
  cbn [replicate app]. rewrite IH. reflexivity.
Qed.

Lemma allocate_well_formed (a : Attractor) (o : Options.ParticleSystemOptions) :
  well_formed (allocate a o).
Proof.
  unfold well_formed, allocate. cbn. rewrite push_arrays.
  unfold new_Float32Array. rewrite !length_replicate.
  repeat split; try reflexivity.
  - apply Forall_replicate. apply length_replicate.
  - intros H. exists 0. split; [reflexivity | exact H].
Qed.

Lemma tabulate_ext {A} (f g : nat -> A) (n : nat) :
  (forall m, m < n -> f m = g m) -> tabulate f n = tabulate g n.
Proof.
  intros H. apply list_eq. intros m.
  destruct (decide (m < n)) as [Hm|Hm].
  - rewrite !tabulate_lookup by exact Hm. f_equal. apply H, Hm.
  - rewrite !lookup_ge_None_2; [reflexivity | |]; rewrite tabulate_length; lia.
Qed.

Lemma repack_well_formed (s : ParticleSystem) :
  well_formed s -> well_formed (repack s).
Proof.
  intros (Hp & Hc & Hs & Hl & Hall & Hi).
  unfold well_formed, repack. cbn. rewrite !tabulate_length.
  repeat split; assumption.
Qed.

Lemma repack_sizes (s x : ParticleSystem) :
  trailLength x = trailLength s -> particleCount x = particleCount s ->
  sizes (repack x) = tabulate (size_cell s) (particleCount s * trailLength s).
Proof.
  intros HT HP. unfold repack. cbn. rewrite HT, HP.
  apply tabulate_ext. intros m _. unfold size_cell, trail_size.
  rewrite HT. reflexivity.
Qed.

Lemma for_loop_throws_first {St : Type} (n : nat) (body : nat -> St -> M St)
    (s : St) (c : nat) (e : error) :
  body 0 s c = Throws e -> for_loop (S n) body s c = Throws e.
Proof.
  intros H. induction n as [|n IH].
  - rewrite for_loop_M_S. exact H.
  - rewrite for_loop_M_S, IH. reflexivity.
Qed.

Section Invariant.
Variable Math_random : nat -> float.

Lemma construct_seeded (a : Attractor) (o : Options.ParticleSystemOptions)
    (c : nat) :
  construct Math_random a o c
  = Returns (repack (set_trailPositions
                       (seeded_ring Math_random (allocate a o) c) (allocate a o)),
             c + Options.particleCount o * 3).
Proof.
  unfold construct.
  rewrite initializeParticles_seeded by apply allocate_well_formed.
  reflexivity.
Qed.

Lemma construct_invariant (a : Attractor) (o : Options.ParticleSystemOptions)
    (c c' : nat) (s : ParticleSystem) :
  construct Math_random a o c = Returns (s, c') -> engine_invariant o s.
Proof.
  rewrite construct_seeded. intros [= <- _].
  split; [| split; [reflexivity | split; [reflexivity |]]].
  - apply repack_well_formed, seeded_well_formed, allocate_well_formed.
  - apply repack_sizes; reflexivity.
Qed.

(** With an empty ring and a particle to move, [update] raises a
    TypeError at its first read. *)
Lemma update_empty_ring (s : ParticleSystem) (speed : float) (c : nat) :
  trailPositions s = [] -> 0 < particleCount s ->
  update Math_random speed s c = Throws TypeError.
Proof.
  intros Hring HP. unfold update, mbind, M_bind.
  destruct (particleCount s) as [|n]; [lia |].
  rewrite (for_loop_throws_first _ _ _ _ TypeError); [reflexivity |].
  unfold update_body, read_trail, trail_at. rewrite Hring.
  destruct (trailIndex s); reflexivity.
Qed.

Lemma update_invariant (o : Options.ParticleSystemOptions)
    (s s' : ParticleSystem) (speed : float) (c c' : nat) :
  engine_invariant o s ->
  update Math_random speed s c = Returns (s', c') -> engine_invariant o s'.
Proof.
  intros (Hwf & HP & HT & Hsz) Hupd.
  pose proof Hwf as (Hp & Hc & Hs & Hl & Hall & Hi).
  destruct (Nat.eq_dec (trailLength s) 0) as [E0|N0].
  - (* no ring: the call returns only when there is no particle *)
    assert (trailPositions s = []) as Hring
      by (apply length_zero_iff_nil; lia).
    destruct (Nat.eq_dec (particleCount s) 0) as [P0|NP].
    + unfold update, mbind, M_bind in Hupd.
      rewrite P0 in Hupd. cbn [for_loop mret M_ret] in Hupd.
      unfold updateBuffers, lift in Hupd.
      cbn [particleCount set_trailIndex] in Hupd. rewrite P0 in Hupd.
      cbn [for_loop mret outcome_ret] in Hupd.
      injection Hupd as <- _.
      unfold engine_invariant, well_formed. cbn.
      repeat split; try assumption. intros H. lia.
    + rewrite update_empty_ring in Hupd by (auto; lia). discriminate.
  - destruct Hi as (k & Hk & Hlt); [lia |].
    destruct (lookup_lt_is_Some_2 (trailPositions s) k) as [a0 Ha0]; [lia |].
    destruct (update_advanced Math_random s speed c k a0 Hwf Hk Hlt Ha0)
      as (ring & b & c'' & E & Hwf' & _).
    rewrite E in Hupd. injection Hupd as <- _.
    split; [| split; [exact HP | split; [exact HT |]]].
    + apply repack_well_formed, Hwf'.
    + apply repack_sizes; reflexivity.
Qed.

Lemma setAttractor_invariant (o : Options.ParticleSystemOptions)
    (s s' : ParticleSystem) (f : Attractor) (c c' : nat) :
  engine_invariant o s ->
  setAttractor Math_random f s c = Returns (s', c') -> engine_invariant o s'.
Proof.
  intros (Hwf & HP & HT & Hsz). unfold setAttractor.
  rewrite initializeParticles_seeded by exact Hwf.
  intros [= <- _].
  split; [| split; [exact HP | split; [exact HT |]]].
  - apply repack_well_formed, seeded_well_formed. exact Hwf.
  - apply repack_sizes; reflexivity.
Qed.

Lemma exec_invariant (o : Options.ParticleSystemOptions)
    (s s' : ParticleSystem) (cl : call) (c c' : nat) :
  engine_invariant o s ->
  exec Math_random cl s c = Returns (s', c') -> engine_invariant o s'.
Proof.
  intros Hinv. destruct cl as [speed|f|p|c1 c2|]; cbn [exec].
  - apply update_invariant, Hinv.
  - apply setAttractor_invariant, Hinv.
  - intros [= <- _]. exact Hinv.
  - intros [= <- _]. exact Hinv.
  - intros [= <- _]. exact Hinv.
Qed.

Lemma run_invariant (o : Options.ParticleSystemOptions) (cs : list call)
    (s s' : ParticleSystem) (c c' : nat) :
  engine_invariant o s ->
  run Math_random cs s c = Returns (s', c') -> engine_invariant o s'.
Proof.
  revert s c. induction cs as [|cl cs IH]; intros s c Hinv; cbn [run].
  - intros [= <- _]. exact Hinv.
  - unfold mbind, M_bind.
    destruct (exec Math_random cl s c) as [[s1 c1]|e] eqn:E; [| discriminate].
    apply IH. eapply exec_invariant; eauto.
Qed.

(** Every engine a driver can reach satisfies the invariant. *)
Lemma session_invariant (a : Attractor) (o : Options.ParticleSystemOptions)
    (cs : list call) (s : ParticleSystem) (c0 c : nat) :
  session Math_random a o cs c0 = Returns (s, c) -> engine_invariant o s.
Proof.
  unfold session, mbind, M_bind.
  destruct (construct Math_random a o c0) as [[s0 c1]|e] eqn:E; [| discriminate].
  apply run_invariant. eapply construct_invariant; eauto.
Qed.
End Invariant.

(** ** dispose and the later calls *)

Lemma same_outcome_bind {A B : Type} (ra : A -> A -> Prop) (rb : B -> B -> Prop)
    (m1 m2 : outcome A) (k1 k2 : A -> outcome B) :
  same_outcome ra m1 m2 ->
  (forall a1 a2, ra a1 a2 -> same_outcome rb (k1 a1) (k2 a2)) ->
  same_outcome rb (m1 ≫= k1) (m2 ≫= k2).
Proof.
  intros Hm Hk. destruct m1 as [a1|e1], m2 as [a2|e2]; simpl in *;
    try contradiction; auto.
Qed.

Lemma same_run_bind {A B : Type} (ra : A -> A -> Prop) (rb : B -> B -> Prop)
    (m1 m2 : M A) (k1 k2 : A -> M B) :
  same_run ra m1 m2 ->
  (forall a1 a2, ra a1 a2 -> same_run rb (k1 a1) (k2 a2)) ->
  same_run rb (m1 ≫= k1) (m2 ≫= k2).
Proof.
  intros Hm Hk c. specialize (Hm c). unfold mbind, M_bind.
  destruct (m1 c) as [[a1 c1]|e1], (m2 c) as [[a2 c2]|e2]; simpl in *;
    try contradiction; auto.
  destruct Hm as [Ha ->]. apply Hk, Ha.
Qed.

Lemma same_run_lift {A : Type} (r : A -> A -> Prop) (o1 o2 : outcome A) :
  same_outcome r o1 o2 -> same_run r (lift o1) (lift o2).
Proof.
  intros H c. unfold lift.
  destruct o1 as [a1|e1], o2 as [a2|e2]; simpl in *; auto.
Qed.

Lemma same_outcome_loop {St : Type} (r : St -> St -> Prop) (n : nat)
    (b1 b2 : nat -> St -> outcome St) (s1 s2 : St) :
  (forall i a1 a2, r a1 a2 -> same_outcome r (b1 i a1) (b2 i a2)) ->
  r s1 s2 -> same_outcome r (for_loop n b1 s1) (for_loop n b2 s2).
Proof.
  intros Hb Hs. induction n as [|n IH]; [exact Hs |].
  cbn [for_loop]. eapply same_outcome_bind; [exact IH |]. apply Hb.
Qed.

Lemma same_run_loop {St : Type} (r : St -> St -> Prop) (n : nat)
    (b1 b2 : nat -> St -> M St) (s1 s2 : St) :
  (forall i a1 a2, r a1 a2 -> same_run r (b1 i a1) (b2 i a2)) ->
  r s1 s2 -> same_run r (for_loop n b1 s1) (for_loop n b2 s2).
Proof.
  intros Hb Hs. induction n as [|n IH].
  - intros c. simpl. auto.
  - cbn [for_loop]. eapply same_run_bind; [exact IH |]. apply Hb.
Qed.

Lemma read_trail_disposed (s : ParticleSystem) (i : index) (j : nat) :
  same_outcome eq (read_trail (dispose s) i j) (read_trail s i j).
Proof.
  unfold read_trail, trail_at. cbn [trailPositions dispose].
  destruct i as [n|]; [destruct (trailPositions s !! n) |]; simpl; auto.
Qed.

Lemma write_trail_disposed (x y : ParticleSystem) (i : index) (j : nat) (v : float) :
  disposed x y -> same_outcome disposed (write_trail i j v x) (write_trail i j v y).
Proof.
  intros ->. unfold write_trail. cbn [trailPositions dispose].
  destruct i as [n|]; [destruct (trailPositions y !! n) |]; simpl; auto.
  reflexivity.
Qed.

Lemma updateBuffers_body_disposed (x y : ParticleSystem) (i t : nat) :
  disposed x y ->
  same_outcome disposed (updateBuffers_body i t x) (updateBuffers_body i t y).
Proof.
  intros ->. unfold updateBuffers_body.
  eapply same_outcome_bind; [apply read_trail_disposed |]. intros px _ <-.
  eapply same_outcome_bind; [apply (read_trail_disposed (set_positions _ y)) |].
  intros py _ <-.
  eapply same_outcome_bind; [apply (read_trail_disposed (set_positions _ (set_positions _ y))) |].
  intros pz _ <-. reflexivity.
Qed.

Lemma disposed_fields (x y : ParticleSystem) :
  disposed x y ->
  particleCount x = particleCount y /\ trailLength x = trailLength y /\
  trailIndex x = trailIndex y /\ currentAttractor x = currentAttractor y.
Proof. intros ->. repeat split. Qed.

Lemma updateBuffers_disposed (x y : ParticleSystem) :
  disposed x y -> same_outcome disposed (updateBuffers x) (updateBuffers y).
Proof.
  intros H. unfold updateBuffers.
  destruct (disposed_fields x y H) as (-> & -> & _ & _).
  apply same_outcome_loop; [| exact H].
  intros i a1 a2 Ha. apply same_outcome_loop; [| exact Ha].
  intros t b1 b2 Hb. apply updateBuffers_body_disposed, Hb.
Qed.

Section Disposing.
Variable Math_random : nat -> float.

Lemma sample_same (scale : float) :
  same_run eq (sample Math_random scale) (sample Math_random scale).
Proof. intros c. simpl. auto. Qed.

Lemma initializeParticles_disposed (x y : ParticleSystem) :
  disposed x y ->
  same_run disposed (initializeParticles Math_random x)
    (initializeParticles Math_random y).
Proof.
  intros H. unfold initializeParticles.
  destruct (disposed_fields x y H) as (-> & _ & _ & ->).
  eapply same_run_bind.
  - apply same_run_loop; [| exact H].
    intros i a1 a2 Ha. unfold initializeParticles_body.
    eapply same_run_bind; [apply sample_same |]. intros vx _ <-.
    eapply same_run_bind; [apply sample_same |]. intros vy _ <-.
    eapply same_run_bind; [apply sample_same |]. intros vz _ <-.
    apply same_run_lift. unfold initializeParticles_slots.
    destruct (disposed_fields a1 a2 Ha) as (_ & -> & _ & _).
    apply same_outcome_loop; [| exact Ha].
    intros t b1 b2 Hb.
    eapply same_outcome_bind; [apply write_trail_disposed, Hb |]. intros c1 c2 Hc.
    eapply same_outcome_bind; [apply write_trail_disposed, Hc |]. intros d1 d2 Hd.
    apply write_trail_disposed, Hd.
  - intros a1 a2 Ha. apply same_run_lift, updateBuffers_disposed, Ha.
Qed.

Lemma update_body_disposed (dt : float) (current next : index) (i : nat)
    (x y : ParticleSystem) :
  disposed x y ->
  same_run disposed (update_body Math_random dt current next i x)
    (update_body Math_random dt current next i y).
Proof.
  intros ->. unfold update_body.
  eapply same_run_bind; [apply same_run_lift, read_trail_disposed |]. intros px _ <-.
  eapply same_run_bind; [apply same_run_lift, read_trail_disposed |]. intros py _ <-.
  eapply same_run_bind; [apply same_run_lift, read_trail_disposed |]. intros pz _ <-.
  cbn [currentAttractor currentParams dispose].
  destruct (step (currentAttractor y) px py pz (currentParams y) dt) as [[nx ny] nz].
  destruct (negb (isFinite nx) || negb (isFinite ny) || negb (isFinite nz)).
  - eapply same_run_bind; [apply sample_same |]. intros rx _ <-.
    eapply same_run_bind;
      [apply same_run_lift, write_trail_disposed; reflexivity |]. intros a1 a2 Ha.
    eapply same_run_bind; [apply sample_same |]. intros ry _ <-.
    eapply same_run_bind; [apply same_run_lift, write_trail_disposed, Ha |].
    intros b1 b2 Hb.
    eapply same_run_bind; [apply sample_same |]. intros rz _ <-.
    apply same_run_lift, write_trail_disposed, Hb.
  - eapply same_run_bind;
      [apply same_run_lift, write_trail_disposed; reflexivity |]. intros a1 a2 Ha.
    eapply same_run_bind; [apply same_run_lift, write_trail_disposed, Ha |].
    intros b1 b2 Hb.
    apply same_run_lift, write_trail_disposed, Hb.
Qed.

Lemma update_disposed (speed : float) (x y : ParticleSystem) :
  disposed x y ->
  same_run disposed (update Math_random speed x) (update Math_random speed y).
Proof.
  intros H. unfold update.
  destruct (disposed_fields x y H) as (-> & -> & -> & ->).
  eapply same_run_bind.
  - apply same_run_loop; [| exact H].
    intros i a1 a2 Ha. apply update_body_disposed, Ha.
  - intros a1 a2 Ha. apply same_run_lift, updateBuffers_disposed.
    unfold disposed in *. rewrite Ha. reflexivity.
Qed.

Lemma exec_disposed (cl : call) (x y : ParticleSystem) :
  disposed x y ->
  same_run disposed (exec Math_random cl x) (exec Math_random cl y).
Proof.
  intros H. destruct cl as [speed|f|p|c1 c2|]; cbn [exec].
  - apply update_disposed, H.
  - unfold setAttractor. apply initializeParticles_disposed.
    unfold disposed in *. rewrite H. reflexivity.
  - intros c. unfold disposed in *. simpl. rewrite H. auto.
  - intros c. unfold disposed in *. simpl. rewrite H. auto.
  - intros c. unfold disposed in *. simpl. rewrite H. auto.
Qed.
End Disposing.

(** ** Trails up to a rotation of the ring *)

Lemma mod_wrap (x n : nat) : n <= x < 2 * n -> x mod n = x - n.
Proof.
  intros H. replace x with (x - n + 1 * n) at 1 by lia.
  rewrite Nat.Div0.mod_add. apply Nat.mod_small. lia.
Qed.

(** Walking the ring from the new index: the slot [t] places after it is,
    for [t > 0], the slot [t - 1] places after the old index, and is not
    the slot at the new index. *)
Lemma ring_walk (k n t : nat) :
  k < n -> 0 < t < n ->
  let k' := (k + n - 1) mod n in
  (k' + t) mod n = (k + (t - 1)) mod n /\ (k' + t) mod n <> k'.
Proof.
  intros Hk Ht k'. assert (k' < n) as Hk' by (apply Nat.mod_upper_bound; lia).
  split.
  - unfold k'. rewrite Nat.Div0.add_mod_idemp_l.
    replace (k + n - 1 + t) with (k + (t - 1) + 1 * n) by lia.
    apply Nat.Div0.mod_add.
  - destruct (Nat.lt_ge_cases (k' + t) n) as [Hs|Hw].
    + rewrite Nat.mod_small by exact Hs. lia.
    + rewrite mod_wrap by lia. lia.
Qed.

Lemma ring_slot_index (s : ParticleSystem) (k t : nat) :
  trailIndex s = Some k -> 0 < trailLength s ->
  ring_slot s t = trailPositions s !! ((k + t) mod trailLength s).
Proof.
  intros Hk HT. unfold ring_slot, trail_at. rewrite Hk. cbn [index_add js_rem].
  destruct (Nat.eqb_spec (trailLength s) 0) as [E|_]; [lia | reflexivity].
Qed.

Section Rotation.
Variable Math_random : nat -> float.

Lemma advance_length (s : ParticleSystem) (dt : float) (a0 b0 : list float)
    (c n : nat) :
  length (fst (loop n (advance_particle Math_random s dt a0) (b0, c))) = length b0.
Proof.
  induction n as [|n IH]; [reflexivity |].
  cbn [loop]. unfold advance_particle at 1.
  destruct (next_position _ _ _ _ _) as [[[vx vy] vz] c'].
  cbn [fst]. rewrite store_particle_length. exact IH.
Qed.

Lemma advance_tail (s : ParticleSystem) (dt : float) (a0 b0 : list float)
    (c n m : nat) :
  n * 3 <= m ->
  fst (loop n (advance_particle Math_random s dt a0) (b0, c)) !! m = b0 !! m.
Proof.
  induction n as [|n IH]; intros Hm; [reflexivity |].
  cbn [loop]. unfold advance_particle at 1.
  destruct (next_position _ _ _ _ _) as [[[vx vy] vz] c'].
  cbn [fst]. rewrite store_particle_other by lia. apply IH. lia.
Qed.

(** The loop of [update] stores in slot [next] what [advance_particle]
    computes from the arrays [a0] and [b0] of the slots [current] and
    [next]; the other slots keep their arrays. *)
Lemma update_loop_closed (s : ParticleSystem) (dt : float) (current next c : nat)
    (a0 b0 : list float) (n : nat) :
  trailPositions s !! current = Some a0 ->
  trailPositions s !! next = Some b0 ->
  loop n (update_step Math_random dt current next) (s, c)
  = (set_trailPositions
       (<[next := fst (loop n (advance_particle Math_random s dt a0) (b0, c))]>
          (trailPositions s)) s,
     snd (loop n (advance_particle Math_random s dt a0) (b0, c))).
Proof.
  intros Ha Hb.
  assert (next < length (trailPositions s)) as Hn by (apply lookup_lt_is_Some; eauto).
  induction n as [|n IH].
  - cbn [loop fst snd]. rewrite list_insert_id by exact Hb. destruct s; reflexivity.
  - cbn [loop]. rewrite IH.
    assert (forall m, n * 3 <= m ->
              fst (loop n (advance_particle Math_random s dt a0) (b0, c)) !! m
              = b0 !! m) as Htail by (intros m Hm; apply advance_tail, Hm).
    destruct (loop n (advance_particle Math_random s dt a0) (b0, c)) as [b cn].
    cbn [fst snd] in *. unfold update_step, advance_particle.
    cbn [fst snd trailPositions set_trailPositions].
    rewrite list_lookup_insert_eq by exact Hn. cbn [default from_option id].
    assert (particle_at
              (default (new_Float32Array 0)
                 (<[next := b]> (trailPositions s) !! current)) n
            = particle_at a0 n) as ->.
    { destruct (decide (current = next)) as [->|Hne].
      - rewrite list_lookup_insert_eq by exact Hn. cbn [default from_option id].
        assert (a0 = b0) as -> by congruence.
        unfold particle_at, f32_get. rewrite !Htail by lia. reflexivity.
      - rewrite list_lookup_insert_ne, Ha by auto. reflexivity. }
    change (next_position Math_random (set_trailPositions ?r s) dt)
      with (next_position Math_random s dt).
    destruct (next_position _ _ _ _ _) as [[[vx vy] vz] c'].
    cbn [fst snd]. rewrite list_insert_insert_eq. reflexivity.
Qed.

Lemma advance_config (x y : ParticleSystem) (dt : float) (a0 b0 : list float)
    (c n : nat) :
  currentAttractor x = currentAttractor y -> currentParams x = currentParams y ->
  loop n (advance_particle Math_random x dt a0) (b0, c)
  = loop n (advance_particle Math_random y dt a0) (b0, c).
Proof.
  intros Ha Hp. apply loop_ext. intros i bc _.
  unfold advance_particle, next_position. rewrite Ha, Hp. reflexivity.
Qed.

(** [update] in closed form, on a well-formed engine with a ring. *)
Lemma update_closed (s : ParticleSystem) (speed : float) (c k : nat)
    (a0 b0 : list float) :
  well_formed s -> trailIndex s = Some k -> k < trailLength s ->
  let k' := (k + trailLength s - 1) mod trailLength s in
  let dt := (dt (currentAttractor s) * speed)%float in
  let bc := loop (particleCount s) (advance_particle Math_random s dt a0) (b0, c) in
  trailPositions s !! k = Some a0 ->
  trailPositions s !! k' = Some b0 ->
  update Math_random speed s c
  = Returns (repack (set_trailIndex (Some k')
                       (set_trailPositions (<[k' := fst bc]> (trailPositions s)) s)),
             snd bc) /\
  well_formed (set_trailIndex (Some k')
                 (set_trailPositions (<[k' := fst bc]> (trailPositions s)) s)).
Proof.
  intros Hwf Hk Hlt k' dt0 bc Ha0 Hb0.
  pose proof Hwf as (Hp & Hc & Hs & Hl & Hall & Hi).
  assert (k' < trailLength s) as Hk' by (apply Nat.mod_upper_bound; lia).
  assert (length b0 = particleCount s * 3) as Hb0len
    by (eapply (proj1 (Forall_lookup _ _) Hall); exact Hb0).
  assert (well_formed (set_trailIndex (Some k')
            (set_trailPositions (<[k' := fst bc]> (trailPositions s)) s))) as Hwf'.
  { unfold well_formed. fields. rewrite length_insert.
    repeat split; try assumption.
    - apply Forall_insert; [exact Hall |]. unfold bc. rewrite advance_length.
      exact Hb0len.
    - intros _. exists k'. auto. }
  split; [| exact Hwf'].
  unfold update. rewrite Hk. cbn [index_add index_sub js_rem].
  destruct (Nat.eqb_spec (trailLength s) 0) as [E0|_]; [lia |].
  fold k'. fold dt0. unfold mbind, M_bind.
  rewrite update_loop_returns by lia.
  rewrite (update_loop_closed s dt0 k k' c a0 b0 _ Ha0 Hb0). fold bc.
  unfold lift. rewrite updateBuffers_repack; [reflexivity |].
  apply well_formed_fit, Hwf'.
Qed.

(** Engines with the same sizes, colours and field, and the same trails
    from the ring index on, are repacked alike, whatever their buffers held
    before. *)
Lemma repack_rotation (x y : ParticleSystem) :
  particleCount x = particleCount y -> trailLength x = trailLength y ->
  colorStart x = colorStart y -> colorEnd x = colorEnd y ->
  currentAttractor x = currentAttractor y -> currentParams x = currentParams y ->
  well_formed x -> well_formed y ->
  (forall t, t < trailLength x -> ring_slot x t = ring_slot y t) ->
  same_trails (repack x) (repack y).
Proof.
  intros HP HT Hcs Hce Ha Hpa Hwx Hwy Hring.
  assert (positions (repack x) = positions (repack y)) as Epos.
  { fields. rewrite <- HP, <- HT. apply tabulate_ext. intros m Hm.
    unfold position_cell. rewrite <- HT, <- Ha, Hring; [reflexivity |].
    apply Nat.mod_upper_bound. intros E. rewrite E in Hm. lia. }
  assert (colors (repack x) = colors (repack y)) as Ecol.
  { fields. rewrite <- HP, <- HT. apply tabulate_ext. intros m _.
    unfold color_cell, trail_color. rewrite HT, Hcs, Hce. reflexivity. }
  assert (sizes (repack x) = sizes (repack y)) as Esz.
  { fields. rewrite <- HP, <- HT. apply tabulate_ext. intros m _.
    unfold size_cell, trail_size. rewrite HT. reflexivity. }
  unfold same_trails. splits; try assumption.
  - apply repack_well_formed, Hwx.
  - apply repack_well_formed, Hwy.
Qed.

Lemma repack_same_trails (x y : ParticleSystem) :
  same_trails x y -> same_trails (repack x) (repack y).
Proof.
  intros (_ & _ & _ & HP & HT & Hcs & Hce & Ha & Hpa & Hwx & Hwy & Hring).
  apply repack_rotation; assumption.
Qed.

(** A reseeded ring shows the same trails whatever its index. *)
Lemma seeded_same_trails (x y : ParticleSystem) (c : nat) :
  particleCount x = particleCount y -> trailLength x = trailLength y ->
  colorStart x = colorStart y -> colorEnd x = colorEnd y ->
  currentAttractor x = currentAttractor y -> currentParams x = currentParams y ->
  well_formed x -> well_formed y ->
  same_trails (repack (set_trailPositions (seeded_ring Math_random x c) x))
    (repack (set_trailPositions (seeded_ring Math_random y c) y)).
Proof.
  intros HP HT Hcs Hce Ha Hpa Hwx Hwy.
  apply repack_rotation; try assumption; try (apply seeded_well_formed; assumption).
  fields. intros t Ht.
  destruct Hwx as (_ & _ & _ & _ & _ & Hix). destruct Hix as (k1 & Hk1 & _); [lia |].
  destruct Hwy as (_ & _ & _ & _ & _ & Hiy). destruct Hiy as (k2 & Hk2 & _); [lia |].
  rewrite (ring_slot_index _ k1 t), (ring_slot_index _ k2 t)
    by (fields; first [assumption | lia]).
  fields. unfold seeded_ring. rewrite <- HT, <- HP, <- Ha.
  rewrite !lookup_replicate_2 by (apply Nat.mod_upper_bound; lia).
  reflexivity.
Qed.

Lemma update_same_trails (x y : ParticleSystem) (speed : float) (c : nat) :
  same_trails x y ->
  same_outcome (fun r1 r2 => same_trails (fst r1) (fst r2) /\ snd r1 = snd r2)
    (update Math_random speed x c) (update Math_random speed y c).
Proof.
  intros Hsame.
  pose proof Hsame
    as (Hpos & Hcol & Hsz & HP & HT & Hcs & Hce & Ha & Hpa & Hwx & Hwy & Hring).
  destruct (Nat.eq_dec (trailLength x) 0) as [E0|N0].
  - (* no ring *)
    assert (trailPositions x = []) as Hrx
      by (apply length_zero_iff_nil; destruct Hwx as (_ & _ & _ & H & _); lia).
    assert (trailPositions y = []) as Hry
      by (apply length_zero_iff_nil; destruct Hwy as (_ & _ & _ & H & _); lia).
    destruct (Nat.eq_dec (particleCount x) 0) as [P0|NP].
    + unfold update, mbind, M_bind. rewrite <- HP, P0.
      cbn [for_loop mret M_ret]. unfold updateBuffers, lift. fields.
      rewrite <- HP, P0. cbn [for_loop mret outcome_ret].
      cbn [same_outcome fst snd]. split; [| reflexivity].
      unfold same_trails. fields. rewrite <- HT, E0.
      splits; try assumption; try reflexivity; try (intros t Ht; lia).
      * destruct Hwx as (H1 & H2 & H3 & H4 & H5 & _).
        unfold well_formed. fields. repeat split; try assumption. intros; lia.
      * destruct Hwy as (H1 & H2 & H3 & H4 & H5 & _).
        unfold well_formed. fields. repeat split; try assumption. intros; lia.
    + rewrite !update_empty_ring by (auto; lia). cbn. auto.
  - destruct Hwx as (_ & _ & _ & Hlx & _ & Hix).
    destruct Hwy as (_ & _ & _ & Hly & _ & Hiy).
    destruct Hix as (k1 & Hk1 & Hlt1); [lia |].
    destruct Hiy as (k2 & Hk2 & Hlt2); [lia |].
    set (n := trailLength x) in *.
    assert (trailLength y = n) as HTy by (symmetry; exact HT).
    rewrite HTy in Hlt2.
    set (k1' := (k1 + n - 1) mod n). set (k2' := (k2 + n - 1) mod n).
    assert (k1' < n) as Hk1' by (apply Nat.mod_upper_bound; lia).
    assert (k2' < n) as Hk2' by (apply Nat.mod_upper_bound; lia).
    destruct (lookup_lt_is_Some_2 (trailPositions x) k1) as [a0 Ha0]; [lia |].
    destruct (lookup_lt_is_Some_2 (trailPositions x) k1') as [b0 Hb0]; [lia |].
    (* the same two arrays in [y] *)
    assert (forall t, t < n ->
              trailPositions x !! ((k1 + t) mod n) = trailPositions y !! ((k2 + t) mod n))
      as Hslots.
    { intros t Ht. pose proof (Hring t Ht) as H.
      rewrite (ring_slot_index x k1 t Hk1), (ring_slot_index y k2 t Hk2) in H by lia.
      fold n in H. rewrite HTy in H. exact H. }
    assert (trailPositions y !! k2 = Some a0) as Ha0'.
    { pose proof (Hslots 0) as H. rewrite !Nat.add_0_r, !Nat.mod_small in H by lia.
      rewrite <- H by lia. exact Ha0. }
    assert (trailPositions y !! k2' = Some b0) as Hb0'.
    { pose proof (Hslots (n - 1)) as H.
      replace (k1 + (n - 1)) with (k1 + n - 1) in H by lia.
      replace (k2 + (n - 1)) with (k2 + n - 1) in H by lia.
      fold k1' k2' in H. rewrite <- H by lia. exact Hb0. }
    destruct (update_closed x speed c k1 a0 b0 (proj1 (proj2 (proj2 (proj2 (proj2
                (proj2 (proj2 (proj2 (proj2 (proj2 Hsame)))))))))) Hk1 Hlt1 Ha0 Hb0)
      as [Ex Hwx'].
    destruct (update_closed y speed c k2 a0 b0 (proj1 (proj2 (proj2 (proj2 (proj2
                (proj2 (proj2 (proj2 (proj2 (proj2 (proj2 Hsame))))))))))) Hk2)
      as [Ey Hwy']; [lia | exact Ha0' | rewrite HTy; exact Hb0' |].
    rewrite Ex, Ey. fold n. rewrite HTy. fold k1' k2'.
    rewrite <- Ha, <- HP.
    rewrite <- (advance_config x y _ a0 b0 c (particleCount x) Ha Hpa).
    set (bc := loop (particleCount x)
                 (advance_particle Math_random x
                    (dt (currentAttractor x) * speed)%float a0) (b0, c)) in *.
    cbn [same_outcome fst snd]. split; [| reflexivity].
    apply repack_same_trails.
    fold n in Hwx'. fold k1' in Hwx'.
    rewrite HTy in Hwy'. fold k2' in Hwy'.
    rewrite <- Ha, <- HP in Hwy'.
    rewrite <- (advance_config x y _ a0 b0 c (particleCount x) Ha Hpa) in Hwy'.
    fold bc in Hwy'.
    unfold same_trails. fields.
    splits; try assumption.
    intros t Ht. fold n in Ht.
    rewrite (ring_slot_index _ k1' t), (ring_slot_index _ k2' t)
      by (fields; first [reflexivity | lia]).
    fields. fold n. rewrite HTy.
    destruct (Nat.eq_dec t 0) as [->|Nt].
    + rewrite !Nat.add_0_r, !Nat.mod_small by lia.
      rewrite !list_lookup_insert_eq by lia. reflexivity.
    + destruct (ring_walk k1 n t Hlt1) as [W1 N1]; [lia |].
      destruct (ring_walk k2 n t Hlt2) as [W2 N2]; [lia |].
      fold k1' in W1, N1. fold k2' in W2, N2.
      rewrite !list_lookup_insert_ne by auto.
      rewrite W1, W2. apply Hslots. lia.
Qed.

Lemma setAttractor_same_trails (x y : ParticleSystem) (f : Attractor) :
  same_trails x y ->
  same_run same_trails (setAttractor Math_random f x) (setAttractor Math_random f y).
Proof.
  intros (_ & _ & _ & HP & HT & Hcs & Hce & _ & _ & Hwx & Hwy & _) c.
  unfold setAttractor.
  rewrite !initializeParticles_seeded by assumption. fields.
  cbn [same_outcome fst snd]. split; [| rewrite HP; reflexivity].
  apply seeded_same_trails; first [assumption | reflexivity].
Qed.

Lemma exec_same_trails (cl : call) (x y : ParticleSystem) :
  same_trails x y ->
  same_run same_trails (exec Math_random cl x) (exec Math_random cl y).
Proof.
  intros H. destruct cl as [speed|f|p|c1 c2|]; cbn [exec].
  - intros c. apply update_same_trails, H.
  - apply setAttractor_same_trails, H.
  - intros c. cbn [mret M_ret same_outcome fst snd]. split; [| reflexivity].
    destruct H as (? & ? & ? & ? & ? & ? & ? & ? & ? & ? & ? & ?).
    unfold same_trails. splits; first [assumption | reflexivity].
  - intros c. cbn [mret M_ret same_outcome fst snd]. split; [| reflexivity].
    destruct H as (? & ? & ? & ? & ? & ? & ? & ? & ? & ? & ? & ?).
    unfold same_trails. splits; first [assumption | reflexivity].
  - intros c. cbn [mret M_ret same_outcome fst snd]. split; [| reflexivity].
    destruct H as (? & ? & ? & ? & ? & ? & ? & ? & ? & ? & ? & ?).
    unfold same_trails. splits; first [assumption | reflexivity].
Qed.

(** Engines that show the same trails go on showing the same trails,
    through every sequence of calls: both raise, or both return, with
    equally many random numbers drawn. *)
Lemma run_same_trails (cs : list call) (x y : ParticleSystem) :
  same_trails x y ->
  same_run same_trails (run Math_random cs x) (run Math_random cs y).
Proof.
  revert x y. induction cs as [|cl cs IH]; intros x y H; cbn [run].
  - intros c. cbn [mret M_ret same_outcome fst snd]. auto.
  - eapply same_run_bind; [apply exec_same_trails, H |]. exact IH.
Qed.
End Rotation.

(** * The properties of the specification *)

(** ** The catalog *)

(** C5.  The [attractors] table has exactly the eight rows of the
    specification's catalog table, in its order; each entry has the row's
    default parameters, dt and scale, and its step function is, for all
    numbers [x], [y], [z], all parameters and every time step, the explicit
    Euler step [(x + dx*dt, y + dy*dt, z + dz*dt)] of the row's equations. *)
Theorem catalog_matches_table (Math_sin : float -> float) :
  Forall2 matches_row (catalog_table Math_sin) (attractors Math_sin).
Proof.
  unfold catalog_table, attractors.
  repeat (apply List.Forall2_cons; [unfold matches_row; cbn; repeat split |]).
  apply List.Forall2_nil.
Qed.

(** C9, as the code has it.  The lookup of each of the eight identifiers
    returns its descriptor; for every other identifier (a case variant, a
    prefix, anything else) the lookup raises nothing and yields no
    descriptor: it yields [undefined], or for a name of [Object.prototype]
    the member inherited under that name. *)
Theorem catalog_lookup (Math_sin : float -> float) :
  get Math_sin "lorenz" = Returns (Descriptor lorenz) /\
  get Math_sin "thomas" = Returns (Descriptor (thomas Math_sin)) /\
  get Math_sin "dadras" = Returns (Descriptor dadras) /\
  get Math_sin "rossler" = Returns (Descriptor rossler) /\
  get Math_sin "aizawa" = Returns (Descriptor aizawa) /\
  get Math_sin "chen" = Returns (Descriptor chen) /\
  get Math_sin "halvorsen" = Returns (Descriptor halvorsen) /\
  get Math_sin "sprott" = Returns (Descriptor sprott) /\
  forall identifier,
    In identifier (attractorNames Math_sin) \/
    In identifier Object_prototype /\
    get Math_sin identifier = Returns (Inherited identifier) \/
    ~ In identifier Object_prototype /\
    get Math_sin identifier = Returns Undefined.
Proof.
  repeat (split; [reflexivity |]).
  intros identifier. unfold get, lookup, attractors, attractorNames.
  cbn [own_property map fst].
  repeat match goal with
  | |- context [String.eqb ?k identifier] =>
      destruct (String.eqb_spec k identifier) as [<-|_];
      [left; cbn; tauto |]
  end.
  right. unfold inherits. destruct (existsb (String.eqb identifier) Object_prototype) eqn:E.
  - left. split; [| reflexivity].
    apply existsb_exists in E as (k & Hin & Hk).
    apply String.eqb_eq in Hk. subst k. exact Hin.
  - right. split; [| reflexivity].
    intros Hin. apply not_true_iff_false in E. apply E.
    apply existsb_exists. exists identifier. split; [exact Hin | apply String.eqb_refl].
Qed.

(** C9 as stated fails: the case variant ["Lorenz"] of an identifier is not
    in the catalog, and its lookup does not fail with UnknownFieldError: it
    yields [undefined].  Nor does the lookup of ["toString"], which yields
    the function of that name of [Object.prototype]. *)
Lemma catalog_lookup_counterexample :
  ~ In "Lorenz"%string (attractorNames (fun x => x)) /\
  get (fun x => x) "Lorenz" <> Throws UnknownFieldError /\
  get (fun x => x) "Lorenz" = Returns Undefined /\
  ~ In "toString"%string (attractorNames (fun x => x)) /\
  get (fun x => x) "toString" = Returns (Inherited "toString").
Proof.
  splits.
  - cbn. intros H. repeat (destruct H as [H|H]; [discriminate H |]). exact H.
  - discriminate.
  - reflexivity.
  - cbn. intros H. repeat (destruct H as [H|H]; [discriminate H |]). exact H.
  - reflexivity.
Qed.

(** ** Construction and disposal *)

(** C3, as the code has it.  The constructor checks no size and raises
    nothing: for all natural [particleCount] and [trailLength], zero
    included, it returns an engine of [particleCount * trailLength] points
    whose buffers have the sizes to match, after three calls of
    [Math.random] for each particle. *)
Theorem construct_succeeds (Math_random : nat -> float) (attractor : Attractor)
    (o : Options.ParticleSystemOptions) (c : nat) :
  exists s,
    construct Math_random attractor o c
    = Returns (s, c + Options.particleCount o * 3) /\
    getParticleCount s = Options.particleCount o * Options.trailLength o /\
    length (positions s) = getParticleCount s * 3 /\
    length (colors s) = getParticleCount s * 3 /\
    length (sizes s) = getParticleCount s /\
    length (trailPositions s) = Options.trailLength o /\
    trailIndex s = Some 0.
Proof.
  eexists. split; [apply construct_seeded |].
  fields. rewrite !tabulate_length.
  unfold seeded_ring. rewrite length_replicate. repeat split.
Qed.

(** C3 as stated fails: with [particleCount = 0] and [trailLength = 0] the
    constructor does not raise InvalidConfigurationError; it returns an
    engine with empty buffers.  So it does with only one of the two at 0. *)
Lemma construct_counterexample :
  construct draws_centre lorenz (options 0 0) 0 <> Throws InvalidConfigurationError /\
  (exists s, construct draws_centre lorenz (options 0 0) 0 = Returns (s, 0) /\
             positions s = [] /\ trailPositions s = []) /\
  (exists s, construct draws_centre lorenz (options 0 5) 0 = Returns (s, 0) /\
             getParticleCount s = 0) /\
  (exists s, construct draws_centre lorenz (options 5 0) 0 = Returns (s, 15) /\
             getParticleCount s = 0).
Proof.
  split; [discriminate |].
  repeat split; eexists; (split; [vm_compute; reflexivity |]); repeat split.
Qed.

(** C8, as the code has it.  [dispose()] marks the geometry and the
    material as released and nothing reads the mark: a call on a disposed
    engine ends as the same call on the live engine does (both return, the
    results differing by the mark only and after equally many draws, or
    both raise a TypeError), the point count is unchanged, and no call
    raises UseAfterDisposeError. *)
Theorem dispose_is_not_checked (Math_random : nat -> float) (cl : call)
    (s : ParticleSystem) (c : nat) :
  same_outcome (fun r1 r2 => fst r1 = dispose (fst r2) /\ snd r1 = snd r2)
    (exec Math_random cl (dispose s) c) (exec Math_random cl s c) /\
  getParticleCount (dispose s) = getParticleCount s /\
  exec Math_random cl (dispose s) c <> Throws UseAfterDisposeError /\
  exec Math_random cl s c <> Throws UseAfterDisposeError.
Proof.
  pose proof (exec_disposed Math_random cl (dispose s) s eq_refl c) as H.
  split; [exact H |]. split; [reflexivity |].
  destruct (exec Math_random cl (dispose s) c) as [r1|e1],
           (exec Math_random cl s c) as [r2|e2]; simpl in H;
    try contradiction; try (split; discriminate).
  destruct H as [-> ->]. split; discriminate.
Qed.

(** C8 as stated fails: on a Lorenz engine of one particle, [update(1)]
    and a second [dispose()] after [dispose()] return normally. *)
Lemma dispose_counterexample :
  session draws_centre lorenz (options 1 1) [Dispose; Update 1%float; Dispose] 0
    <> Throws UseAfterDisposeError /\
  exists s, session draws_centre lorenz (options 1 1)
              [Dispose; Update 1%float; Dispose] 0 = Returns (s, 3) /\
            geometry s = THREE.Disposed /\
            getParticleCount s = 1.
Proof.
  split; [vm_compute; discriminate |].
  eexists. split; [vm_compute; reflexivity |]. split; reflexivity.
Qed.

(** ** The concrete scenario *)

Lemma three_cells (b : list float) (v : float * float * float) :
  length b = 3 -> holds_particle b 0 v ->
  b = [fround (fst (fst v)); fround (snd (fst v)); fround (snd v)].
Proof.
  intros Hlen (H0 & H1 & H2).
  destruct b as [|b0 [|b1 [|b2 [|b3 b]]]]; try discriminate Hlen.
  cbn in H0, H1, H2. congruence.
Qed.

(** C4.  A Lorenz engine of one particle and one trail slot, seeded at
    (1, 1, 26), with the default parameters: [update(1)] uses dt = 0.005,
    the step from (1, 1, 26) is
    [(1 + 0*0.005, 1 + 1*0.005, 26 + (1 - (8/3)*26)*0.005)], the ring slot
    receives its rounding to binary32, and both are within 0.0005 of
    (1.000, 1.005, 25.658). *)
Theorem lorenz_first_step (Math_random : nat -> float)
    (colorStart colorEnd : THREE.Color) (c0 c : nat) (s : ParticleSystem) :
  construct Math_random lorenz
    {| Options.particleCount := 1; Options.trailLength := 1;
       Options.colorStart := colorStart; Options.colorEnd := colorEnd |} c0
  = Returns (s, c) ->
  trailPositions s = [[1; 1; 26]]%float ->
  currentParams s = [("sigma", 10); ("rho", 28); ("beta", 8 / 3)]%string%float /\
  (dt (currentAttractor s) * 1 = 0.005)%float /\
  step (currentAttractor s) 1 1 26 (currentParams s) (dt (currentAttractor s) * 1)
  = (1 + 0 * 0.005, 1 + 1 * 0.005, 26 + (1 - 8 / 3 * 26) * 0.005)%float /\
  (exists s' c',
     update Math_random 1 s c = Returns (s', c') /\
     trailPositions s'
     = [[fround (1 + 0 * 0.005); fround (1 + 1 * 0.005);
         fround (26 + (1 - 8 / 3 * 26) * 0.005)]]%float) /\
  (abs (1 + 0 * 0.005 - 1.000) <? 0.0005)%float = true /\
  (abs (1 + 1 * 0.005 - 1.005) <? 0.0005)%float = true /\
  (abs (26 + (1 - 8 / 3 * 26) * 0.005 - 25.658) <? 0.0005)%float = true /\
  (abs (fround (1 + 0 * 0.005) - 1.000) <? 0.0005)%float = true /\
  (abs (fround (1 + 1 * 0.005) - 1.005) <? 0.0005)%float = true /\
  (abs (fround (26 + (1 - 8 / 3 * 26) * 0.005) - 25.658) <? 0.0005)%float = true.
Proof.
  intros Hc Hring.
  pose proof (construct_invariant _ _ _ _ _ _ Hc) as (Hwf & HP & HT & _).
  assert (currentAttractor s = lorenz /\ currentParams s = params lorenz /\
          trailIndex s = Some 0) as (Ha & Hp & Hi).
  { rewrite construct_seeded in Hc. injection Hc as <- _. repeat split. }
  cbn in HP, HT.
  rewrite Ha, Hp.
  split; [reflexivity |]. split; [reflexivity |]. split; [reflexivity |].
  split; [| repeat split].
  destruct (update_advanced Math_random s 1 c 0 [1; 1; 26]%float Hwf Hi)
    as (ring & b & c' & E & Hwf' & _ & _ & Hb & Hpart).
  { lia. }
  { rewrite Hring. reflexivity. }
  exists (repack (set_trailIndex (Some ((0 + trailLength s - 1) mod trailLength s))
                    (set_trailPositions ring s))), c'.
  split; [exact E |]. fields.
  destruct Hwf' as (_ & _ & _ & Hl & Hall & _). revert Hl Hall. fields.
  rewrite HT, HP. intros Hl Hall.
  rewrite HT in Hb. change ((0 + 1 - 1) mod 1) with 0 in Hb.
  destruct (Hpart 0) as (ci & _ & Hholds); [lia |].
  assert (length b = 3) as Hlen
    by (apply (proj1 (Forall_lookup _ _) Hall 0 b Hb)).
  destruct ring as [|r0 [|r1 ring]]; try discriminate Hl.
  cbn in Hb. injection Hb as ->. rewrite (three_cells b _ Hlen Hholds).
  unfold next_position. rewrite Ha, Hp.
  vm_compute. reflexivity.
Qed.

(** The draws 5/6 seed the particle at (1, 1, 26). *)
Lemma lorenz_first_step_witness :
  exists s,
    construct draws_lorenz lorenz (options 1 1) 0 = Returns (s, 3) /\
    trailPositions s = [[1; 1; 26]]%float /\
    exists s' c',
      update draws_lorenz 1 s 3 = Returns (s', c') /\
      trailPositions s'
      = [[1; 1.0049999952316284; 25.658332824707031]]%float.
Proof.
  eexists. split; [vm_compute; reflexivity |]. split; [reflexivity |].
  edestruct (lorenz_first_step draws_lorenz red blue 0 3)
    as (_ & _ & _ & (s' & c' & E & Hr) & _).
  - vm_compute. reflexivity.
  - reflexivity.
  - exists s', c'. split; [exact E |]. rewrite Hr. vm_compute. reflexivity.
Defined.

(** ** Divergence *)

(** C1 fails on the code.  A Halvorsen engine of one particle, seeded at the
    centre (0, 0, 25) of its cube, everything at its default: after 29 calls
    of [update(1)] the step from the stored position is finite in binary64,
    so the check of [update] passes it on; its x exceeds the binary32 range,
    and the 30th call stores an infinity in the ring slot and in the
    renderable position buffer.  No random position was drawn: the engine
    still has made the three draws of its construction only. *)
Theorem divergence_reaches_buffer :
  exists s29 s30 nx ny nz,
    session draws_centre halvorsen (options 1 1) (replicate 29 (Update 1%float)) 0
    = Returns (s29, 3) /\
    trailPositions s29 !! 0 ≫= (fun a => Some (particle_at a 0))
    = Some (-3.5021024243363086e+19, -6.1999662768874901e+20,
            -7.9388178797798883e+19)%float /\
    step (currentAttractor s29) (-3.5021024243363086e+19)
      (-6.1999662768874901e+20) (-7.9388178797798883e+19)
      (currentParams s29) (dt (currentAttractor s29) * 1)
    = (nx, ny, nz) /\
    isFinite nx && isFinite ny && isFinite nz = true /\
    fround nx = neg_infinity /\
    update draws_centre 1 s29 3 = Returns (s30, 3) /\
    session draws_centre halvorsen (options 1 1) (replicate 30 (Update 1%float)) 0
    = Returns (s30, 3) /\
    trailPositions s30 !! 0 ≫= (fun a => a !! 0) = Some neg_infinity /\
    positions s30 !! 0 = Some neg_infinity /\
    isFinite neg_infinity = false.
Proof.
  do 5 eexists.
  split; [vm_compute; reflexivity |].
  split; [vm_compute; reflexivity |].
  split; [vm_compute; reflexivity |].
  split; [vm_compute; reflexivity |].
  split; [vm_compute; reflexivity |].
  split; [vm_compute; reflexivity |].
  split; [vm_compute; reflexivity |].
  repeat split.
Qed.

(** Once stored, the infinity stays in the ring for [trailLength] calls: with
    two trail slots, the 31st call finds a non-finite step and draws a new
    position for the slot it writes, while the other slot and the position
    buffer still hold the infinity. *)
Lemma divergence_stays :
  exists s,
    session draws_centre halvorsen (options 1 2) (replicate 31 (Update 1%float)) 0
    = Returns (s, 6) /\
    trailIndex s = Some 1 /\
    trailPositions s !! 1 = Some [0; 0; 25]%float /\
    trailPositions s !! 0 ≫= (fun a => a !! 0) = Some neg_infinity /\
    positions s !! 3 = Some neg_infinity.
Proof.
  eexists. split; [vm_compute; reflexivity |]. repeat split.
Qed.

(** The same in one call, with the speed as the large number: a Lorenz
    particle at (0, 0, 25) and [update(1e40)].  The step is
    [(0, 0, 25 - (8/3) * 25 * 5e37)], finite in binary64; the ring slot and
    the position buffer receive an infinity. *)
Lemma overflow_in_one_call :
  exists s,
    session draws_centre lorenz (options 1 1) [Update 1e40%float] 0 = Returns (s, 3) /\
    step lorenz 0 0 25 (params lorenz) (dt lorenz * 1e40)
    = (0, 0, -3.333333333333333e+39)%float /\
    isFinite (-3.333333333333333e+39) = true /\
    trailPositions s = [[0; 0; neg_infinity]]%float /\
    positions s = [0; 0; neg_infinity]%float.
Proof.
  eexists. split; [vm_compute; reflexivity |]. repeat split.
Qed.

(** What does hold of C1: whenever the step of a particle is not finite,
    the position [update] stores for it is a fresh sample of the cube of
    half-width [scale] centred at (0, 0, 25), built from the next three
    draws. *)
Lemma non_finite_step_is_resampled (Math_random : nat -> float)
    (s : ParticleSystem) (dt : float) (x y z : float) (c : nat) :
  (let '(nx, ny, nz) := step (currentAttractor s) x y z (currentParams s) dt in
   isFinite nx && isFinite ny && isFinite nz) = false ->
  next_position Math_random s dt (x, y, z) c
  = (((Math_random c - 0.5) * 2 * scale (currentAttractor s))%float,
     ((Math_random (S c) - 0.5) * 2 * scale (currentAttractor s))%float,
     ((Math_random (S (S c)) - 0.5) * 2 * scale (currentAttractor s) + 25)%float,
     S (S (S c))).
Proof.
  unfold next_position.
  destruct (step (currentAttractor s) x y z (currentParams s) dt) as [[nx ny] nz].
  destruct (isFinite nx), (isFinite ny), (isFinite nz); simpl;
    intros H; try discriminate H; reflexivity.
Qed.

(** ** Point sizes *)

(** C7, as the code has it.  In every engine a driver can reach, the size
    of trail slot [t] of every particle is the binary32 rounding of
    [2.5 * (1 - t / trailLength * 0.7)]: the base size 2.5 shrunk by 0.7
    times the fraction [t / trailLength], where slot 0 is the largest and
    the last slot, [t = trailLength - 1], has the fraction
    [(trailLength - 1) / trailLength]. *)
Theorem point_sizes (Math_random : nat -> float) (attractor : Attractor)
    (o : Options.ParticleSystemOptions) (cs : list call) (c0 c : nat)
    (s : ParticleSystem) (i t : nat) :
  session Math_random attractor o cs c0 = Returns (s, c) ->
  i < particleCount s -> t < trailLength s ->
  sizes s !! (i * trailLength s + t)
  = Some (fround (2.5 * (1 - float_of_nat t / float_of_nat (trailLength s) * 0.7))).
Proof.
  intros Hs Hi Ht.
  destruct (session_invariant _ _ _ _ _ _ _ Hs) as (_ & _ & _ & ->).
  rewrite tabulate_lookup by nia.
  rewrite size_cell_at by exact Ht. reflexivity.
Qed.

Lemma point_sizes_witness :
  exists s,
    session draws_centre lorenz (options 2 3) [Update 1%float] 0 = Returns (s, 6) /\
    sizes s !! (1 * trailLength s + 2) = Some 1.3333333730697632%float.
Proof.
  eexists. split; [vm_compute; reflexivity |].
  rewrite (point_sizes draws_centre lorenz (options 2 3) [Update 1%float] 0 6 _ 1 2).
  - vm_compute. reflexivity.
  - vm_compute. reflexivity.
  - vm_compute. lia.
  - vm_compute. lia.
Defined.

(** C7 as stated fails: 30% of the base size 2.5 is 0.75, and with two trail
    slots the sizes are 2.5 and 1.625; with one slot, the only slot (the
    oldest as well as the newest) has size 2.5. *)
Lemma point_sizes_counterexample :
  (2.5 * 0.3 = 0.75)%float /\
  (exists s, construct draws_centre lorenz (options 1 2) 0 = Returns (s, 3) /\
             sizes s = [2.5; 1.625]%float /\
             (1.625 =? 0.75)%float = false /\ (2.5 =? 0.75)%float = false) /\
  (exists s, construct draws_centre lorenz (options 1 1) 0 = Returns (s, 3) /\
             sizes s = [2.5]%float).
Proof.
  split; [reflexivity |].
  split; eexists; (split; [vm_compute; reflexivity |]); repeat split.
Qed.

(** ** The ring index *)

Section RingIndex.
Variable Math_random : nat -> float.

Lemma invariant_index (o : Options.ParticleSystemOptions) (s : ParticleSystem) :
  engine_invariant o s -> 1 <= Options.trailLength o ->
  exists k a, trailIndex s = Some k /\ k < trailLength s /\
              trailPositions s !! k = Some a.
Proof.
  intros (Hwf & _ & HT & _) H1.
  destruct Hwf as (_ & _ & _ & Hl & _ & Hi).
  destruct Hi as (k & Hk & Hlt); [lia |].
  destruct (lookup_lt_is_Some_2 (trailPositions s) k) as [a Ha]; [lia |].
  eauto.
Qed.

(** One advance on a reachable engine with a ring. *)
Lemma update_index (o : Options.ParticleSystemOptions) (s : ParticleSystem)
    (speed : float) (c k : nat) :
  engine_invariant o s -> 1 <= Options.trailLength o -> trailIndex s = Some k ->
  exists s' c',
    update Math_random speed s c = Returns (s', c') /\
    engine_invariant o s' /\
    trailIndex s' = Some ((k + trailLength s - 1) mod trailLength s).
Proof.
  intros Hinv H1 Hk.
  destruct (invariant_index o s Hinv H1) as (k0 & a & Hk0 & Hlt & Ha).
  assert (k0 = k) as -> by congruence.
  destruct Hinv as (Hwf & HP & HT & Hsz).
  destruct (update_advanced Math_random s speed c k a Hwf Hk Hlt Ha)
    as (ring & b & c' & E & Hwf' & _).
  eexists _, c'. split; [exact E |]. split; [| reflexivity].
  eapply update_invariant; [| exact E].
  exact (conj Hwf (conj HP (conj HT Hsz))).
Qed.

(** [n] advances in a row move the index [n] slots back round the ring. *)
Lemma updates_index (o : Options.ParticleSystemOptions) (speeds : list float) :
  1 <= Options.trailLength o ->
  forall (s : ParticleSystem) (c k : nat),
    engine_invariant o s -> trailIndex s = Some k ->
    exists s' c',
      run Math_random (Update <$> speeds) s c = Returns (s', c') /\
      trailIndex s'
      = Some ((k + length speeds * (Options.trailLength o - 1))
              mod Options.trailLength o).
Proof.
  intros H1. induction speeds as [|speed speeds IH]; intros s c k Hinv Hk.
  - exists s, c. split; [reflexivity |].
    destruct (invariant_index o s Hinv H1) as (k0 & a & Hk0 & Hlt & _).
    destruct Hinv as (_ & _ & HT & _).
    cbn [length]. rewrite Nat.mul_0_l, Nat.add_0_r, Nat.mod_small; [exact Hk |].
    rewrite <- HT. congruence.
  - destruct (update_index o s speed c k Hinv H1 Hk) as (s1 & c1 & E & Hinv1 & Hk1).
    destruct (IH s1 c1 _ Hinv1 Hk1) as (s' & c' & E' & Hk').
    exists s', c'. split.
    + rewrite fmap_cons. cbn [run exec]. unfold mbind, M_bind. rewrite E. exact E'.
    + rewrite Hk'. f_equal. destruct Hinv as (_ & _ & HT & _). rewrite HT.
      rewrite Nat.Div0.add_mod_idemp_l. f_equal. cbn [length]. lia.
Qed.

(** On an engine with a ring every call returns. *)
Lemma exec_returns (o : Options.ParticleSystemOptions) (s : ParticleSystem)
    (cl : call) (c : nat) :
  engine_invariant o s -> 1 <= Options.trailLength o ->
  exists s' c', exec Math_random cl s c = Returns (s', c').
Proof.
  intros Hinv H1. destruct cl as [speed|f|p|c1 c2|]; cbn [exec].
  - destruct (invariant_index o s Hinv H1) as (k & a & Hk & _).
    destruct (update_index o s speed c k Hinv H1 Hk) as (s' & c' & E & _). eauto.
  - destruct Hinv as (Hwf & _). unfold setAttractor.
    rewrite initializeParticles_seeded by exact Hwf. eauto.
  - eexists _, _. reflexivity.
  - eexists _, _. reflexivity.
  - eexists _, _. reflexivity.
Qed.

(** C10, as the code has it.  With a ring of at least one slot:
    construction sets the index to 0; in every engine a driver can reach
    the index is a slot of the ring;
    [setAttractor], [setParams] and [setColors] leave it as it is; [update]
    maps it to [(trailIndex + trailLength - 1) mod trailLength]; and after
    [trailLength] calls of [update] in a row it is back at its value. *)
Theorem trail_index_cycles (attractor : Attractor)
    (o : Options.ParticleSystemOptions) (cs : list call) (c0 c : nat)
    (s : ParticleSystem) :
  1 <= Options.trailLength o ->
  session Math_random attractor o cs c0 = Returns (s, c) ->
  (exists s0 c1, construct Math_random attractor o c0 = Returns (s0, c1) /\
                 trailIndex s0 = Some 0) /\
  trailLength s = Options.trailLength o /\
  exists k,
    trailIndex s = Some k /\ 0 <= k < trailLength s /\
    (forall f, exists s' c',
        setAttractor Math_random f s c = Returns (s', c') /\ trailIndex s' = Some k) /\
    (forall p, trailIndex (setParams p s) = Some k) /\
    (forall c1 c2, trailIndex (setColors c1 c2 s) = Some k) /\
    (forall speed, exists s' c',
        update Math_random speed s c = Returns (s', c') /\
        trailIndex s' = Some ((k + trailLength s - 1) mod trailLength s)) /\
    (forall speeds, length speeds = trailLength s ->
       exists s' c',
         run Math_random (Update <$> speeds) s c = Returns (s', c') /\
         trailIndex s' = Some k).
Proof.
  intros H1 Hs. pose proof (session_invariant _ _ _ _ _ _ _ Hs) as Hinv.
  split.
  { eexists _, _. split; [apply construct_seeded | reflexivity]. }
  destruct (invariant_index o s Hinv H1) as (k & a & Hk & Hlt & Ha).
  pose proof Hinv as (Hwf & HP & HT & Hsz).
  split; [exact HT |]. exists k.
  split; [exact Hk |]. split; [lia |].
  split; [| split; [| split; [| split]]].
  - intros f. unfold setAttractor.
    rewrite initializeParticles_seeded by exact Hwf.
    eexists _, _. split; [reflexivity |]. exact Hk.
  - intros p. exact Hk.
  - intros c1 c2. exact Hk.
  - intros speed.
    destruct (update_index o s speed c k Hinv H1 Hk) as (s' & c' & E & _ & Hk').
    eauto.
  - intros speeds Hlen.
    destruct (updates_index o speeds H1 s c k Hinv Hk) as (s' & c' & E & Hk').
    exists s', c'. split; [exact E |]. rewrite Hk'. f_equal.
    rewrite Hlen, HT. rewrite (Nat.mul_comm (Options.trailLength o)).
    rewrite Nat.Div0.mod_add. apply Nat.mod_small. lia.
Qed.
End RingIndex.

Lemma trail_index_cycles_witness :
  exists s,
    session draws_centre lorenz (options 2 3)
      [Update 1%float; SetColors blue red; Update 0.5%float] 0 = Returns (s, 6) /\
    trailIndex s = Some 1 /\
    exists s' c', update draws_centre 2%float s 6 = Returns (s', c') /\
                  trailIndex s' = Some 0.
Proof.
  eexists. split; [vm_compute; reflexivity |]. split; [reflexivity |].
  edestruct (trail_index_cycles draws_centre lorenz (options 2 3)
               [Update 1%float; SetColors blue red; Update 0.5%float] 0 6)
    as (_ & _ & k & Hk & _ & _ & _ & _ & Hupd & _).
  - cbn. lia.
  - vm_compute. reflexivity.
  - destruct (Hupd 2%float) as (s' & c' & E & Hi).
    exists s', c'. split; [exact E |]. rewrite Hi.
    cbn in Hk. injection Hk as <-. reflexivity.
Defined.

(** C10 as stated fails on an engine without a ring, which the constructor
    makes when it is given a trail length of 0: the index of that engine is
    0, which is not below its trail length; and a call of [update] on it
    (which returns when the engine has no particle) leaves the index NaN,
    the remainder of a division by 0. *)
Lemma trail_index_counterexample :
  exists s s1 s2,
    session draws_centre lorenz (options 2 0) [] 0 = Returns (s, 6) /\
    trailIndex s = Some 0 /\ trailLength s = 0 /\
    ~ (exists k, trailIndex s = Some k /\ 0 <= k < trailLength s) /\
    session draws_centre lorenz (options 0 0) [] 0 = Returns (s1, 0) /\
    trailIndex s1 = Some 0 /\ trailLength s1 = 0 /\
    update draws_centre 1%float s1 0 = Returns (s2, 0) /\
    trailIndex s2 = None.
Proof.
  eexists _, _, _.
  split; [vm_compute; reflexivity |]. split; [reflexivity |].
  split; [reflexivity |].
  split; [intros (k & _ & Hk); cbn in Hk; lia |].
  split; [vm_compute; reflexivity |]. split; [reflexivity |].
  split; [reflexivity |].
  split; [vm_compute; reflexivity | reflexivity].
Qed.

(** ** Switching the field *)

Section Reseeding.
Variable Math_random : nat -> float.

(** On a ring whose slots all hold the array [a], the repacked positions
    do not depend on the ring index. *)
Lemma position_cell_seeded (x : ParticleSystem) (a : list float) (k m : nat) :
  trailPositions x = replicate (trailLength x) a ->
  trailIndex x = Some k ->
  m < particleCount x * trailLength x * 3 ->
  position_cell x m
  = fround (f32_get a (m / 3 / trailLength x * 3 + m mod 3)
            * scale (currentAttractor x)).
Proof.
  intros Hring Hk Hm. unfold position_cell, ring_slot, trail_at.
  rewrite Hk. cbn [index_add js_rem].
  destruct (Nat.eqb_spec (trailLength x) 0) as [E|N]; [rewrite E in Hm; lia |].
  rewrite Hring, lookup_replicate_2 by (apply Nat.mod_upper_bound; exact N).
  reflexivity.
Qed.

(** C6.  On every engine a driver can reach, [setAttractor(f)] raises
    nothing and leaves what the constructor leaves when called with [f] and
    the engine's sizes and colours from the same point of the random source:
    the same point count, ring, position, colour and size buffers, the same
    number of draws, and the parameters of [f].  Every slot of the ring is
    the array of freshly drawn positions, and every cell of the position
    buffer is such a position times the scale of [f].  The ring index, which
    [setAttractor] leaves where it was and the constructor puts at 0, shows
    in nothing afterwards: through every further sequence of calls both
    engines raise or both return, with the same buffers, the same trails
    from their ring index on and equally many draws. *)
Theorem setAttractor_reseeds (attractor : Attractor)
    (o : Options.ParticleSystemOptions) (cs : list call) (c0 c : nat)
    (s : ParticleSystem) (f : Attractor) :
  session Math_random attractor o cs c0 = Returns (s, c) ->
  exists s1 s2 c',
    setAttractor Math_random f s c = Returns (s1, c') /\
    construct Math_random f
      {| Options.particleCount := particleCount s;
         Options.trailLength := trailLength s;
         Options.colorStart := colorStart s;
         Options.colorEnd := colorEnd s |} c = Returns (s2, c') /\
    same_trails s1 s2 /\
    (forall cs', same_run same_trails (run Math_random cs' s1)
                   (run Math_random cs' s2)) /\
    getParticleCount s1 = getParticleCount s /\
    getParticleCount s2 = getParticleCount s /\
    trailPositions s1 = trailPositions s2 /\
    positions s1 = positions s2 /\
    colors s1 = colors s2 /\
    sizes s1 = sizes s2 /\
    currentAttractor s1 = f /\ currentAttractor s2 = f /\
    currentParams s1 = params f /\ currentParams s2 = params f /\
    colorStart s1 = colorStart s /\ colorEnd s1 = colorEnd s /\
    trailPositions s1
    = replicate (trailLength s)
        (tabulate (seed_cell Math_random (scale f) c) (particleCount s * 3)) /\
    forall i t k, i < particleCount s -> t < trailLength s -> k < 3 ->
      positions s1 !! ((i * trailLength s + t) * 3 + k)
      = Some (fround (seed_cell Math_random (scale f) c (i * 3 + k) * scale f)).
Proof.
  intros Hs.
  destruct (session_invariant _ _ _ _ _ _ _ Hs) as (Hwf & _ & _ & _).
  set (o' := {| Options.particleCount := particleCount s;
                Options.trailLength := trailLength s;
                Options.colorStart := colorStart s;
                Options.colorEnd := colorEnd s |}).
  set (sf := {| geometry := geometry s; material := material s;
                positions := positions s; colors := colors s; sizes := sizes s;
                trailPositions := trailPositions s; trailIndex := trailIndex s;
                particleCount := particleCount s; trailLength := trailLength s;
                colorStart := colorStart s; colorEnd := colorEnd s;
                currentAttractor := f; currentParams := params f |}).
  assert (well_formed sf) as Hwf' by exact Hwf.
  set (a := tabulate (seed_cell Math_random (scale f) c) (particleCount s * 3)).
  assert (seeded_ring Math_random sf c = replicate (trailLength s) a) as Hring1
    by reflexivity.
  assert (seeded_ring Math_random (allocate f o') c = replicate (trailLength s) a)
    as Hring2 by reflexivity.
  assert (forall m, m < particleCount s * trailLength s * 3 ->
            position_cell (set_trailPositions (replicate (trailLength s) a) sf) m
            = fround (f32_get a (m / 3 / trailLength s * 3 + m mod 3) * scale f))
    as Hpos1.
  { intros m Hm.
    destruct Hwf as (_ & _ & _ & _ & _ & Hi).
    destruct Hi as (k & Hk & _); [destruct (trailLength s); lia |].
    apply (position_cell_seeded (set_trailPositions (replicate (trailLength s) a) sf) a k);
      [reflexivity | exact Hk | exact Hm]. }
  assert (same_trails
            (repack (set_trailPositions (seeded_ring Math_random sf c) sf))
            (repack (set_trailPositions (seeded_ring Math_random (allocate f o') c)
                       (allocate f o')))) as Hsame
    by (apply seeded_same_trails;
        first [reflexivity | exact Hwf' | apply allocate_well_formed]).
  exists (repack (set_trailPositions (seeded_ring Math_random sf c) sf)),
         (repack (set_trailPositions (seeded_ring Math_random (allocate f o') c)
                    (allocate f o'))),
         (c + particleCount s * 3).
  split; [apply (initializeParticles_seeded Math_random sf c Hwf') |].
  split; [apply (construct_seeded Math_random f o' c) |].
  split; [exact Hsame |].
  split; [intros cs'; apply run_same_trails, Hsame |].
  clear Hsame.
  rewrite Hring1, Hring2. fields. cbn [Options.particleCount Options.trailLength
    Options.colorStart Options.colorEnd o' sf].
  repeat (split; [reflexivity |]).
  split; [| repeat (split; [reflexivity |])].
  - apply tabulate_ext. intros m Hm. rewrite Hpos1 by exact Hm.
    symmetry.
    apply (position_cell_seeded
             (set_trailPositions (replicate (trailLength s) a) (allocate f o')) a 0);
      [reflexivity | reflexivity | exact Hm].
  - intros i t k Hi Ht Hk.
    change (particleCount sf) with (particleCount s).
    change (trailLength sf) with (trailLength s).
    rewrite tabulate_lookup by nia.
    rewrite Hpos1 by nia.
    rewrite (flat_index_div _ k 3 Hk), (flat_index_mod _ k 3 Hk).
    rewrite (flat_index_div _ t _ Ht).
    unfold f32_get, a. rewrite tabulate_lookup by lia. reflexivity.
Qed.
End Reseeding.

Lemma setAttractor_reseeds_witness :
  exists s s1 s2 c',
    session draws_centre lorenz (options 2 3) [Update 1%float; Update 1%float] 0
    = Returns (s, 6) /\
    setAttractor draws_centre halvorsen s 6 = Returns (s1, c') /\
    construct draws_centre halvorsen (options 2 3) 6 = Returns (s2, c') /\
    trailPositions s1 = trailPositions s2 /\
    positions s1 = positions s2.
Proof.
  evar (s : ParticleSystem).
  assert (session draws_centre lorenz (options 2 3)
            [Update 1%float; Update 1%float] 0 = Returns (s, 6)) as Hs
    by (subst s; vm_compute; reflexivity).
  destruct (setAttractor_reseeds draws_centre lorenz (options 2 3)
              [Update 1%float; Update 1%float] 0 6 s halvorsen Hs)
    as (s1 & s2 & c' & E1 & E2 & _ & _ & _ & _ & Hring & Hpos & _).
  exists s, s1, s2, c'. split; [exact Hs |]. split; [exact E1 |].
  split; [exact E2 |]. split; [exact Hring | exact Hpos].
Defined.

(** ** The repacked buffer *)

Section Repacking.
Variable Math_random : nat -> float.

(** C2, as the code has it.  After every call of [update] on an engine a
    driver can reach, trail slot [t] of particle [i] (flat offset
    [(i * trailLength + t) * 3]) shows the ring slot [t] places after the
    new ring index.  For [t = 0] that is the slot this call wrote: it holds
    the particle's new position.  For [t > 0] it is the slot that was
    [t - 1] places after the old index, left as it was: the walk goes from
    the newest position to the oldest.  Each coordinate is the ring
    coordinate times the scale of the field, and each colour channel is
    [colorEnd + (colorStart - colorEnd) * (t / trailLength)], both rounded
    to binary32. *)
Theorem repack_after_update (attractor : Attractor)
    (o : Options.ParticleSystemOptions) (cs : list call) (c0 c c' : nat)
    (s s' : ParticleSystem) (speed : float) (i t : nat) :
  session Math_random attractor o cs c0 = Returns (s, c) ->
  update Math_random speed s c = Returns (s', c') ->
  i < particleCount s -> t < trailLength s ->
  exists k k' slot,
    trailIndex s = Some k /\ trailIndex s' = Some k' /\
    k' = (k + trailLength s - 1) mod trailLength s /\
    trailPositions s' !! ((k' + t) mod trailLength s) = Some slot /\
    (t = 0 ->
     exists a ci,
       trailPositions s !! k = Some a /\
       holds_particle slot i
         (fst (next_position Math_random s (dt (currentAttractor s) * speed)
                 (particle_at a i) ci))) /\
    (0 < t -> trailPositions s !! ((k + (t - 1)) mod trailLength s) = Some slot) /\
    forall j, j < 3 ->
      positions s' !! ((i * trailLength s + t) * 3 + j)
      = Some (fround (f32_get slot (i * 3 + j) * scale (currentAttractor s))) /\
      colors s' !! ((i * trailLength s + t) * 3 + j)
      = Some (fround (channel j
                        (THREE.lerpColors (colorEnd s) (colorStart s)
                           (float_of_nat t / float_of_nat (trailLength s))))).
Proof.
  intros Hs Hupd Hi Ht.
  pose proof (session_invariant _ _ _ _ _ _ _ Hs) as (Hwf & HP & HT & Hsz).
  pose proof Hwf as (_ & _ & _ & Hl & _ & Hidx).
  destruct Hidx as (k & Hk & Hlt); [lia |].
  destruct (lookup_lt_is_Some_2 (trailPositions s) k) as [a Ha]; [lia |].
  destruct (update_advanced Math_random s speed c k a Hwf Hk Hlt Ha)
    as (ring & b & c'' & E & Hwf' & _ & Hother & Hb & Hpart).
  rewrite E in Hupd. injection Hupd as <- _.
  set (k' := (k + trailLength s - 1) mod trailLength s) in *.
  assert (k' < trailLength s) as Hk' by (apply Nat.mod_upper_bound; lia).
  pose proof Hwf' as (_ & _ & _ & Hl' & _ & _). revert Hl'. fields. intros Hl'.
  destruct (lookup_lt_is_Some_2 ring ((k' + t) mod trailLength s)) as [slot Hslot].
  { rewrite Hl'. apply Nat.mod_upper_bound. lia. }
  exists k, k', slot. fields.
  split; [exact Hk |]. split; [reflexivity |]. split; [reflexivity |].
  split; [exact Hslot |]. split; [| split].
  - intros ->. rewrite Nat.add_0_r, Nat.mod_small in Hslot by exact Hk'.
    assert (slot = b) as -> by congruence.
    destruct (Hpart i Hi) as (ci & _ & Hholds). eauto.
  - intros Hpos. destruct (ring_walk k (trailLength s) t Hlt) as [Hwalk Hne]; [lia |].
    fold k' in Hwalk, Hne. rewrite <- Hwalk, <- Hother by exact Hne. exact Hslot.
  - intros j Hj. rewrite !tabulate_lookup by nia. split; f_equal.
    + etransitivity;
        [apply (position_cell_at
                  (set_trailIndex (Some k') (set_trailPositions ring s)) i t j Ht Hj) |].
      unfold ring_slot, trail_at. fields. cbn [index_add js_rem].
      destruct (Nat.eqb_spec (trailLength s) 0) as [E0|_]; [lia |].
      rewrite Hslot. reflexivity.
    + apply (color_cell_at
               (set_trailIndex (Some k') (set_trailPositions ring s)) i t j Ht Hj).
Qed.
End Repacking.

Lemma repack_after_update_witness :
  exists s s' slot,
    session draws_centre lorenz (options 1 2) [] 0 = Returns (s, 3) /\
    update draws_centre 1 s 3 = Returns (s', 3) /\
    trailPositions s' !! 0 = Some slot /\
    trailPositions s !! 0 = Some slot /\
    positions s' !! 5 = Some (fround (f32_get slot 2 * 1.5)).
Proof.
  evar (s : ParticleSystem). evar (s' : ParticleSystem).
  assert (session draws_centre lorenz (options 1 2) [] 0 = Returns (s, 3)) as Hs
    by (subst s; vm_compute; reflexivity).
  assert (update draws_centre 1 s 3 = Returns (s', 3)) as Hupd
    by (subst s'; vm_compute; reflexivity).
  destruct (repack_after_update draws_centre lorenz (options 1 2) [] 0 3 3 s s' 1 0 1
              Hs Hupd)
    as (k & k' & slot & Hk & Hk' & Ek & Hslot & _ & Hold & Hcells).
  - vm_compute. lia.
  - vm_compute. lia.
  - exists s, s', slot. split; [exact Hs |]. split; [exact Hupd |].
    assert (k = 0) as -> by (vm_compute in Hk; congruence).
    subst k'. split; [exact Hslot |]. split; [apply Hold; lia |].
    destruct (Hcells 2) as [Hp _]; [lia |]. exact Hp.
Defined.

(** C2 as stated fails.  A Lorenz engine of one particle and two trail
    slots, seeded at (0, 0, 25), colorStart red and colorEnd blue: [update(1)]
    writes the new position (0, 0, 24.666...) to ring slot 1, the new index,
    and leaves the old one in slot 0.  The buffer then lists the new
    position first and the old one last, so the order is not oldest to
    newest; and the colour at the newest position is colorEnd (blue), not
    colorStart. *)
Lemma repack_order_counterexample :
  exists s s',
    session draws_centre lorenz (options 1 2) [] 0 = Returns (s, 3) /\
    update draws_centre 1 s 3 = Returns (s', 3) /\
    trailPositions s = [[0; 0; 25]; [0; 0; 25]]%float /\
    trailIndex s' = Some 1 /\
    trailPositions s' = [[0; 0; 25]; [0; 0; 24.666666030883789]]%float /\
    positions s' = [0; 0; 37; 0; 0; 37.5]%float /\
    colors s' = [0; 0; 1; 0.5; 0; 0.5]%float /\
    ~ oldest_to_newest s'.
Proof.
  evar (s : ParticleSystem). evar (s' : ParticleSystem).
  assert (session draws_centre lorenz (options 1 2) [] 0 = Returns (s, 3)) as Hs
    by (subst s; vm_compute; reflexivity).
  assert (update draws_centre 1 s 3 = Returns (s', 3)) as Hupd
    by (subst s'; vm_compute; reflexivity).
  exists s, s'. split; [exact Hs |]. split; [exact Hupd |].
  repeat (split; [reflexivity |]).
  intros H. destruct (H 0 0 2) as (k & slot & Hk & Hslot & Hpos);
    [vm_compute; lia | vm_compute; lia | lia |].
  assert (k = 1) as -> by (vm_compute in Hk; congruence).
  assert (slot = [0; 0; 25]%float) as -> by (vm_compute in Hslot; congruence).
  apply (f_equal (fun x => PrimFloat.eqb (default nan x) 37.5)) in Hpos.
  vm_compute in Hpos. discriminate Hpos.
Qed.

(** * Further properties of the code *)

(** ** Which sessions raise *)

Section Raising.
Variable Math_random : nat -> float.

(** Without a particle, [update] reads no slot of the ring: it returns
    whatever the ring is, after no draw. *)
Lemma update_no_particles (s : ParticleSystem) (speed : float) (c : nat) :
  particleCount s = 0 ->
  update Math_random speed s c
  = Returns (set_trailIndex
               (js_rem (index_sub (index_add (trailIndex s) (trailLength s)) 1)
                  (trailLength s)) s, c).
Proof.
  intros P0. unfold update, mbind, M_bind. rewrite P0.
  cbn [for_loop mret M_ret]. unfold updateBuffers, lift. fields.
  rewrite P0. reflexivity.
Qed.

(** A call returns unless it is an [update] of particles without a ring. *)
Lemma exec_returns_unless (o : Options.ParticleSystemOptions) (s : ParticleSystem)
    (cl : call) (c : nat) :
  engine_invariant o s ->
  1 <= Options.trailLength o \/ Options.particleCount o = 0 \/
  (forall speed, cl <> Update speed) ->
  exists s' c', exec Math_random cl s c = Returns (s', c').
Proof.
  intros Hinv H.
  destruct (Nat.eq_dec (Options.trailLength o) 0) as [T0|NT];
    [| apply (exec_returns Math_random o); [exact Hinv | lia]].
  destruct cl as [speed|f|p|c1 c2|]; cbn [exec];
    try (eexists _, _; reflexivity).
  - destruct H as [H|[H|H]]; [lia | | exfalso; apply (H speed); reflexivity].
    destruct Hinv as (_ & HP & _).
    rewrite update_no_particles by congruence. eauto.
  - destruct Hinv as (Hwf & _). unfold setAttractor.
    rewrite initializeParticles_seeded by exact Hwf. eauto.
Qed.

Lemma exec_raises (o : Options.ParticleSystemOptions) (s : ParticleSystem)
    (speed : float) (c : nat) :
  engine_invariant o s ->
  Options.trailLength o = 0 -> 0 < Options.particleCount o ->
  exec Math_random (Update speed) s c = Throws TypeError.
Proof.
  intros (Hwf & HP & HT & _) T0 P0. cbn [exec]. apply update_empty_ring; [| lia].
  destruct Hwf as (_ & _ & _ & Hl & _). apply length_zero_iff_nil. lia.
Qed.

Lemma run_raises (o : Options.ParticleSystemOptions) (cs : list call) :
  forall (s : ParticleSystem) (c : nat) (e : error),
    engine_invariant o s ->
    run Math_random cs s c = Throws e <->
    e = TypeError /\ Options.trailLength o = 0 /\ 0 < Options.particleCount o /\
    exists speed, In (Update speed) cs.
Proof.
  induction cs as [|cl cs IH]; intros s c e Hinv.
  - cbn [run]. split; [discriminate |]. intros (_ & _ & _ & speed & []).
  - cbn [run]. unfold mbind, M_bind.
    destruct (Nat.eq_dec (Options.trailLength o) 0) as [T0|NT].
    + destruct (Nat.eq_dec (Options.particleCount o) 0) as [P0|NP].
      * destruct (exec_returns_unless o s cl c Hinv) as (s1 & c1 & E); [tauto |].
        rewrite E. rewrite (IH s1 c1 e (exec_invariant _ _ _ _ _ _ _ Hinv E)).
        split; intros (_ & _ & H & _); lia.
      * destruct cl as [speed|f|p|k1 k2|].
        { rewrite (exec_raises o s speed c Hinv T0) by lia.
          split.
          - intros [= <-]. split; [reflexivity |]. split; [exact T0 |].
            split; [lia |]. exists speed. left. reflexivity.
          - intros (-> & _). reflexivity. }
        all: match goal with |- context [exec _ ?cl _ _] =>
               destruct (exec_returns_unless o s cl c Hinv) as (s1 & c1 & E);
                 [right; right; intros speed; discriminate |];
               rewrite E;
               rewrite (IH s1 c1 e (exec_invariant _ _ _ _ _ _ _ Hinv E))
             end.
        all: split; intros (He & HT & HP & speed & Hin);
          (split; [exact He |]; split; [exact HT |]; split; [exact HP |];
           exists speed).
        all: first [right; exact Hin | destruct Hin as [Hin|Hin];
                                        [discriminate Hin | exact Hin]].
    + destruct (exec_returns_unless o s cl c Hinv) as (s1 & c1 & E); [lia |].
      rewrite E. rewrite (IH s1 c1 e (exec_invariant _ _ _ _ _ _ _ Hinv E)).
      split; intros (_ & H & _); lia.
Qed.

(** X1.  A session (construction, then any calls) raises exactly when the
    engine was built with [trailLength = 0] and at least one particle and
    [update] is called: the error is then the TypeError of reading a slot
    of the empty ring.  With a ring of at least one slot, or with no
    particle, every call of every session returns. *)
Theorem session_raises_iff (attractor : Attractor)
    (o : Options.ParticleSystemOptions) (cs : list call) (c0 : nat) (e : error) :
  session Math_random attractor o cs c0 = Throws e <->
  e = TypeError /\ Options.trailLength o = 0 /\ 0 < Options.particleCount o /\
  exists speed, In (Update speed) cs.
Proof.
  unfold session, mbind, M_bind.
  destruct (construct Math_random attractor o c0) as [[s c]|e0] eqn:E.
  - apply run_raises. exact (construct_invariant _ _ _ _ _ _ E).
  - rewrite construct_seeded in E. discriminate E.
Qed.
End Raising.

(** ** What every reachable engine keeps *)

Section Keeping.
Variable Math_random : nat -> float.

(** X2.  Nothing resizes an engine: after construction and any calls, the
    point count is still [particleCount * trailLength] of the options, the
    position and colour buffers hold three cells for each point and the
    size buffer one, the ring has [trailLength] arrays, and each of them
    three cells for each particle. *)
Theorem buffers_keep_their_size (attractor : Attractor)
    (o : Options.ParticleSystemOptions) (cs : list call) (c0 c : nat)
    (s : ParticleSystem) :
  session Math_random attractor o cs c0 = Returns (s, c) ->
  getParticleCount s = Options.particleCount o * Options.trailLength o /\
  length (positions s) = getParticleCount s * 3 /\
  length (colors s) = getParticleCount s * 3 /\
  length (sizes s) = getParticleCount s /\
  length (trailPositions s) = Options.trailLength o /\
  forall a, In a (trailPositions s) -> length a = Options.particleCount o * 3.
Proof.
  intros Hs.
  destruct (session_invariant _ _ _ _ _ _ _ Hs)
    as ((Hp & Hc & Hz & Hl & Hall & _) & HP & HT & _).
  unfold getParticleCount. rewrite <- HP, <- HT.
  splits; try assumption; try reflexivity.
  intros a Ha. exact (proj1 (List.Forall_forall _ _) Hall a Ha).
Qed.

Lemma repack_mirrors (x : ParticleSystem) : mirrors_ring (repack x).
Proof. reflexivity. Qed.

(** Without a point the buffer is empty, as is its repacking. *)
Lemma mirrors_nothing (s : ParticleSystem) :
  well_formed s -> particleCount s * trailLength s = 0 -> mirrors_ring s.
Proof.
  intros (Hp & _) H0. unfold mirrors_ring. rewrite H0 in *.
  apply length_zero_iff_nil in Hp. rewrite Hp. reflexivity.
Qed.

Lemma exec_mirrors (o : Options.ParticleSystemOptions) (s s' : ParticleSystem)
    (cl : call) (c c' : nat) :
  engine_invariant o s -> mirrors_ring s ->
  exec Math_random cl s c = Returns (s', c') -> mirrors_ring s'.
Proof.
  intros Hinv Hm E.
  pose proof (exec_invariant _ _ _ _ _ _ _ Hinv E) as (Hwf' & HP' & HT' & _).
  destruct cl as [speed|f|p|k1 k2|]; cbn [exec] in E.
  - destruct (Nat.eq_dec (Options.trailLength o) 0) as [T0|NT].
    + apply mirrors_nothing; [exact Hwf' |]. rewrite HT', T0. lia.
    + destruct (invariant_index o s Hinv) as (k & a & Hk & Hlt & Ha); [lia |].
      destruct Hinv as (Hwf & _).
      destruct (update_advanced Math_random s speed c k a Hwf Hk Hlt Ha)
        as (ring & b & c1 & E1 & _).
      rewrite E1 in E. injection E as <- _. apply repack_mirrors.
  - destruct Hinv as (Hwf & _). unfold setAttractor in E.
    rewrite initializeParticles_seeded in E by exact Hwf.
    injection E as <- _. apply repack_mirrors.
  - injection E as <- _. exact Hm.
  - injection E as <- _. exact Hm.
  - injection E as <- _. exact Hm.
Qed.

Lemma run_mirrors (o : Options.ParticleSystemOptions) (cs : list call) :
  forall (s s' : ParticleSystem) (c c' : nat),
    engine_invariant o s -> mirrors_ring s ->
    run Math_random cs s c = Returns (s', c') -> mirrors_ring s'.
Proof.
  induction cs as [|cl cs IH]; intros s s' c c' Hinv Hm E; cbn [run] in E.
  - injection E as <- _. exact Hm.
  - unfold mbind, M_bind in E.
    destruct (exec Math_random cl s c) as [[s1 c1]|e] eqn:E1; [| discriminate E].
    apply (IH s1 s' c1 c'); [| | exact E].
    + exact (exec_invariant _ _ _ _ _ _ _ Hinv E1).
    + exact (exec_mirrors _ _ _ _ _ _ Hinv Hm E1).
Qed.

Lemma session_mirrors (attractor : Attractor) (o : Options.ParticleSystemOptions)
    (cs : list call) (c0 c : nat) (s : ParticleSystem) :
  session Math_random attractor o cs c0 = Returns (s, c) -> mirrors_ring s.
Proof.
  unfold session, mbind, M_bind.
  destruct (construct Math_random attractor o c0) as [[s0 c1]|e] eqn:E;
    [| discriminate].
  apply run_mirrors with (o := o).
  - exact (construct_invariant _ _ _ _ _ _ E).
  - rewrite construct_seeded in E. injection E as <- _. apply repack_mirrors.
Qed.

(** X3.  The position buffer is in step with the ring in every state a
    driver can reach, whatever the last call was: trail slot [t] of
    particle [i] shows the coordinates that the ring slot [t] places after
    the ring index holds for the particle, times the scale of the field,
    rounded to binary32. *)
Theorem positions_mirror_ring (attractor : Attractor)
    (o : Options.ParticleSystemOptions) (cs : list call) (c0 c : nat)
    (s : ParticleSystem) (i t j : nat) :
  session Math_random attractor o cs c0 = Returns (s, c) ->
  i < particleCount s -> t < trailLength s -> j < 3 ->
  exists k slot,
    trailIndex s = Some k /\ k < trailLength s /\
    trailPositions s !! ((k + t) mod trailLength s) = Some slot /\
    positions s !! ((i * trailLength s + t) * 3 + j)
    = Some (fround (f32_get slot (i * 3 + j) * scale (currentAttractor s))).
Proof.
  intros Hs Hi Ht Hj.
  pose proof (session_mirrors _ _ _ _ _ _ Hs) as Hm.
  destruct (session_invariant _ _ _ _ _ _ _ Hs) as (Hwf & _).
  pose proof Hwf as (_ & _ & _ & Hl & _ & Hidx).
  destruct Hidx as (k & Hk & Hlt); [lia |].
  destruct (lookup_lt_is_Some_2 (trailPositions s) ((k + t) mod trailLength s))
    as [slot Hslot]; [rewrite Hl; apply Nat.mod_upper_bound; lia |].
  exists k, slot. splits; try assumption.
  rewrite Hm, tabulate_lookup by nia. f_equal.
  rewrite (position_cell_at s i t j Ht Hj).
  rewrite (ring_slot_index s k t Hk) by lia. rewrite Hslot. reflexivity.
Qed.
End Keeping.

Lemma buffers_keep_their_size_witness :
  exists s,
    session draws_centre lorenz (options 2 3)
      [Update 1%float; SetAttractor halvorsen; Update 1%float] 0 = Returns (s, 12) /\
    getParticleCount s = 6 /\ length (positions s) = 18 /\
    length (trailPositions s) = 3.
Proof.
  evar (s : ParticleSystem).
  assert (session draws_centre lorenz (options 2 3)
            [Update 1%float; SetAttractor halvorsen; Update 1%float] 0
          = Returns (s, 12)) as Hs by (subst s; vm_compute; reflexivity).
  destruct (buffers_keep_their_size draws_centre lorenz (options 2 3) _ 0 12 s Hs)
    as (Hn & Hp & _ & _ & Hl & _).
  exists s. split; [exact Hs |]. rewrite Hp, Hn, Hl. repeat split.
Defined.

Lemma positions_mirror_ring_witness :
  exists s k slot,
    session draws_centre lorenz (options 2 3)
      [Update 1%float; SetParams []; Update 1%float; SetColors blue red] 0
    = Returns (s, 12) /\
    trailIndex s = Some k /\
    trailPositions s !! ((k + 2) mod 3) = Some slot /\
    positions s !! ((1 * 3 + 2) * 3 + 1)
    = Some (fround (f32_get slot (1 * 3 + 1) * 1.5)).
Proof.
  evar (s : ParticleSystem).
  assert (session draws_centre lorenz (options 2 3)
            [Update 1%float; SetParams []; Update 1%float; SetColors blue red] 0
          = Returns (s, 12)) as Hs by (subst s; vm_compute; reflexivity).
  destruct (positions_mirror_ring draws_centre lorenz (options 2 3) _ 0 12 s 1 2 1 Hs)
    as (k & slot & Hk & _ & Hslot & Hpos); [vm_compute; lia ..|].
  exists s, k, slot. split; [exact Hs |]. split; [exact Hk |].
  split; [exact Hslot |]. exact Hpos.
Defined.

(** ** The ring as a window on the last frames *)

Section Window.
Variable Math_random : nat -> float.

(** One [update] moves every frame of the ring one place further from the
    index, and leaves the field as it is. *)
Lemma update_shifts (s s' : ParticleSystem) (speed : float) (c c' k : nat) :
  well_formed s -> trailIndex s = Some k -> k < trailLength s ->
  update Math_random speed s c = Returns (s', c') ->
  currentAttractor s' = currentAttractor s /\
  forall t, S t < trailLength s -> ring_slot s' (S t) = ring_slot s t.
Proof.
  intros Hwf Hk Hlt E.
  pose proof Hwf as (_ & _ & _ & Hl & _).
  set (k' := (k + trailLength s - 1) mod trailLength s).
  assert (k' < trailLength s) as Hk' by (apply Nat.mod_upper_bound; lia).
  destruct (lookup_lt_is_Some_2 (trailPositions s) k) as [a0 Ha0]; [lia |].
  destruct (lookup_lt_is_Some_2 (trailPositions s) k') as [b0 Hb0]; [lia |].
  destruct (update_closed Math_random s speed c k a0 b0 Hwf Hk Hlt Ha0 Hb0)
    as [E' _].
  rewrite E' in E. injection E as <- _. fold k'.
  split; [reflexivity |]. intros t Ht.
  rewrite (ring_slot_index _ k' (S t)), (ring_slot_index s k t Hk)
    by (fields; first [reflexivity | lia]).
  fields.
  destruct (ring_walk k (trailLength s) (S t) Hlt) as [W N]; [lia |].
  fold k' in W, N. rewrite list_lookup_insert_ne by auto.
  rewrite W. replace (S t - 1) with t by lia. reflexivity.
Qed.

Lemma updates_shift (o : Options.ParticleSystemOptions) (speeds : list float) :
  forall (s s' : ParticleSystem) (c c' : nat),
    engine_invariant o s ->
    run Math_random (Update <$> speeds) s c = Returns (s', c') ->
    currentAttractor s' = currentAttractor s /\
    forall t, length speeds + t < trailLength s ->
      ring_slot s' (length speeds + t) = ring_slot s t.
Proof.
  induction speeds as [|speed speeds IH]; intros s s' c c' Hinv E.
  - cbn in E. injection E as <- _. split; reflexivity.
  - rewrite fmap_cons in E. cbn [run exec] in E. unfold mbind, M_bind in E.
    destruct (update Math_random speed s c) as [[s1 c1]|e] eqn:E1; [| discriminate E].
    pose proof (update_invariant _ _ _ _ _ _ _ Hinv E1) as Hinv1.
    destruct (IH s1 s' c1 c' Hinv1 E) as [Ha Hshift].
    assert (trailLength s1 = trailLength s) as HT1.
    { destruct Hinv as (_ & _ & HT & _), Hinv1 as (_ & _ & HT1 & _). congruence. }
    destruct (Nat.eq_dec (trailLength s) 0) as [T0|NT].
    + split; [| intros t Ht; lia].
      rewrite Ha. destruct Hinv as (Hwf & HP & _).
      destruct (Nat.eq_dec (particleCount s) 0) as [P0|NP].
      * rewrite update_no_particles in E1 by exact P0. injection E1 as <- _.
        reflexivity.
      * rewrite update_empty_ring in E1; [discriminate E1 | | lia].
        destruct Hwf as (_ & _ & _ & Hl & _). apply length_zero_iff_nil. lia.
    + destruct Hinv as (Hwf & _).
      pose proof Hwf as (_ & _ & _ & _ & _ & Hidx).
      destruct Hidx as (k & Hk & Hlt); [lia |].
      destruct (update_shifts s s1 speed c c1 k Hwf Hk Hlt E1) as [Ha1 Hs1].
      split; [congruence |]. intros t Ht. cbn [length] in *.
      replace (S (length speeds) + t) with (length speeds + S t) by lia.
      rewrite Hshift by lia. apply Hs1. lia.
Qed.

(** X4.  The ring is a window on the last frames.  After [n] calls of
    [update] in a row, with [n + t] less than [trailLength], the frame that
    was [t] places after the ring index is [n + t] places after it,
    untouched, and the points that showed it at trail slot [t] show at
    trail slot [n + t] of the position buffer. *)
Theorem trail_is_a_window (attractor : Attractor)
    (o : Options.ParticleSystemOptions) (cs : list call) (c0 c c' : nat)
    (s s' : ParticleSystem) (speeds : list float) (t : nat) :
  session Math_random attractor o cs c0 = Returns (s, c) ->
  run Math_random (Update <$> speeds) s c = Returns (s', c') ->
  length speeds + t < trailLength s ->
  ring_slot s' (length speeds + t) = ring_slot s t /\
  forall i j, i < particleCount s -> j < 3 ->
    positions s' !! ((i * trailLength s + (length speeds + t)) * 3 + j)
    = positions s !! ((i * trailLength s + t) * 3 + j).
Proof.
  intros Hs E Ht.
  pose proof (session_invariant _ _ _ _ _ _ _ Hs) as Hinv.
  pose proof (run_invariant _ _ _ _ _ _ _ Hinv E) as Hinv'.
  destruct (updates_shift o speeds s s' c c' Hinv E) as [Ha Hshift].
  split; [apply Hshift, Ht |]. intros i j Hi Hj.
  assert (trailLength s' = trailLength s /\ particleCount s' = particleCount s)
    as [HT HP].
  { destruct Hinv as (_ & HP & HT & _), Hinv' as (_ & HP' & HT' & _).
    split; congruence. }
  pose proof (session_mirrors _ _ _ _ _ _ _ Hs) as Hm.
  assert (mirrors_ring s') as Hm'
    by (apply (run_mirrors Math_random o (Update <$> speeds) s s' c c'); assumption).
  rewrite Hm, Hm', HT, HP. rewrite !tabulate_lookup by nia. f_equal.
  pose proof (position_cell_at s' i (length speeds + t) j) as P'.
  rewrite HT in P'. rewrite P' by lia.
  rewrite (position_cell_at s i t j) by lia.
  rewrite Hshift, Ha by exact Ht. reflexivity.
Qed.

Lemma count_resampled_S (s : ParticleSystem) (dt : float) (a0 : list float)
    (n : nat) :
  count_resampled s dt a0 (S n)
  = count_resampled s dt a0 n
    + (if resampled s dt (particle_at a0 n) then 1 else 0).
Proof.
  unfold count_resampled. rewrite seq_S, List.filter_app, length_app.
  cbn [List.filter Nat.add]. destruct (resampled _ _ _); reflexivity.
Qed.

Lemma advance_draws (s : ParticleSystem) (dt : float) (a0 b0 : list float)
    (c n : nat) :
  snd (loop n (advance_particle Math_random s dt a0) (b0, c))
  = c + 3 * count_resampled s dt a0 n.
Proof.
  induction n as [|n IH]; [cbn; lia |].
  cbn [loop]. rewrite count_resampled_S. unfold advance_particle at 1.
  destruct (loop n (advance_particle Math_random s dt a0) (b0, c)) as [b cn].
  cbn [fst snd] in *. subst cn.
  unfold next_position, resampled, particle_at.
  destruct (step _ _ _ _ _ _) as [[nx ny] nz].
  destruct (_ || _); cbn [snd]; lia.
Qed.

(** X5.  [update] calls [Math.random] three times for each particle whose
    step from the position in the current slot of the ring is not finite,
    and never otherwise. *)
Theorem update_draws (attractor : Attractor)
    (o : Options.ParticleSystemOptions) (cs : list call) (c0 c k : nat)
    (s : ParticleSystem) (a0 : list float) (speed : float) :
  session Math_random attractor o cs c0 = Returns (s, c) ->
  trailIndex s = Some k -> trailPositions s !! k = Some a0 ->
  exists s',
    update Math_random speed s c
    = Returns (s', c + 3 * count_resampled s (dt (currentAttractor s) * speed) a0
                           (particleCount s)).
Proof.
  intros Hs Hk Ha0.
  destruct (session_invariant _ _ _ _ _ _ _ Hs) as (Hwf & _).
  pose proof Hwf as (_ & _ & _ & Hl & _).
  assert (k < trailLength s) as Hlt by (rewrite <- Hl; eapply lookup_lt_Some, Ha0).
  destruct (lookup_lt_is_Some_2 (trailPositions s)
              ((k + trailLength s - 1) mod trailLength s)) as [b0 Hb0];
    [rewrite Hl; apply Nat.mod_upper_bound; lia |].
  destruct (update_closed Math_random s speed c k a0 b0 Hwf Hk Hlt Ha0 Hb0)
    as [E _].
  rewrite E, advance_draws. eauto.
Qed.
End Window.

Lemma trail_is_a_window_witness :
  exists s s',
    session draws_centre lorenz (options 2 3) [Update 1%float] 0 = Returns (s, 6) /\
    run draws_centre [Update 2%float] s 6 = Returns (s', 6) /\
    ring_slot s' 2 = ring_slot s 1 /\
    positions s' !! ((1 * 3 + 2) * 3 + 0) = positions s !! ((1 * 3 + 1) * 3 + 0).
Proof.
  evar (s : ParticleSystem). evar (s' : ParticleSystem).
  assert (session draws_centre lorenz (options 2 3) [Update 1%float] 0
          = Returns (s, 6)) as Hs by (subst s; vm_compute; reflexivity).
  assert (run draws_centre (Update <$> [2%float]) s 6 = Returns (s', 6)) as E
    by (subst s'; vm_compute; reflexivity).
  destruct (trail_is_a_window draws_centre lorenz (options 2 3) _ 0 6 6 s s'
              [2%float] 1 Hs E) as [Hring Hpos]; [vm_compute; lia |].
  exists s, s'. split; [exact Hs |]. split; [exact E |].
  split; [exact Hring |]. apply (Hpos 1 0); vm_compute; lia.
Defined.

(** With no parameter set, every Lorenz step is NaN: both particles are
    drawn anew, from six calls of [Math.random]. *)
Lemma update_draws_witness :
  exists s s',
    session draws_centre lorenz (options 2 3) [SetParams []] 0 = Returns (s, 6) /\
    update draws_centre 1 s 6 = Returns (s', 12).
Proof.
  evar (s : ParticleSystem).
  assert (session draws_centre lorenz (options 2 3) [SetParams []] 0
          = Returns (s, 6)) as Hs by (subst s; vm_compute; reflexivity).
  evar (a0 : list float).
  assert (trailPositions s !! 0 = Some a0) as Ha0
    by (subst a0; vm_compute; reflexivity).
  destruct (update_draws draws_centre lorenz (options 2 3) _ 0 6 0 s a0 1%float Hs
              eq_refl Ha0) as [s' E].
  exists s, s'. split; [exact Hs | exact E].
Defined.

(** ** Positions that are not finite *)

(** [isFinite] on the representation of a number. *)
Lemma isFinite_spec (x : float) :
  isFinite x
  = match Prim2SF x with
    | S754_zero _ | S754_finite _ _ _ => true
    | _ => false
    end.
Proof.
  unfold isFinite, is_finite, is_nan, is_infinity.
  rewrite !FloatAxioms.eqb_spec, FloatAxioms.abs_spec.
  change (Prim2SF infinity) with (S754_infinity false).
  destruct (Prim2SF x) as [s|s| |s m e]; try (destruct s; reflexivity);
    [reflexivity |].
  unfold SFeqb, SFcompare, SFabs.
  destruct s; rewrite Z.compare_refl, Pos.compare_cont_refl; reflexivity.
Qed.

(** A sum whose left term is NaN or an infinity is NaN or an infinity. *)
Lemma add_not_finite (x y : float) :
  isFinite x = false -> isFinite (x + y) = false.
Proof.
  rewrite !isFinite_spec, FloatAxioms.add_spec. unfold SF64add, SFadd.
  destruct (Prim2SF x) as [s|s| |s m e]; try discriminate; intros _.
  - destruct (Prim2SF y) as [s'|s'| |s' m' e']; try reflexivity.
    destruct s, s'; reflexivity.
  - reflexivity.
Qed.

Section NotFinite.
Variable Math_sin : float -> float.
Variable Math_random : nat -> float.

(** Every step function of the catalog adds to each coordinate: from a
    position with a coordinate that is not finite, the step is not
    finite. *)
Lemma step_from_non_finite (a : Attractor) (x y z h : float) (p : AttractorParams) :
  In a (map snd (attractors Math_sin)) ->
  isFinite x && isFinite y && isFinite z = false ->
  (let '(nx, ny, nz) := step a x y z p h in
   negb (isFinite nx) || negb (isFinite ny) || negb (isFinite nz)) = true.
Proof.
  intros Hin Hxyz.
  assert (forall dx dy dz : float,
            negb (isFinite (x + dx)) || negb (isFinite (y + dy))
            || negb (isFinite (z + dz)) = true) as Hsum.
  { intros dx dy dz.
    destruct (isFinite x) eqn:Ex;
      [| rewrite (add_not_finite x dx Ex); reflexivity].
    destruct (isFinite y) eqn:Ey;
      [| rewrite (add_not_finite y dy Ey); apply orb_true_iff; left;
         apply orb_true_r].
    destruct (isFinite z) eqn:Ez; [discriminate Hxyz |].
    rewrite (add_not_finite z dz Ez). apply orb_true_r. }
  cbn [attractors map snd In] in Hin.
  repeat (destruct Hin as [<-|Hin]; [cbn [step lorenz thomas dadras rossler aizawa
                                            chen halvorsen sprott]; apply Hsum |]).
  contradiction.
Qed.

(** X6.  A position that is not finite does not carry on.  On an engine
    of a field of the catalog, when the position of particle [i] in the
    current slot of the ring has a coordinate that is NaN or an infinity,
    [update] stores for it, in the slot it writes, a position built from
    three fresh draws: the binary32 roundings of [(u - 0.5) * 2 * scale]
    twice and of [(u - 0.5) * 2 * scale + 25]. *)
Theorem non_finite_position_is_redrawn (attractor : Attractor)
    (o : Options.ParticleSystemOptions) (cs : list call) (c0 c k i : nat)
    (s : ParticleSystem) (a0 : list float) (speed x y z : float) :
  session Math_random attractor o cs c0 = Returns (s, c) ->
  In (currentAttractor s) (map snd (attractors Math_sin)) ->
  trailIndex s = Some k -> trailPositions s !! k = Some a0 ->
  i < particleCount s -> particle_at a0 i = (x, y, z) ->
  isFinite x && isFinite y && isFinite z = false ->
  exists s' c' slot ci,
    update Math_random speed s c = Returns (s', c') /\
    trailIndex s' = Some ((k + trailLength s - 1) mod trailLength s) /\
    trailPositions s' !! ((k + trailLength s - 1) mod trailLength s) = Some slot /\
    c <= ci /\
    slot !! (i * 3)
    = Some (fround ((Math_random ci - 0.5) * 2 * scale (currentAttractor s))) /\
    slot !! (i * 3 + 1)
    = Some (fround ((Math_random (S ci) - 0.5) * 2 * scale (currentAttractor s))) /\
    slot !! (i * 3 + 2)
    = Some (fround ((Math_random (S (S ci)) - 0.5) * 2 * scale (currentAttractor s)
                    + 25)).
Proof.
  intros Hs Hin Hk Ha0 Hi Hp Hxyz.
  destruct (session_invariant _ _ _ _ _ _ _ Hs) as (Hwf & _).
  pose proof Hwf as (_ & _ & _ & Hl & _).
  assert (k < trailLength s) as Hlt by (rewrite <- Hl; eapply lookup_lt_Some, Ha0).
  destruct (update_advanced Math_random s speed c k a0 Hwf Hk Hlt Ha0)
    as (ring & b & c' & E & _ & _ & _ & Hb & Hpart).
  destruct (Hpart i Hi) as (ci & Hci & H0 & H1 & H2).
  exists (repack (set_trailIndex (Some ((k + trailLength s - 1) mod trailLength s))
                    (set_trailPositions ring s))), c', b, ci.
  split; [exact E |]. fields. split; [reflexivity |]. split; [exact Hb |].
  split; [exact Hci |].
  pose proof (step_from_non_finite (currentAttractor s) x y z
                (dt (currentAttractor s) * speed) (currentParams s) Hin Hxyz) as Hstep.
  revert H0 H1 H2. unfold next_position. rewrite Hp.
  destruct (step _ _ _ _ _ _) as [[nx ny] nz]. rewrite Hstep.
  cbn [fst snd]. unfold seed_x, seed_y, seed_z. auto.
Qed.
End NotFinite.

(** The particle of the Halvorsen engine whose x is an infinity after 30
    calls of [update(1)] is back at (0, 0, 25), the centre that the draws
    0.5 give, after the 31st. *)
Lemma non_finite_position_is_redrawn_witness :
  exists s s' c',
    session draws_centre halvorsen (options 1 1) (replicate 30 (Update 1%float)) 0
    = Returns (s, 3) /\
    trailPositions s !! 0 ≫= (fun a => a !! 0) = Some neg_infinity /\
    update draws_centre 1 s 3 = Returns (s', c') /\
    trailPositions s' = [[0; 0; 25]]%float.
Proof.
  evar (s : ParticleSystem). evar (a0 : list float).
  evar (x : float). evar (y : float). evar (z : float).
  assert (session draws_centre halvorsen (options 1 1)
            (replicate 30 (Update 1%float)) 0 = Returns (s, 3)) as Hs
    by (subst s; vm_compute; reflexivity).
  assert (trailPositions s !! 0 = Some a0) as Ha0
    by (subst a0; vm_compute; reflexivity).
  assert (particle_at a0 0 = (x, y, z)) as Hp
    by (subst x y z; vm_compute; reflexivity).
  destruct (non_finite_position_is_redrawn (fun v => v) draws_centre halvorsen
              (options 1 1) _ 0 3 0 0 s a0 1%float x y z Hs)
    as (s' & c' & slot & ci & E & _ & Hslot & _ & H0 & H1 & H2);
    [do 6 right; left; reflexivity | reflexivity | exact Ha0 | vm_compute; lia
    | exact Hp | vm_compute; reflexivity |].
  exists s, s', c'. split; [exact Hs |]. split; [vm_compute; reflexivity |].
  split; [exact E |].
  pose proof (update_invariant draws_centre (options 1 1) s s' 1%float 3 c'
                (session_invariant _ _ _ _ _ _ _ Hs) E)
    as ((_ & _ & _ & Hl & Hall & _) & HP & HT & _).
  cbn in HP, HT. rewrite HT in Hl. rewrite HP in Hall.
  change ((0 + trailLength s - 1) mod trailLength s) with 0 in Hslot.
  destruct (trailPositions s') as [|r0 [|r1 ring]]; try discriminate Hl.
  cbn in Hslot. injection Hslot as ->.
  apply Forall_inv in Hall.
  destruct slot as [|b0 [|b1 [|b2 [|b3 b]]]]; try discriminate Hall.
  cbn in H0, H1, H2. vm_compute in H0, H1, H2. congruence.
Defined.

(** * The driver *)

(** ** The folder of parameter sliders *)

Section Sliders.
Variable Math_sin : float -> float.
Variable Math_random : nat -> float.
Variable THREE_Color : string -> THREE.Color.
Variable document : Document.

Lemma DM_bind_run {A B : Type} (m : DM A) (k : A -> DM B) (d : Driver) (c : nat) :
  (m ≫= k) d c
  = match m d c with
    | (Returns a, d', c') => k a d' c'
    | (Throws e, d', c') => (Throws e, d', c')
    end.
Proof. reflexivity. Qed.

Lemma add_controller_set (x : Controller) (f : Folder) (d : Driver) :
  add_controller x (set_paramFolder (Some f) d)
  = set_paramFolder
      (Some {| folder_params := folder_params f; controllers := controllers f ++ [x];
               destroyed := destroyed f |}) d.
Proof. reflexivity. Qed.

Lemma controller_for_range (attractor : Attractor) (key : string) :
  controller_for attractor key
  = match property (paramRanges attractor) key with
    | Some range =>
        Some {| ctl_key := key; ctl_min := fst (fst range);
                ctl_max := snd (fst range); ctl_step := snd range |}
    | None => None
    end.
Proof. reflexivity. Qed.

(** The body of the loop of [createParamFolder]: it adds a slider for each
    key in turn and stops with a TypeError at the first key that has no
    range. *)
Lemma add_controllers (attractor : Attractor) (keys : list string) :
  forall (f : Folder) (d : Driver) (c : nat),
    exists d',
      for_of keys (fun key =>
        range ← defined (property (paramRanges attractor) key);
        write (add_controller
                 {| ctl_key := key; ctl_min := fst (fst range);
                    ctl_max := snd (fst range); ctl_step := snd range |}))
        (set_paramFolder (Some f) d) c
      = match mapM (controller_for attractor) keys with
        | Some cs =>
            (Returns tt,
             set_paramFolder
               (Some {| folder_params := folder_params f;
                        controllers := controllers f ++ cs;
                        destroyed := destroyed f |}) d, c)
        | None => (Throws TypeError, d', c)
        end.
Proof.
  induction keys as [|key keys IH]; intros f d c.
  - exists d. cbn. rewrite app_nil_r. destruct f; reflexivity.
  - cbn [for_of mapM]. rewrite !DM_bind_run. unfold defined at 1.
    rewrite controller_for_range.
    destruct (property (paramRanges attractor) key) as [range|] eqn:E.
    + unfold write at 1. rewrite add_controller_set.
      match goal with |- context [set_paramFolder (Some ?f1) d] =>
        destruct (IH f1 d c) as [d' E']
      end.
      exists d'. rewrite E'. cbn [folder_params controllers destroyed].
      cbn [mbind option_bind mret option_ret].
      destruct (mapM (controller_for attractor) keys) as [cs|];
        cbn [mbind option_bind]; [| reflexivity].
      rewrite <- app_assoc. reflexivity.
    + eexists. cbn [mbind option_bind]. reflexivity.
Qed.

Lemma controller_keys (attractor : Attractor) (keys : list string) :
  forall cs, mapM (controller_for attractor) keys = Some cs -> map ctl_key cs = keys.
Proof.
  induction keys as [|key keys IH]; intros cs.
  - intros [= <-]. reflexivity.
  - cbn [mapM]. rewrite controller_for_range.
    destruct (property (paramRanges attractor) key) as [range|];
      [| discriminate].
    cbn [mbind option_bind].
    destruct (mapM (controller_for attractor) keys) as [cs'|];
      [| discriminate].
    intros [= <-]. cbn. f_equal. apply IH. reflexivity.
Qed.

Lemma createParamFolder_run (attractor : Attractor) (d : Driver) (c : nat) :
  exists d',
    createParamFolder attractor d c
    = match mapM (controller_for attractor) (map fst (params attractor)) with
      | Some cs =>
          (Returns tt,
           set_paramFolder
             (Some {| folder_params := params attractor; controllers := cs;
                      destroyed := false |}) d, c)
      | None => (Throws TypeError, d', c)
      end.
Proof.
  destruct (add_controllers attractor (map fst (params attractor))
              {| folder_params := params attractor; controllers := [];
                 destroyed := false |} d c) as [d' E].
  exists d'. unfold createParamFolder. rewrite DM_bind_run. unfold write at 1.
  cbv beta iota. exact E.
Qed.

(** Every parameter of a field of the catalog has a range, and the range
    holds its default. *)
Lemma catalog_sliders (attractor : Attractor) :
  In attractor (map snd (attractors Math_sin)) ->
  exists cs,
    mapM (controller_for attractor) (map fst (params attractor)) = Some cs /\
    forallb (slider_in_range (params attractor)) cs = true.
Proof.
  cbn [attractors map snd In]. intros Hin.
  repeat (destruct Hin as [<-|Hin]; [eexists; split; vm_compute; reflexivity |]).
  contradiction.
Qed.

End Sliders.

(** ** The engine of the driver *)

Lemma points_of_app (l1 l2 : list Object3D) :
  points_of (l1 ++ l2) = points_of l1 ++ points_of l2.
Proof.
  induction l1 as [|[i|] l1 IH]; cbn; [reflexivity | f_equal; exact IH | exact IH].
Qed.

Lemma points_of_remove (l : list Object3D) (i : nat) :
  points_of l = [i] -> points_of (scene_remove (Points i) l) = [].
Proof.
  induction l as [|[j|] l IH]; cbn; intros H.
  - discriminate H.
  - injection H as -> H. rewrite Nat.eqb_refl. exact H.
  - apply IH, H.
Qed.

Lemma lookup_own (o : list (string * Attractor)) (key : string) (a : Attractor) :
  own_property o key = Some a -> lookup o key = Descriptor a.
Proof. unfold lookup. intros ->. reflexivity. Qed.

(** No identifier of the catalog is a name of [Object.prototype]. *)
Lemma catalog_not_inherited (Math_sin : float -> float) (key : string)
    (a : Attractor) :
  own_property (attractors Math_sin) key = Some a -> inherits key = false.
Proof.
  unfold attractors. cbn [own_property].
  repeat match goal with
  | |- context [String.eqb ?k key] =>
      destruct (String.eqb_spec k key) as [<-|_]; [reflexivity |]
  end.
  discriminate.
Qed.

Section Stage.
Variable Math_sin : float -> float.
Variable Math_random : nat -> float.
Variable THREE_Color : string -> THREE.Color.
Variable document : Document.

(** On an engine with a ring, [update] returns and leaves the marks of
    [dispose()], the field and the parameters as they are. *)
Lemma update_keeps (o : Options.ParticleSystemOptions) (s : ParticleSystem)
    (speed : float) (c : nat) :
  engine_invariant o s -> 1 <= Options.trailLength o ->
  exists s' c',
    update Math_random speed s c = Returns (s', c') /\
    engine_invariant o s' /\
    geometry s' = geometry s /\ material s' = material s /\
    currentAttractor s' = currentAttractor s /\
    currentParams s' = currentParams s.
Proof.
  intros Hinv H1.
  destruct (invariant_index o s Hinv H1) as (k & a & Hk & Hlt & Ha).
  pose proof Hinv as (Hwf & _).
  destruct (update_advanced Math_random s speed c k a Hwf Hk Hlt Ha)
    as (ring & b & c' & E & _).
  eexists _, c'. split; [exact E |].
  split; [exact (update_invariant _ _ _ _ _ _ _ Hinv E) |].
  repeat split.
Qed.

(** [recreateParticleSystem] on a driver whose settings name a field. *)
Lemma recreate_returns (d : Driver) (c : nat) (a : Attractor) :
  stage_invariant d ->
  own_property (attractors Math_sin) (Settings.attractor (settings d)) = Some a ->
  1 <= Settings.trailLength (settings d) ->
  exists s d',
    construct Math_random a (options_of THREE_Color (settings d)) c
    = Returns (s, c + Settings.particleCount (settings d) * 3) /\
    recreateParticleSystem Math_sin Math_random THREE_Color document d c
    = (Returns tt, d', c + Settings.particleCount (settings d) * 3) /\
    settings d' = settings d /\ view d' = view d /\
    paramFolder d' = paramFolder d /\
    frameCount d' = frameCount d /\ lastTime d' = lastTime d /\
    description (texts d') = description (texts d) /\
    equation (texts d') = equation (texts d) /\
    fps (texts d') = fps (texts d) /\
    particles_count (texts d')
    = (if countEl document then Some (getParticleCount s)
       else particles_count (texts d)) /\
    particleSystem d' = (constructed d, s) /\
    constructed d' = S (constructed d) /\
    released d'
    = released d ++ [(fst (particleSystem d), dispose (snd (particleSystem d)))] /\
    currentAttractor s = a /\ currentParams s = params a /\
    getParticleCount s
    = Settings.particleCount (settings d) * Settings.trailLength (settings d) /\
    stage_invariant d'.
Proof.
  intros (_ & _ & _ & Hscene & Hrel & Hids & _) Ha HT.
  pose proof (construct_seeded Math_random a (options_of THREE_Color (settings d)) c)
    as E.
  pose proof (construct_invariant _ _ _ _ _ _ E) as Hinv.
  set (s := repack (set_trailPositions
                      (seeded_ring Math_random
                         (allocate a (options_of THREE_Color (settings d))) c)
                      (allocate a (options_of THREE_Color (settings d))))) in *.
  assert (stage_invariant
            (set_scene
               (scene_add (Points (constructed d))
                  (scene_remove (Points (fst (particleSystem d))) (scene d)))
               (replace_particleSystem s false
                  (set_particleSystem
                     (fst (particleSystem d), dispose (snd (particleSystem d)))
                     d)))) as Hstage.
  { unfold stage_invariant.
    cbn [particleSystem constructed released scene set_scene stepless
         replace_particleSystem set_particleSystem fst snd].
    split; [exists (options_of THREE_Color (settings d)); split;
            [exact Hinv | exact HT] |].
    split; [reflexivity |]. split; [reflexivity |].
    split; [unfold scene_add; rewrite points_of_app, points_of_remove by exact Hscene;
            reflexivity |].
    split; [| split; [| reflexivity]].
    - apply Forall_app. split; [exact Hrel |].
      apply List.Forall_cons; [split; reflexivity | apply List.Forall_nil].
    - rewrite map_app. cbn [map fst]. rewrite Hids, seq_S. reflexivity. }
  exists s.
  unfold recreateParticleSystem, updateParticlesDisplay.
  rewrite !DM_bind_run. unfold write at 1. cbv beta iota.
  rewrite !DM_bind_run. unfold write at 1. cbv beta iota.
  rewrite !DM_bind_run. unfold read at 1. cbv beta iota.
  cbn [settings set_particleSystem set_scene].
  rewrite !DM_bind_run, (lookup_own _ _ _ Ha). unfold new_ParticleSystem at 1.
  rewrite E.
  rewrite !DM_bind_run. unfold write at 1. cbv beta iota.
  destruct (countEl document).
  - eexists. split; [reflexivity |]. unfold write. split; [reflexivity |].
    cbn [settings view paramFolder frameCount lastTime texts description equation
         fps particles_count set_texts set_scene replace_particleSystem
         set_particleSystem particleSystem constructed released fst snd].
    splits; try reflexivity. exact Hstage.
  - eexists. split; [reflexivity |]. split; [reflexivity |].
    cbn [settings view paramFolder frameCount lastTime texts description equation
         fps particles_count set_texts set_scene replace_particleSystem
         set_particleSystem particleSystem constructed released fst snd].
    splits; try reflexivity. exact Hstage.
Qed.
End Stage.

(** ** The callbacks keep the page in order *)

Lemma bind_write {B : Type} (f : Driver -> Driver) (k : unit -> DM B)
    (d : Driver) (c : nat) :
  (write f ≫= k) d c = k tt (f d) c.
Proof. reflexivity. Qed.

Lemma bind_read {A B : Type} (f : Driver -> A) (k : A -> DM B)
    (d : Driver) (c : nat) :
  (read f ≫= k) d c = k (f d) d c.
Proof. reflexivity. Qed.

Lemma bind_defined {A B : Type} (a : A) (k : A -> DM B) (d : Driver) (c : nat) :
  (defined (Some a) ≫= k) d c = k a d c.
Proof. reflexivity. Qed.

Lemma set_texts_id (d : Driver) : set_texts (texts d) d = d.
Proof. destruct d; reflexivity. Qed.

Lemma own_property_in (o : list (string * Attractor)) (key : string) :
  In key (map fst o) ->
  exists a, own_property o key = Some a /\ In a (map snd o).
Proof.
  induction o as [|[k a] o IH]; cbn; [contradiction |].
  intros H. destruct (String.eqb_spec k key) as [->|N].
  - exists a. split; [reflexivity | left; reflexivity].
  - destruct H as [H|H]; [contradiction |].
    destruct (IH H) as (a' & E & Hin). exists a'. split; [exact E | right; exact Hin].
Qed.

Lemma own_property_some (o : list (string * Attractor)) (key : string)
    (a : Attractor) :
  own_property o key = Some a -> In a (map snd o).
Proof.
  induction o as [|[k a'] o IH]; cbn; [discriminate |].
  destruct (String.eqb k key).
  - intros [= ->]. left. reflexivity.
  - intros H. right. apply IH, H.
Qed.

Lemma own_property_none (o : list (string * Attractor)) (key : string) :
  ~ In key (map fst o) -> own_property o key = None.
Proof.
  induction o as [|[k a] o IH]; cbn; [reflexivity |].
  intros H. destruct (String.eqb_spec k key) as [->|N]; [tauto |].
  apply IH. tauto.
Qed.

Lemma assign_keys {A : Type} (o : list (string * A)) (key : string) (v : A) :
  In key (map fst o) -> map fst (assign o key v) = map fst o.
Proof.
  induction o as [|[k a] o IH]; cbn; [contradiction |].
  intros H. destruct (String.eqb_spec k key) as [->|N]; [reflexivity |].
  cbn. f_equal. apply IH. destruct H as [H|H]; [contradiction | exact H].
Qed.

Lemma has_slider_key (f : Folder) (key : string) :
  has_slider f key = true ->
  destroyed f = false /\ In key (map ctl_key (controllers f)).
Proof.
  unfold has_slider. intros H. apply andb_true_iff in H as [H1 H2].
  split; [destruct (destroyed f); [discriminate H1 | reflexivity] |].
  apply existsb_exists in H2 as (k & Hin & Hk).
  apply String.eqb_eq in Hk. subst k. exact Hin.
Qed.

Section Page.
Variable Math_sin : float -> float.
Variable Math_random : nat -> float.
Variable THREE_Color : string -> THREE.Color.
Variable document : Document.

Lemma updateDescription_run (d : Driver) (c : nat) (a : Attractor) :
  own_property (attractors Math_sin) (Settings.attractor (settings d)) = Some a ->
  exists t,
    updateDescription Math_sin document d c = (Returns tt, set_texts t d, c) /\
    particles_count t = particles_count (texts d) /\
    equation t = equation (texts d) /\ fps t = fps (texts d) /\
    description t = (if descEl document then Some a else description (texts d)).
Proof.
  intros Ha. unfold updateDescription. destruct (descEl document).
  - rewrite bind_read, (lookup_own _ _ _ Ha). cbn [object_of].
    rewrite bind_defined. unfold write.
    eexists. split; [reflexivity |]. repeat split.
  - exists (texts d). rewrite set_texts_id. repeat split.
Qed.

Lemma updateEquation_run (d : Driver) (c : nat) :
  inherits (Settings.attractor (settings d)) = false ->
  exists t,
    updateEquation document d c = (Returns tt, set_texts t d, c) /\
    particles_count t = particles_count (texts d) /\
    description t = description (texts d) /\ fps t = fps (texts d) /\
    equation t
    = (if eqEl document && katex document
       then Some (default [] (property latexEquations
                                (Settings.attractor (settings d))))
       else equation (texts d)).
Proof.
  intros Hkey. unfold updateEquation. destruct (eqEl document && katex document).
  - rewrite bind_read, Hkey.
    destruct (property latexEquations (Settings.attractor (settings d)));
      unfold write; (eexists; split; [reflexivity |]; repeat split).
  - exists (texts d). rewrite set_texts_id. repeat split.
Qed.

(** The callback of the [Type] list, for an identifier of the catalog. *)
Lemma onAttractorChange_returns (d : Driver) (c : nat) (value : string)
    (a : Attractor) :
  stage_invariant d ->
  (exists f, paramFolder d = Some f) ->
  Settings.attractor (settings d) = value ->
  own_property (attractors Math_sin) value = Some a ->
  1 <= Settings.trailLength (settings d) ->
  exists d' s cs,
    onAttractorChange Math_sin Math_random THREE_Color document value d c
    = (Returns tt, d', c + Settings.particleCount (settings d) * 3) /\
    construct Math_random a (options_of THREE_Color (settings d)) c
    = Returns (s, c + Settings.particleCount (settings d) * 3) /\
    settings d' = settings d /\
    particleSystem d' = (constructed d, s) /\
    released d'
    = released d ++ [(fst (particleSystem d), dispose (snd (particleSystem d)))] /\
    currentAttractor s = a /\ currentParams s = params a /\
    camera_position (view d') = cameraPosition a /\
    mapM (controller_for a) (map fst (params a)) = Some cs /\
    paramFolder d'
    = Some {| folder_params := params a; controllers := cs; destroyed := false |} /\
    particles_count (texts d')
    = (if countEl document then Some (getParticleCount s)
       else particles_count (texts d)) /\
    description (texts d')
    = (if descEl document then Some a else description (texts d)) /\
    frameCount d' = frameCount d /\ lastTime d' = lastTime d /\
    stage_invariant d'.
Proof.
  intros Hstage [f Hf] Hkey Ha HT.
  unfold onAttractorChange.
  rewrite bind_read, Hf, DM_bind_run. unfold write at 1. cbv beta iota.
  rewrite (lookup_own _ _ _ Ha). cbn [descriptor].
  rewrite bind_defined, bind_write, DM_bind_run.
  match goal with |- context [recreateParticleSystem _ _ _ _ ?d1 c] =>
    destruct (recreate_returns Math_sin Math_random THREE_Color document d1 c a)
      as (s & d2 & E & -> & Hset & Hview & Hfolder & Hfc & Hlt & Hdesc & Heq & Hfps
          & Hcount & Hps & Hcons & Hrel & Hattr & Hpar & Hn & Hstage2)
  end.
  { exact Hstage. }
  { cbn [settings set_view set_paramFolder]. rewrite Hkey. exact Ha. }
  { exact HT. }
  cbn [settings set_view set_paramFolder view paramFolder frameCount lastTime texts
       constructed particleSystem] in *.
  rewrite DM_bind_run.
  destruct (updateDescription_run d2 (c + Settings.particleCount (settings d) * 3) a)
    as (t3 & -> & Hc3 & He3 & Hf3 & Hd3).
  { rewrite Hset, Hkey. exact Ha. }
  rewrite DM_bind_run.
  destruct (updateEquation_run (set_texts t3 d2)
              (c + Settings.particleCount (settings d) * 3))
    as (t4 & -> & Hc4 & Hd4 & Hf4 & He4).
  { cbn [settings set_texts]. rewrite Hset, Hkey.
    exact (catalog_not_inherited Math_sin value a Ha). }
  destruct (catalog_sliders Math_sin a (own_property_some _ _ _ Ha)) as (cs & Hcs & _).
  match goal with |- context [createParamFolder a ?d4 ?c4] =>
    destruct (createParamFolder_run a d4 c4) as [d5 ->]
  end.
  rewrite Hcs.
  eexists _, s, cs. split; [reflexivity |]. split; [exact E |].
  cbn [settings view particleSystem paramFolder texts frameCount lastTime
       set_paramFolder set_texts] in *.
  splits; try assumption; try reflexivity.
  - rewrite Hview. reflexivity.
  - rewrite Hc4, Hc3. exact Hcount.
  - rewrite Hd4, Hd3. destruct (descEl document); [reflexivity | exact Hdesc].
Qed.
End Page.

Section Events.
Variable Math_sin : float -> float.
Variable Math_random : nat -> float.
Variable THREE_Color : string -> THREE.Color.
Variable document : Document.

Local Abbreviation Dispatch := (dispatch Math_sin Math_random THREE_Color document).
Local Abbreviation Play := (play Math_sin Math_random THREE_Color document).
Local Abbreviation Panel := (panel_invariant Math_sin document).

(** A method that returns the engine with its sizes, its marks and its
    field, and with a value for each parameter, keeps the page in
    order. *)
Lemma on_engine_keeps (method : ParticleSystem -> M ParticleSystem)
    (d : Driver) (c c' : nat) (s' : ParticleSystem) :
  stage_invariant d -> Panel d ->
  method (snd (particleSystem d)) c = Returns (s', c') ->
  (forall o, engine_invariant o (snd (particleSystem d)) -> engine_invariant o s') ->
  geometry s' = geometry (snd (particleSystem d)) ->
  material s' = material (snd (particleSystem d)) ->
  currentAttractor s' = currentAttractor (snd (particleSystem d)) ->
  map fst (currentParams s') = map fst (params (currentAttractor s')) ->
  on_engine method d c
  = (Returns tt, set_particleSystem (fst (particleSystem d), s') d, c') /\
  stage_invariant (set_particleSystem (fst (particleSystem d), s') d) /\
  Panel (set_particleSystem (fst (particleSystem d), s') d).
Proof.
  intros ([o [Hinv H1]] & Hg & Hm & Hscene & Hrel & Hids & Hflag)
         (Hattr & HT & Hkeys & Hfolder & Hcount) E Hkeep Hg' Hm' Ha' Hk'.
  unfold on_engine. rewrite E. split; [reflexivity |].
  split.
  - unfold stage_invariant. cbn [particleSystem set_particleSystem fst snd scene
                                  released constructed stepless].
    splits; try assumption; try congruence.
    exists o. split; [apply Hkeep, Hinv | exact H1].
  - unfold panel_invariant.
    cbn [particleSystem set_particleSystem fst snd settings paramFolder texts].
    rewrite Ha'. splits; try assumption.
    + rewrite <- Ha'. exact Hk'.
    + intros Hc. rewrite (Hcount Hc). f_equal.
      destruct (Hkeep o Hinv) as (_ & HP' & HT' & _).
      destruct Hinv as (_ & HP & HT0 & _).
      unfold getParticleCount. congruence.
Qed.

(** Every event of the page returns and keeps the page in order. *)
Lemma dispatch_keeps (ev : event) (d : Driver) (c : nat) :
  stage_invariant d -> Panel d -> on_page Math_sin ev ->
  exists d' c',
    Dispatch ev d c = (Returns tt, d', c') /\
    stage_invariant d' /\ Panel d'.
Proof.
  intros Hstage Hpanel Hev.
  pose proof Hstage as ([o [Hinv H1]] & Hg & Hm & Hscene & Hrel & Hids & Hflag).
  pose proof Hpanel as (Hattr & HT & Hkeys & (f & Hf & Hlive & Hctl & Hfp) & Hcount).
  destruct ev as [value|key value|value|value|value|value| |value| |value|value| | |now];
    cbn [dispatch on_page] in *.
  - (* AttractorSelected *)
    destruct (own_property_in (attractors Math_sin) value Hev) as (a & Ha & _).
    rewrite bind_write.
    match goal with |- context [onAttractorChange _ _ _ _ value ?d1 c] =>
      destruct (onAttractorChange_returns Math_sin Math_random THREE_Color document
                  d1 c value a)
        as (d' & s & cs & E & _ & Hset & Hps & _ & Hsa & Hsp & _ & Hcs & Hfolder
            & Hcnt & _ & _ & _ & Hstage')
    end; try assumption; try reflexivity.
    { exists f. exact Hf. }
    eexists _, _. split; [exact E |]. split; [exact Hstage' |].
    unfold panel_invariant. rewrite Hps, Hset, Hfolder.
    cbn [fst snd settings set_settings Settings.attractor Settings.set_attractor
         Settings.trailLength].
    rewrite Hsa, Hsp. splits; try assumption; try reflexivity.
    + eexists. split; [reflexivity |]. cbn [destroyed controllers folder_params].
      splits; try reflexivity. apply (controller_keys a), Hcs.
    + intros Hc. rewrite Hcnt, Hc. reflexivity.
  - (* ParamSlid *)
    rewrite bind_read, Hf.
    destruct (has_slider f key) eqn:Hs.
    + apply has_slider_key in Hs as [_ Hin].
      rewrite bind_write. unfold onParamChange. rewrite bind_read.
      cbn [paramFolder set_paramFolder folder_params].
      match goal with |- context [on_engine ?m ?d1 c] =>
        destruct (on_engine_keeps m d1 c c
                    (setParams (assign (folder_params f) key value)
                       (snd (particleSystem d))))
          as (E & Hstage' & Hpanel')
      end; try reflexivity.
      * exact Hstage.
      * unfold panel_invariant.
        cbn [particleSystem set_paramFolder settings paramFolder texts].
        splits; try assumption.
        eexists. split; [reflexivity |].
        cbn [destroyed controllers folder_params]. splits; try assumption.
        rewrite assign_keys by (rewrite Hfp, <- Hctl; exact Hin). exact Hfp.
      * intros o' H. exact H.
      * cbn [particleSystem set_paramFolder currentParams currentAttractor setParams
             snd].
        rewrite assign_keys by (rewrite Hfp, <- Hctl; exact Hin). exact Hfp.
      * eexists _, _. split; [exact E |]. split; assumption.
    + exists d, c. split; [reflexivity |]. split; assumption.
  - (* SpeedSlid *)
    eexists _, _. split; [reflexivity |]. split; [exact Hstage | exact Hpanel].
  - (* ColorStartPicked *)
    rewrite bind_write. unfold onColorChange. rewrite bind_read.
    match goal with |- context [on_engine ?m ?d1 c] =>
      destruct (on_engine_keeps m d1 c c
                  (setColors
                     (THREE_Color (Settings.colorStart (settings d1)))
                     (THREE_Color (Settings.colorEnd (settings d1)))
                     (snd (particleSystem d))))
        as (E & Hstage' & Hpanel')
    end; try reflexivity; try assumption.
    { intros o' H. exact H. }
    eexists _, _. split; [exact E |]. split; assumption.
  - (* ColorEndPicked *)
    rewrite bind_write. unfold onColorChange. rewrite bind_read.
    match goal with |- context [on_engine ?m ?d1 c] =>
      destruct (on_engine_keeps m d1 c c
                  (setColors
                     (THREE_Color (Settings.colorStart (settings d1)))
                     (THREE_Color (Settings.colorEnd (settings d1)))
                     (snd (particleSystem d))))
        as (E & Hstage' & Hpanel')
    end; try reflexivity; try assumption.
    { intros o' H. exact H. }
    eexists _, _. split; [exact E |]. split; assumption.
  - (* CountSlid *)
    eexists _, _. split; [reflexivity |]. split; [exact Hstage | exact Hpanel].
  - (* CountFinished *)
    destruct (recreate_returns Math_sin Math_random THREE_Color document d c _
                Hstage Hattr HT)
      as (s & d' & _ & E & Hset & _ & Hfolder & _ & _ & _ & _ & _ & Hcnt & Hps & _
          & _ & Hsa & Hsp & _ & Hstage').
    eexists _, _. split; [exact E |]. split; [exact Hstage' |].
    unfold panel_invariant. rewrite Hps, Hset, Hfolder.
    cbn [fst snd]. rewrite Hsa, Hsp. splits; try assumption; try reflexivity.
    + exists f. splits; assumption.
    + intros Hc. rewrite Hcnt, Hc. reflexivity.
  - (* TrailSlid *)
    eexists _, _. split; [reflexivity |]. split; [exact Hstage |].
    unfold panel_invariant.
    cbn [particleSystem settings set_settings paramFolder texts
         Settings.attractor Settings.trailLength Settings.set_trailLength].
    splits; try assumption; [lia |]. exists f. splits; assumption.
  - (* TrailFinished *)
    destruct (recreate_returns Math_sin Math_random THREE_Color document d c _
                Hstage Hattr HT)
      as (s & d' & _ & E & Hset & _ & Hfolder & _ & _ & _ & _ & _ & Hcnt & Hps & _
          & _ & Hsa & Hsp & _ & Hstage').
    eexists _, _. split; [exact E |]. split; [exact Hstage' |].
    unfold panel_invariant. rewrite Hps, Hset, Hfolder.
    cbn [fst snd]. rewrite Hsa, Hsp. splits; try assumption; try reflexivity.
    + exists f. splits; assumption.
    + intros Hc. rewrite Hcnt, Hc. reflexivity.
  - (* AutoRotateToggled *)
    eexists _, _. split; [reflexivity |]. split; [exact Hstage | exact Hpanel].
  - (* RotateSpeedSlid *)
    eexists _, _. split; [reflexivity |]. split; [exact Hstage | exact Hpanel].
  - (* ResetClicked *)
    unfold reset. rewrite bind_read, (lookup_own _ _ _ Hattr). cbn [descriptor].
    rewrite bind_defined. unfold write.
    eexists _, _. split; [reflexivity |]. split; [exact Hstage | exact Hpanel].
  - (* EquationTimer *)
    destruct (updateEquation_run document d c
                (catalog_not_inherited Math_sin _ _ Hattr)) as (t & -> & Hc & _).
    eexists _, _. split; [reflexivity |]. split; [exact Hstage |].
    unfold panel_invariant.
    cbn [particleSystem settings paramFolder texts set_texts].
    rewrite Hc. splits; try assumption. exists f. splits; assumption.
  - (* AnimationFrame *)
    unfold animate. rewrite !bind_read, Hflag, DM_bind_run. cbn [andb].
    change (fun s : ParticleSystem => update Math_random (Settings.speed (settings d)) s)
      with (update Math_random (Settings.speed (settings d))).
    destruct (update_keeps Math_random o (snd (particleSystem d))
                (Settings.speed (settings d)) c Hinv H1)
      as (s' & c' & E & Hinv' & Hg' & Hm' & Ha' & Hp').
    destruct (on_engine_keeps (update Math_random (Settings.speed (settings d)))
                d c c' s' Hstage Hpanel E)
      as (-> & Hstage' & Hpanel'); try assumption.
    { intros o' Ho'. exact (update_invariant _ _ _ _ _ _ _ Ho' E). }
    { rewrite Hp', Ha'. exact Hkeys. }
    unfold updateFPS, write.
    eexists _, _. split; [reflexivity |].
    destruct (1000 <=? now - _)%float, (fpsEl document);
      (split; [exact Hstage' | exact Hpanel']).
Qed.

(** The events of a page in turn: nothing reaches the console, and the
    page stays in order. *)
Lemma play_keeps (evs : list event) :
  forall (d : Driver) (c : nat),
    stage_invariant d -> Panel d -> Forall (on_page Math_sin) evs ->
    exists d' c',
      Play evs d c = ([], d', c') /\ stage_invariant d' /\ Panel d'.
Proof.
  induction evs as [|ev evs IH]; intros d c Hstage Hpanel Hevs.
  - exists d, c. split; [reflexivity |]. split; assumption.
  - apply Forall_cons in Hevs as [Hev Hevs].
    destruct (dispatch_keeps ev d c Hstage Hpanel Hev) as (d1 & c1 & E & Hs1 & Hp1).
    destruct (IH d1 c1 Hs1 Hp1 Hevs) as (d' & c' & E' & Hs' & Hp').
    exists d', c'. cbn [play]. rewrite E, E'. split; [reflexivity |].
    split; assumption.
Qed.

(** The script, for settings that name a field of the catalog and a ring
    of at least one slot, builds a page that is in order. *)
Lemma script_returns (st : Settings.Settings) (now : float) (c : nat)
    (a : Attractor) :
  own_property (attractors Math_sin) (Settings.attractor st) = Some a ->
  1 <= Settings.trailLength st ->
  exists d s,
    script Math_sin Math_random THREE_Color document st now c
    = Returns (d, c + Settings.particleCount st * 3) /\
    construct Math_random a (options_of THREE_Color st) c
    = Returns (s, c + Settings.particleCount st * 3) /\
    settings d = st /\ particleSystem d = (0, s) /\
    frameCount d = 0 /\ lastTime d = now /\
    camera_position (view d) = cameraPosition a /\
    (exists cs,
       mapM (controller_for a) (map fst (params a)) = Some cs /\
       paramFolder d
       = Some {| folder_params := params a; controllers := cs;
                 destroyed := false |}) /\
    stage_invariant d /\ Panel d /\
    constructed d = 1 /\ released d = [] /\ scene d = [Points 0; AxesGroup] /\
    description (texts d) = (if descEl document then Some a else None) /\
    particles_count (texts d)
    = (if countEl document then Some (getParticleCount s) else None) /\
    equation (texts d) = None /\ fps (texts d) = None.
Proof.
  intros Ha HT. unfold script. rewrite (lookup_own _ _ _ Ha). cbn [descriptor].
  pose proof (construct_seeded Math_random a (options_of THREE_Color st) c) as E.
  pose proof (construct_invariant _ _ _ _ _ _ E) as Hinv.
  set (s := repack _) in *.
  change (Options.particleCount (options_of THREE_Color st))
    with (Settings.particleCount st) in E.
  rewrite E. rewrite DM_bind_run.
  match goal with |- context [updateDescription _ _ ?d0 ?c0] =>
    destruct (updateDescription_run Math_sin document d0 c0 a Ha)
      as (t1 & -> & Hc1 & He1 & Hf1 & Hd1)
  end.
  cbn [texts description equation fps particles_count] in Hc1, He1, Hf1, Hd1.
  rewrite DM_bind_run. unfold updateParticlesDisplay.
  destruct (catalog_sliders Math_sin a (own_property_some _ _ _ Ha))
    as (cs & Hcs & _).
  assert (forall d1 : Driver,
            match createParamFolder a d1 (c + Settings.particleCount st * 3) with
            | (Returns _, d', c'') => Returns (d', c'')
            | (Throws e, _, _) => Throws e
            end
            = Returns
                (set_paramFolder
                   (Some {| folder_params := params a; controllers := cs;
                            destroyed := false |}) d1,
                 c + Settings.particleCount st * 3)) as Hfolder.
  { intros d1. destruct (createParamFolder_run a d1 (c + Settings.particleCount st * 3))
      as [d5 ->]. rewrite Hcs. reflexivity. }
  assert (forall t0 : Texts,
            stage_invariant
              (set_paramFolder
                 (Some {| folder_params := params a; controllers := cs;
                          destroyed := false |})
                 (set_texts t0
                    {| settings := st;
                       view := {| camera_position := cameraPosition a;
                                  controls_target := (0, 0, 0)%float;
                                  controls_autoRotate := Settings.autoRotate st;
                                  controls_autoRotateSpeed := Settings.rotateSpeed st |};
                       particleSystem := (0, s); stepless := false;
                       constructed := 1; released := [];
                       scene := scene_add AxesGroup (scene_add (Points 0) []);
                       paramFolder := None;
                       texts := {| description := None; equation := None;
                                   particles_count := None; fps := None |};
                       frameCount := 0; lastTime := now |}))) as Hstage.
  { intros t0. unfold stage_invariant.
    cbn [particleSystem set_paramFolder set_texts fst snd scene released constructed
         stepless].
    split; [exists (options_of THREE_Color st); split; [exact Hinv | exact HT] |].
    repeat split. apply List.Forall_nil. }
  assert (map ctl_key cs = map fst (params a)) as Hk
    by (apply (controller_keys a), Hcs).
  destruct (countEl document) eqn:Hcount.
  - cbv beta iota delta [write mret DM_ret].
    rewrite Hfolder. eexists _, s. split; [reflexivity |].
    split; [reflexivity |].
    splits; try reflexivity;
      try (exists cs; split; [exact Hcs | reflexivity]);
      try apply Hstage;
      try (cbn [texts set_paramFolder set_texts description equation fps
                particles_count];
           first [rewrite Hd1 | rewrite He1 | rewrite Hf1 | rewrite Hc1];
           reflexivity).
    unfold panel_invariant.
    cbn [particleSystem set_paramFolder set_texts fst snd settings paramFolder texts
         particles_count].
    splits; try reflexivity; try assumption.
    eexists. split; [reflexivity |]. splits; try reflexivity. exact Hk.
  - cbv beta iota delta [write mret DM_ret].
    rewrite Hfolder. eexists _, s. split; [reflexivity |].
    split; [reflexivity |].
    splits; try reflexivity;
      try (exists cs; split; [exact Hcs | reflexivity]);
      try apply Hstage;
      try (cbn [texts set_paramFolder set_texts description equation fps
                particles_count];
           first [rewrite Hd1 | rewrite He1 | rewrite Hf1 | rewrite Hc1];
           reflexivity).
    unfold panel_invariant.
    cbn [particleSystem set_paramFolder set_texts fst snd settings paramFolder texts
         particles_count].
    splits; try reflexivity; try assumption.
    + eexists. split; [reflexivity |]. splits; try reflexivity. exact Hk.
    + rewrite Hcount. discriminate.
Qed.
End Events.

(** ** The page as the script builds it *)

Section Shipped.
Variable Math_sin : float -> float.
Variable Math_random : nat -> float.
Variable THREE_Color : string -> THREE.Color.
Variable document : Document.

Local Abbreviation Main := (main Math_sin Math_random THREE_Color document).
Local Abbreviation Dispatch := (dispatch Math_sin Math_random THREE_Color document).
Local Abbreviation Play := (play Math_sin Math_random THREE_Color document).
Local Abbreviation Panel := (panel_invariant Math_sin document).

(** The script returns, and the page is in order after any events. *)
Lemma main_play (now : float) (c : nat) (evs : list event) :
  Forall (on_page Math_sin) evs ->
  exists d0 c0 d c',
    Main now c = Returns (d0, c0) /\
    Play evs d0 c0 = ([], d, c') /\
    stage_invariant d /\ Panel d.
Proof.
  intros Hevs.
  destruct (script_returns Math_sin Math_random THREE_Color document
              Settings.initial now c lorenz eq_refl)
    as (d0 & s & E & _ & _ & _ & _ & _ & _ & _ & Hstage & Hpanel & _).
  { cbn [Settings.trailLength Settings.initial]. lia. }
  destruct (play_keeps Math_sin Math_random THREE_Color document evs d0
              (c + Settings.particleCount Settings.initial * 3)
              Hstage Hpanel Hevs) as (d & c' & E' & Hs & Hp).
  eexists d0, _, d, c'. split; [exact E |]. split; [exact E' |]. split; assumption.
Qed.

(** X8.  The page never raises.  The script runs to its end, and then,
    whatever the user does with the controls it built and however many
    frames are drawn, no callback raises: nothing reaches the console. *)
Theorem page_never_raises (now : float) (c : nat) (evs : list event) :
  Forall (on_page Math_sin) evs ->
  exists d0 c0 d c',
    Main now c = Returns (d0, c0) /\ Play evs d0 c0 = ([], d, c').
Proof.
  intros Hevs. destruct (main_play now c evs Hevs) as (d0 & c0 & d & c' & E & E' & _).
  eauto 6.
Qed.

(** X9.  One engine on stage.  After any events the scene holds the
    points of exactly one engine, the one the driver updates, and that
    engine was not disposed; every engine constructed before it was let go
    of and disposed, geometry and material. *)
Theorem one_engine_on_stage (now : float) (c : nat) (evs : list event) :
  Forall (on_page Math_sin) evs ->
  exists d0 c0 d c',
    Main now c = Returns (d0, c0) /\ Play evs d0 c0 = ([], d, c') /\
    points_of (scene d) = [fst (particleSystem d)] /\
    geometry (snd (particleSystem d)) = THREE.Live /\
    material (snd (particleSystem d)) = THREE.Live /\
    length (released d) + 1 = constructed d /\
    map fst (released d) ++ [fst (particleSystem d)] = seq 0 (constructed d) /\
    forall r, In r (released d) ->
      geometry (snd r) = THREE.Disposed /\ material (snd r) = THREE.Disposed.
Proof.
  intros Hevs.
  destruct (main_play now c evs Hevs)
    as (d0 & c0 & d & c' & E & E' & (_ & Hg & Hm & Hscene & Hrel & Hids & _) & _).
  exists d0, c0, d, c'. splits; try assumption.
  - apply (f_equal length) in Hids.
    rewrite length_app, length_map, length_seq in Hids. exact Hids.
  - intros r Hr. exact (proj1 (List.Forall_forall _ _) Hrel r Hr).
Qed.

(** X10.  After any events, the page (when it has the element) shows the
    number of points of the engine the driver updates, and the engine and
    the folder of sliders have a value for each parameter of the field
    that the settings name, and for no other key. *)
Theorem panel_matches_engine (now : float) (c : nat) (evs : list event) :
  Forall (on_page Math_sin) evs ->
  exists d0 c0 d c' f,
    Main now c = Returns (d0, c0) /\ Play evs d0 c0 = ([], d, c') /\
    (countEl document = true ->
     particles_count (texts d)
     = Some (particleCount (snd (particleSystem d))
             * trailLength (snd (particleSystem d)))) /\
    own_property (attractors Math_sin) (Settings.attractor (settings d))
    = Some (currentAttractor (snd (particleSystem d))) /\
    map fst (currentParams (snd (particleSystem d)))
    = map fst (params (currentAttractor (snd (particleSystem d)))) /\
    paramFolder d = Some f /\ destroyed f = false /\
    map ctl_key (controllers f)
    = map fst (params (currentAttractor (snd (particleSystem d)))) /\
    map fst (folder_params f)
    = map fst (params (currentAttractor (snd (particleSystem d)))).
Proof.
  intros Hevs.
  destruct (main_play now c evs Hevs)
    as (d0 & c0 & d & c' & E & E' & _
        & (Hattr & _ & Hkeys & (f & Hf & Hlive & Hctl & Hfp) & Hcount)).
  exists d0, c0, d, c', f. splits; assumption.
Qed.
End Shipped.

Lemma page_never_raises_witness :
  exists d0 c0 d c',
    main (fun v => v) draws_centre all_red whole_page 0 0 = Returns (d0, c0) /\
    play (fun v => v) draws_centre all_red whole_page
      [AnimationFrame 16; ParamSlid "rho" 30; TrailSlid 20; TrailFinished;
       AttractorSelected "thomas"; ColorEndPicked "#ffffff"; AnimationFrame 33]
      d0 c0 = ([], d, c').
Proof.
  apply page_never_raises.
  repeat (apply List.Forall_cons; [cbn; try exact I; try lia; tauto |]).
  apply List.Forall_nil.
Defined.

Lemma one_engine_on_stage_witness :
  exists d0 c0 d c',
    main (fun v => v) draws_centre all_red whole_page 0 0 = Returns (d0, c0) /\
    play (fun v => v) draws_centre all_red whole_page
      [TrailSlid 20; TrailFinished; AttractorSelected "chen"; AnimationFrame 16]
      d0 c0 = ([], d, c') /\
    points_of (scene d) = [fst (particleSystem d)] /\
    length (released d) + 1 = constructed d.
Proof.
  edestruct (one_engine_on_stage (fun v => v) draws_centre all_red whole_page 0 0
               [TrailSlid 20; TrailFinished; AttractorSelected "chen";
                AnimationFrame 16])
    as (d0 & c0 & d & c' & E & E' & Hscene & _ & _ & Hn & _).
  - repeat (apply List.Forall_cons; [cbn; try exact I; try lia; tauto |]).
    apply List.Forall_nil.
  - exists d0, c0, d, c'. split; [exact E |]. split; [exact E' |].
    split; [exact Hscene | exact Hn].
Defined.

Lemma panel_matches_engine_witness :
  exists d0 c0 d c',
    main (fun v => v) draws_centre all_red whole_page 0 0 = Returns (d0, c0) /\
    play (fun v => v) draws_centre all_red whole_page
      [ParamSlid "sigma" 12; TrailSlid 20; TrailFinished] d0 c0 = ([], d, c') /\
    particles_count (texts d)
    = Some (particleCount (snd (particleSystem d))
            * trailLength (snd (particleSystem d))).
Proof.
  edestruct (panel_matches_engine (fun v => v) draws_centre all_red whole_page 0 0
               [ParamSlid "sigma" 12; TrailSlid 20; TrailFinished])
    as (d0 & c0 & d & c' & f & E & E' & Hcount & _).
  - repeat (apply List.Forall_cons; [cbn; try exact I; try lia; tauto |]).
    apply List.Forall_nil.
  - exists d0, c0, d, c'. split; [exact E |]. split; [exact E' |].
    apply Hcount. reflexivity.
Defined.

(** ** Sliders, frames and unknown fields *)

Lemma property_assign {A : Type} (o : list (string * A)) (key : string) (v : A) :
  property (assign o key v) key = Some v.
Proof.
  induction o as [|[k a] o IH]; cbn.
  - rewrite String.eqb_refl. reflexivity.
  - destruct (String.eqb_spec k key) as [->|N]; cbn.
    + rewrite String.eqb_refl. reflexivity.
    + destruct (String.eqb_spec k key) as [->|_]; [contradiction | exact IH].
Qed.

Section Moves.
Variable Math_sin : float -> float.
Variable Math_random : nat -> float.
Variable THREE_Color : string -> THREE.Color.
Variable document : Document.

Local Abbreviation Main := (main Math_sin Math_random THREE_Color document).
Local Abbreviation Dispatch := (dispatch Math_sin Math_random THREE_Color document).
Local Abbreviation Play := (play Math_sin Math_random THREE_Color document).
Local Abbreviation Panel := (panel_invariant Math_sin document).

(** The page after the script and some events of the page. *)
Lemma main_played (now : float) (c c0 c1 : nat) (evs : list event)
    (d0 d : Driver) (console : list error) :
  Main now c = Returns (d0, c0) -> Play evs d0 c0 = (console, d, c1) ->
  Forall (on_page Math_sin) evs ->
  console = [] /\ stage_invariant d /\ Panel d.
Proof.
  intros E E' Hevs.
  destruct (main_play Math_sin Math_random THREE_Color document now c evs Hevs)
    as (d0' & c0' & d' & c1' & E0 & E1 & Hstage & Hpanel).
  rewrite E in E0. injection E0 as <- <-. rewrite E' in E1.
  injection E1 as -> -> ->. split; [reflexivity |]. split; assumption.
Qed.

(** X11.  A new engine forgets the sliders.  When a parameter slider is
    moved, the engine gets the parameters of the folder, the new value
    among them.  When the number of particles (or the trail length) is
    then changed, [recreateParticleSystem] gives the new engine the
    defaults of the field and leaves the folder as it is: the slider still
    shows the value that was set, and the engine no longer uses it. *)
Theorem recreate_forgets_sliders (now : float) (c c0 c1 : nat) (evs : list event)
    (d0 d : Driver) (console : list error) (f : Folder) (key : string)
    (value : float) :
  Main now c = Returns (d0, c0) -> Play evs d0 c0 = (console, d, c1) ->
  Forall (on_page Math_sin) evs ->
  paramFolder d = Some f -> has_slider f key = true ->
  exists d1 d2 c2,
    Dispatch (ParamSlid key value) d c1 = (Returns tt, d1, c1) /\
    currentParams (snd (particleSystem d1)) = assign (folder_params f) key value /\
    property (currentParams (snd (particleSystem d1))) key = Some value /\
    Dispatch CountFinished d1 c1 = (Returns tt, d2, c2) /\
    paramFolder d2
    = Some {| folder_params := assign (folder_params f) key value;
              controllers := controllers f; destroyed := destroyed f |} /\
    currentAttractor (snd (particleSystem d2))
    = currentAttractor (snd (particleSystem d)) /\
    currentParams (snd (particleSystem d2))
    = params (currentAttractor (snd (particleSystem d))).
Proof.
  intros E E' Hevs Hf Hs.
  destruct (main_played now c c0 c1 evs d0 d console E E' Hevs)
    as (_ & Hstage & Hpanel).
  destruct (dispatch_keeps Math_sin Math_random THREE_Color document
              (ParamSlid key value) d c1 Hstage Hpanel I)
    as (d1 & c1' & E1 & Hstage1 & Hpanel1).
  assert (Dispatch (ParamSlid key value) d c1
          = (Returns tt,
             set_particleSystem
               (fst (particleSystem d),
                setParams (assign (folder_params f) key value)
                  (snd (particleSystem d)))
               (set_paramFolder
                  (Some {| folder_params := assign (folder_params f) key value;
                           controllers := controllers f;
                           destroyed := destroyed f |}) d), c1)) as E1'.
  { cbn [dispatch]. rewrite bind_read, Hf, Hs, bind_write.
    unfold onParamChange. rewrite bind_read. reflexivity. }
  rewrite E1' in E1. injection E1 as <- <-.
  pose proof Hpanel1 as (Hattr1 & HT1 & _).
  destruct (recreate_returns Math_sin Math_random THREE_Color document _ c1 _
              Hstage1 Hattr1 HT1)
    as (s & d2 & _ & E2 & _ & _ & Hfolder & _ & _ & _ & _ & _ & _ & Hps & _ & _
        & Hsa & Hsp & _).
  eexists _, d2, _. split; [exact E1' |].
  cbn [particleSystem set_particleSystem set_paramFolder snd fst currentParams
       setParams].
  split; [reflexivity |]. split; [apply property_assign |].
  split; [exact E2 |]. rewrite Hfolder, Hps. cbn [snd].
  split; [reflexivity |]. split; [exact Hsa |]. rewrite Hsp. reflexivity.
Qed.

(** X12.  An identifier that is not in the catalog.  Were the [Type] list
    to give one, its callback would raise a TypeError where it reads the
    camera position (at [attractors[value].cameraPosition] for a value that
    reads [undefined], at [pos[0]] for a name of [Object.prototype]), after
    the folder of sliders was destroyed and before anything else: the
    engine, the scene, the camera and the texts are as they were, and no
    number was drawn. *)
Theorem unknown_attractor_selected (now : float) (c : nat) (evs : list event)
    (value : string) :
  Forall (on_page Math_sin) evs ->
  ~ In value (attractorNames Math_sin) ->
  exists d0 c0 d c1 f d',
    Main now c = Returns (d0, c0) /\ Play evs d0 c0 = ([], d, c1) /\
    paramFolder d = Some f /\
    Dispatch (AttractorSelected value) d c1 = (Throws TypeError, d', c1) /\
    paramFolder d'
    = Some {| folder_params := folder_params f; controllers := controllers f;
              destroyed := true |} /\
    Settings.attractor (settings d') = value /\
    particleSystem d' = particleSystem d /\ scene d' = scene d /\
    released d' = released d /\ view d' = view d /\ texts d' = texts d.
Proof.
  intros Hevs Hvalue.
  destruct (main_play Math_sin Math_random THREE_Color document now c evs Hevs)
    as (d0 & c0 & d & c1 & E & E' & Hstage & Hpanel).
  pose proof Hpanel as (_ & _ & _ & (f & Hf & _) & _).
  exists d0, c0, d, c1, f. eexists. split; [exact E |]. split; [exact E' |].
  split; [exact Hf |].
  cbn [dispatch]. rewrite bind_write. unfold onAttractorChange.
  rewrite bind_read. cbn [paramFolder set_settings]. rewrite Hf.
  rewrite DM_bind_run. unfold write at 1. cbv beta iota.
  unfold lookup. rewrite (own_property_none _ _ Hvalue).
  assert (descriptor (if inherits value then Inherited value else Undefined) = None)
    as -> by (destruct (inherits value); reflexivity).
  rewrite DM_bind_run. unfold defined at 1. cbv beta iota.
  split; [reflexivity |]. repeat split.
Qed.

(** One frame on a page in order. *)
Lemma frame_run (d : Driver) (c : nat) (now : float) :
  stage_invariant d -> Panel d ->
  exists d' c',
    Dispatch (AnimationFrame now) d c = (Returns tt, d', c') /\
    stage_invariant d' /\ Panel d' /\
    if (1000 <=? now - lastTime d)%float
    then frameCount d' = 0 /\ lastTime d' = now /\
         fps (texts d')
         = (if fpsEl document then Some (S (frameCount d)) else fps (texts d))
    else frameCount d' = S (frameCount d) /\ lastTime d' = lastTime d /\
         fps (texts d') = fps (texts d).
Proof.
  intros Hstage Hpanel.
  destruct (dispatch_keeps Math_sin Math_random THREE_Color document
              (AnimationFrame now) d c Hstage Hpanel I)
    as (d' & c' & E & Hstage' & Hpanel').
  exists d', c'. split; [exact E |]. split; [exact Hstage' |].
  split; [exact Hpanel' |].
  cbn [dispatch] in E. unfold animate in E.
  pose proof Hstage as (_ & _ & _ & _ & _ & _ & Hflag).
  rewrite !bind_read, Hflag, DM_bind_run in E. cbn [andb] in E.
  unfold on_engine in E.
  destruct (update Math_random _ _ c) as [[s1 c1]|e]; [| discriminate E].
  unfold updateFPS, write in E.
  cbn [lastTime set_frameCount frameCount set_particleSystem texts] in E.
  destruct (1000 <=? now - lastTime d)%float eqn:Hcmp; rewrite ?Hcmp in E.
  - destruct (fpsEl document); injection E as <- _; repeat split.
  - injection E as <- _. repeat split.
Qed.

(** X13.  The frame counter.  When frames are drawn at times that are
    less than a second after [lastTime], and then one at a time [now] that
    is a second or more after it, the page (when it has the element)
    shows the number of frames counted before plus the number of these
    frames, the last included; the count starts again from 0 and
    [lastTime] is [now]. *)
Theorem fps_counts_frames (start : float) (c c0 c1 : nat) (evs : list event)
    (d0 d : Driver) (console : list error) (times : list float) (now : float) :
  Main start c = Returns (d0, c0) -> Play evs d0 c0 = (console, d, c1) ->
  Forall (on_page Math_sin) evs ->
  Forall (fun t => (1000 <=? t - lastTime d)%float = false) times ->
  (1000 <=? now - lastTime d)%float = true ->
  exists d' c',
    Play (AnimationFrame <$> times ++ [now]) d c1 = ([], d', c') /\
    frameCount d' = 0 /\ lastTime d' = now /\
    fps (texts d')
    = (if fpsEl document then Some (frameCount d + length times + 1)
       else fps (texts d)).
Proof.
  intros E E' Hevs.
  destruct (main_played start c c0 c1 evs d0 d console E E' Hevs)
    as (_ & Hstage & Hpanel).
  clear E E' Hevs. revert d c1 Hstage Hpanel.
  induction times as [|t times IH]; intros d c1 Hstage Hpanel Htimes Hnow.
  - destruct (frame_run d c1 now Hstage Hpanel) as (d' & c' & E & _ & _ & H).
    rewrite Hnow in H. destruct H as (H1 & H2 & H3).
    exists d', c'. cbn [app fmap list_fmap play]. rewrite E.
    split; [reflexivity |]. split; [exact H1 |]. split; [exact H2 |].
    rewrite H3. cbn [length]. rewrite Nat.add_0_r, Nat.add_1_r. reflexivity.
  - apply Forall_cons in Htimes as [Ht Htimes].
    destruct (frame_run d c1 t Hstage Hpanel) as (d1 & c2 & E & Hs1 & Hp1 & H).
    rewrite Ht in H. destruct H as (H1 & H2 & H3).
    destruct (IH d1 c2 Hs1 Hp1) as (d' & c' & E' & Hf & Hl & Hfps).
    { rewrite H2. exact Htimes. }
    { rewrite H2. exact Hnow. }
    exists d', c'. rewrite <- app_comm_cons, fmap_cons. cbn [play].
    rewrite E, E'. split; [reflexivity |]. split; [exact Hf |].
    split; [exact Hl |]. rewrite Hfps, H1, H3. cbn [length].
    destruct (fpsEl document); [f_equal; lia | reflexivity].
Qed.
End Moves.

Lemma recreate_forgets_sliders_witness :
  exists d0 c0 d1 d2 c2,
    main (fun v => v) draws_centre all_red whole_page 0 0 = Returns (d0, c0) /\
    dispatch (fun v => v) draws_centre all_red whole_page (ParamSlid "rho" 30) d0 c0
    = (Returns tt, d1, c0) /\
    property (currentParams (snd (particleSystem d1))) "rho" = Some 30%float /\
    dispatch (fun v => v) draws_centre all_red whole_page CountFinished d1 c0
    = (Returns tt, d2, c2) /\
    currentParams (snd (particleSystem d2)) = params lorenz.
Proof.
  destruct (script_returns (fun v => v) draws_centre all_red whole_page
              Settings.initial 0 0 lorenz eq_refl)
    as (d0 & s & E & Ec & _ & Hps & _ & _ & _ & (cs & Hcs & Hf) & _);
    [cbn [Settings.trailLength Settings.initial]; lia |].
  vm_compute in Hcs. injection Hcs as <-.
  destruct (recreate_forgets_sliders (fun v => v) draws_centre all_red whole_page
              0 0 _ _ [] d0 d0 [] _ "rho" 30 E eq_refl (List.Forall_nil _) Hf)
    as (d1 & d2 & c2 & E1 & _ & Hv & E2 & _ & _ & Hp); [vm_compute; reflexivity |].
  exists d0, (0 + Settings.particleCount Settings.initial * 3), d1, d2, c2.
  split; [exact E |]. split; [exact E1 |].
  split; [exact Hv |]. split; [exact E2 |].
  rewrite Hp, Hps. cbn [snd]. rewrite construct_seeded in Ec.
  injection Ec as <-. reflexivity.
Defined.

Lemma unknown_attractor_selected_witness :
  exists d0 c0 d',
    main (fun v => v) draws_centre all_red whole_page 0 0 = Returns (d0, c0) /\
    dispatch (fun v => v) draws_centre all_red whole_page
      (AttractorSelected "Lorenz") d0 c0 = (Throws TypeError, d', c0) /\
    particleSystem d' = particleSystem d0.
Proof.
  destruct (unknown_attractor_selected (fun v => v) draws_centre all_red whole_page
              0 0 [] "Lorenz" (List.Forall_nil _))
    as (d0 & c0 & d & c1 & f & d' & E & E' & _ & Ed & _ & _ & Hps & _).
  - cbn. intros H. repeat (destruct H as [H|H]; [discriminate H |]). exact H.
  - cbn in E'. injection E' as <- <-.
    exists d0, c0, d'. split; [exact E |]. split; [exact Ed | exact Hps].
Defined.

Lemma fps_counts_frames_witness :
  exists d0 c0 d' c',
    main (fun v => v) draws_centre all_red whole_page 0 0 = Returns (d0, c0) /\
    play (fun v => v) draws_centre all_red whole_page
      [AnimationFrame 16; AnimationFrame 33; AnimationFrame 999;
       AnimationFrame 1001] d0 c0 = ([], d', c') /\
    fps (texts d') = Some 4 /\ frameCount d' = 0.
Proof.
  destruct (script_returns (fun v => v) draws_centre all_red whole_page
              Settings.initial 0 0 lorenz eq_refl)
    as (d0 & s & E & _ & _ & _ & Hfc & Hlt & _);
    [cbn [Settings.trailLength Settings.initial]; lia |].
  destruct (fps_counts_frames (fun v => v) draws_centre all_red whole_page
              0 0 _ _ [] d0 d0 [] [16; 33; 999]%float 1001%float E eq_refl
              (List.Forall_nil _))
    as (d' & c' & E' & Hf & _ & Hfps).
  - rewrite Hlt. repeat (apply List.Forall_cons; [vm_compute; reflexivity |]).
    apply List.Forall_nil.
  - rewrite Hlt. vm_compute. reflexivity.
  - exists d0, (0 + Settings.particleCount Settings.initial * 3), d', c'.
    split; [exact E |]. split; [exact E' |].
    split; [| exact Hf]. rewrite Hfps, Hfc. reflexivity.
Defined.

(** ** Selecting a field, and its equations *)

Lemma own_property_key (o : list (string * Attractor)) (key : string)
    (a : Attractor) :
  own_property o key = Some a -> In key (map fst o).
Proof.
  induction o as [|[k a'] o IH]; cbn; [discriminate |].
  destruct (String.eqb_spec k key) as [->|N].
  - intros _. left. reflexivity.
  - intros H. right. apply IH, H.
Qed.

Section Selecting.
Variable Math_sin : float -> float.
Variable Math_random : nat -> float.
Variable THREE_Color : string -> THREE.Color.
Variable document : Document.

Local Abbreviation Main := (main Math_sin Math_random THREE_Color document).
Local Abbreviation Dispatch := (dispatch Math_sin Math_random THREE_Color document).
Local Abbreviation Play := (play Math_sin Math_random THREE_Color document).

(** X14.  Selecting a field of the catalog replaces the engine.  The
    callback lets go of the engine, disposed, and constructs a new one for
    the field, with the sizes and colours of the settings and the default
    parameters, from three draws for each particle ([setAttractor] is not
    what it calls); the camera is sent to the position of the field; and
    the folder of sliders is a new one, bound to a copy of the defaults,
    with a slider for each parameter. *)
Theorem attractor_selected (start : float) (c c0 c1 : nat) (evs : list event)
    (d0 d : Driver) (console : list error) (value : string) (a : Attractor) :
  Main start c = Returns (d0, c0) -> Play evs d0 c0 = (console, d, c1) ->
  Forall (on_page Math_sin) evs ->
  own_property (attractors Math_sin) value = Some a ->
  exists d' s cs,
    Dispatch (AttractorSelected value) d c1
    = (Returns tt, d', c1 + Settings.particleCount (settings d) * 3) /\
    construct Math_random a
      {| Options.particleCount := Settings.particleCount (settings d);
         Options.trailLength := Settings.trailLength (settings d);
         Options.colorStart := THREE_Color (Settings.colorStart (settings d));
         Options.colorEnd := THREE_Color (Settings.colorEnd (settings d)) |} c1
    = Returns (s, c1 + Settings.particleCount (settings d) * 3) /\
    particleSystem d' = (constructed d, s) /\
    released d'
    = released d ++ [(fst (particleSystem d), dispose (snd (particleSystem d)))] /\
    points_of (scene d') = [constructed d] /\
    currentAttractor s = a /\ currentParams s = params a /\
    Settings.attractor (settings d') = value /\
    camera_position (view d') = cameraPosition a /\
    paramFolder d'
    = Some {| folder_params := params a; controllers := cs; destroyed := false |} /\
    map ctl_key cs = map fst (params a).
Proof.
  intros E E' Hevs Ha.
  destruct (main_played Math_sin Math_random THREE_Color document start c c0 c1 evs
              d0 d console E E' Hevs) as (_ & Hstage & Hpanel).
  pose proof Hpanel as (_ & HT & _ & (f & Hf & _) & _).
  cbn [dispatch]. rewrite bind_write.
  destruct (onAttractorChange_returns Math_sin Math_random THREE_Color document
              (set_settings (Settings.set_attractor value (settings d)) d) c1 value a)
    as (d' & s & cs & Ed & Ec & Hset & Hps & Hrel & Hsa & Hsp & Hcam & Hcs & Hfolder
        & _ & _ & _ & _ & Hstage'); try assumption; try reflexivity.
  { exists f. exact Hf. }
  exists d', s, cs. split; [exact Ed |]. split; [exact Ec |].
  split; [exact Hps |].
  pose proof Hstage' as (_ & _ & _ & Hscene & _ & _).
  rewrite Hps in Hscene. cbn [fst] in Hscene.
  splits; try assumption.
  - rewrite Hset. reflexivity.
  - apply (controller_keys a), Hcs.
Qed.
End Selecting.

Lemma attractor_selected_witness :
  exists d0 c0 d' s,
    main (fun v => v) draws_centre all_red whole_page 0 0 = Returns (d0, c0) /\
    dispatch (fun v => v) draws_centre all_red whole_page
      (AttractorSelected "halvorsen") d0 c0
    = (Returns tt, d', c0 + Settings.particleCount (settings d0) * 3) /\
    particleSystem d' = (constructed d0, s) /\
    currentAttractor s = halvorsen /\
    camera_position (view d') = (30, 30, 30)%float.
Proof.
  destruct (script_returns (fun v => v) draws_centre all_red whole_page
              Settings.initial 0 0 lorenz eq_refl)
    as (d0 & s0 & E & _); [cbn [Settings.trailLength Settings.initial]; lia |].
  destruct (attractor_selected (fun v => v) draws_centre all_red whole_page
              0 0 _ _ [] d0 d0 [] "halvorsen" halvorsen E eq_refl
              (List.Forall_nil _) eq_refl)
    as (d' & s & cs & Ed & _ & Hps & _ & _ & Ha & _ & _ & Hcam & _).
  exists d0, (0 + Settings.particleCount Settings.initial * 3), d', s.
  split; [exact E |]. split; [exact Ed |]. split; [exact Hps |].
  split; [exact Ha | exact Hcam].
Defined.

Section Equations.
Variable Math_sin : float -> float.
Variable Math_random : nat -> float.
Variable THREE_Color : string -> THREE.Color.
Variable document : Document.

(** X15.  Every field has its equations.  [latexEquations] has an entry
    of three equations for each identifier of the catalog, and for no
    other key; so when the page has the element and KaTeX,
    [updateEquation] shows the three equations of the field the settings
    name, and the empty list that it falls back on is never shown. *)
Theorem equations_of_every_field (start : float) (c c0 c1 : nat)
    (evs : list event) (d0 d : Driver) (console : list error) :
  main Math_sin Math_random THREE_Color document start c = Returns (d0, c0) ->
  play Math_sin Math_random THREE_Color document evs d0 c0 = (console, d, c1) ->
  Forall (on_page Math_sin) evs ->
  eqEl document && katex document = true ->
  map fst latexEquations = attractorNames Math_sin /\
  exists d' e1 e2 e3,
    dispatch Math_sin Math_random THREE_Color document EquationTimer d c1
    = (Returns tt, d', c1) /\
    property latexEquations (Settings.attractor (settings d)) = Some [e1; e2; e3] /\
    equation (texts d') = Some [e1; e2; e3].
Proof.
  intros E E' Hevs Hel. split; [reflexivity |].
  destruct (main_played Math_sin Math_random THREE_Color document start c c0 c1 evs
              d0 d console E E' Hevs) as (_ & _ & (Hattr & _)).
  destruct (updateEquation_run document d c1
              (catalog_not_inherited Math_sin _ _ Hattr))
    as (t & Et & _ & _ & _ & Heq).
  apply own_property_key in Hattr.
  rewrite Hel in Heq.
  assert (exists e1 e2 e3,
            property latexEquations (Settings.attractor (settings d))
            = Some [e1; e2; e3]) as (e1 & e2 & e3 & Hp).
  { cbn [attractors map fst] in Hattr.
    repeat (destruct Hattr as [<-|Hattr]; [do 3 eexists; reflexivity |]).
    contradiction. }
  exists (set_texts t d), e1, e2, e3. cbn [dispatch].
  split; [exact Et |]. split; [exact Hp |].
  cbn [texts set_texts]. rewrite Heq, Hp. reflexivity.
Qed.

(** X16.  A step function reads the parameters of its field and no
    other: for every field of the catalog, two parameter objects that
    agree on the keys of the field's defaults give the same step. *)
Theorem step_reads_declared_params (a : Attractor) (p p' : AttractorParams)
    (x y z h : float) :
  In a (map snd (attractors Math_sin)) ->
  (forall key, In key (map fst (params a)) -> param p key = param p' key) ->
  step a x y z p h = step a x y z p' h.
Proof.
  cbn [attractors map snd In]. intros Hin H.
  repeat (destruct Hin as [<-|Hin];
          [cbn [params map fst lorenz thomas dadras rossler aizawa chen halvorsen
                sprott] in H;
           cbn [step lorenz thomas dadras rossler aizawa chen halvorsen sprott];
           repeat match goal with
                  | |- context [param p ?k] => rewrite (H k) by (cbn; tauto)
                  end;
           reflexivity |]).
  contradiction.
Qed.
End Equations.

Lemma equations_of_every_field_witness :
  exists d0 c0 d',
    main (fun v => v) draws_centre all_red whole_page 0 0 = Returns (d0, c0) /\
    dispatch (fun v => v) draws_centre all_red whole_page EquationTimer d0 c0
    = (Returns tt, d', c0) /\
    equation (texts d')
    = Some ["\frac{dx}{dt} = \sigma(y - x)"; "\frac{dy}{dt} = x(\rho - z) - y";
            "\frac{dz}{dt} = xy - \beta z"]%string.
Proof.
  destruct (script_returns (fun v => v) draws_centre all_red whole_page
              Settings.initial 0 0 lorenz eq_refl)
    as (d0 & s0 & E & _ & Hset & _);
    [cbn [Settings.trailLength Settings.initial]; lia |].
  destruct (equations_of_every_field (fun v => v) draws_centre all_red whole_page
              0 0 _ _ [] d0 d0 [] E eq_refl (List.Forall_nil _) eq_refl)
    as (_ & d' & e1 & e2 & e3 & Ed & Hp & Heq).
  exists d0, (0 + Settings.particleCount Settings.initial * 3), d'.
  split; [exact E |]. split; [exact Ed |].
  rewrite Hset in Hp. cbn in Hp. rewrite Heq, Hp. reflexivity.
Defined.

Lemma step_reads_declared_params_witness :
  step lorenz 1 1 26 (params lorenz) 0.005
  = step lorenz 1 1 26
      ([("gamma", 7); ("sigma", 10); ("rho", 28); ("beta", 8 / 3)]%string%float)
      0.005.
Proof.
  apply (step_reads_declared_params (fun v => v)).
  - left. reflexivity.
  - intros key Hkey. cbn in Hkey.
    repeat (destruct Hkey as [<-|Hkey]; [reflexivity |]). contradiction.
Defined.


(** ** Colours, and the symmetry of two fields *)

Section Colours.
Variable Math_random : nat -> float.

Lemma repack_colours (x : ParticleSystem) :
  colours_in_step (repack x) /\
  colorStart (repack x) = colorStart x /\ colorEnd (repack x) = colorEnd x.
Proof. repeat split. Qed.

(** A call other than [setColors] leaves the two colours as they are, and
    a colour buffer that is in step with them as it is. *)
Lemma exec_keeps_colours (o : Options.ParticleSystemOptions)
    (s s' : ParticleSystem) (cl : call) (c c' : nat) :
  engine_invariant o s -> keeps_colours cl ->
  exec Math_random cl s c = Returns (s', c') ->
  colorStart s' = colorStart s /\ colorEnd s' = colorEnd s /\
  (colours_in_step s -> colors s' = colors s /\ colours_in_step s').
Proof.
  intros Hinv Hcl E.
  pose proof (exec_invariant _ _ _ _ _ _ _ Hinv E) as Hinv'.
  assert (particleCount s' = particleCount s /\ trailLength s' = trailLength s)
    as [HP HT].
  { destruct Hinv as (_ & HP & HT & _), Hinv' as (_ & HP' & HT' & _).
    split; congruence. }
  assert (forall x : ParticleSystem,
            particleCount x = particleCount s -> trailLength x = trailLength s ->
            colorStart x = colorStart s -> colorEnd x = colorEnd s ->
            colours_in_step s -> colors (repack x) = colors s) as Hrepack.
  { intros x HPx HTx Hcs Hce Hstep. rewrite Hstep. fields. rewrite HPx, HTx.
    apply tabulate_ext. intros m _. unfold color_cell, trail_color.
    rewrite HTx, Hcs, Hce. reflexivity. }
  destruct cl as [speed|f|p|k1 k2|]; cbn [exec keeps_colours] in *;
    try contradiction.
  - destruct (Nat.eq_dec (Options.trailLength o) 0) as [T0|NT].
    + destruct Hinv as (Hwf & HPo & HTo & _).
      destruct (Nat.eq_dec (particleCount s) 0) as [P0|NP].
      * rewrite update_no_particles in E by exact P0. injection E as <- _.
        repeat split. exact H.
      * rewrite update_empty_ring in E; [discriminate E | | lia].
        destruct Hwf as (_ & _ & _ & Hl & _). apply length_zero_iff_nil. lia.
    + destruct (invariant_index o s Hinv) as (k & a & Hk & Hlt & Ha); [lia |].
      destruct Hinv as (Hwf & _).
      destruct (update_advanced Math_random s speed c k a Hwf Hk Hlt Ha)
        as (ring & b & c1 & E1 & _).
      rewrite E1 in E. injection E as <- _.
      split; [reflexivity |]. split; [reflexivity |]. intros Hstep.
      split; [apply Hrepack; [reflexivity .. | exact Hstep] | apply repack_colours].
  - destruct Hinv as (Hwf & _). unfold setAttractor in E.
    rewrite initializeParticles_seeded in E by exact Hwf. injection E as <- _.
    split; [reflexivity |]. split; [reflexivity |]. intros Hstep.
    split; [apply Hrepack; [reflexivity .. | exact Hstep] | apply repack_colours].
  - injection E as <- _. repeat split. exact H.
  - injection E as <- _. repeat split. exact H.
Qed.

(** X17.  The colours are repainted, not changed.  On an engine that has
    been updated once, calls other than [setColors] (other updates, a new
    field, new parameters, [dispose]) leave the colour buffer, the size
    buffer and the two colours as they are: every frame writes in these two
    buffers the numbers they hold. *)
Theorem colours_are_static (attractor : Attractor)
    (o : Options.ParticleSystemOptions) (cs calls : list call) (c0 c c1 c2 : nat)
    (s s1 s2 : ParticleSystem) (speed : float) :
  session Math_random attractor o cs c0 = Returns (s, c) ->
  update Math_random speed s c = Returns (s1, c1) ->
  Forall keeps_colours calls ->
  run Math_random calls s1 c1 = Returns (s2, c2) ->
  colors s2 = colors s1 /\ sizes s2 = sizes s1 /\
  colorStart s2 = colorStart s /\ colorEnd s2 = colorEnd s.
Proof.
  intros Hs E1 Hcalls E2.
  pose proof (session_invariant _ _ _ _ _ _ _ Hs) as Hinv.
  pose proof (update_invariant _ _ _ _ _ _ _ Hinv E1) as Hinv1.
  destruct (exec_keeps_colours o s s1 (Update speed) c c1 Hinv I E1)
    as (Hcs1 & Hce1 & _).
  assert (colours_in_step s1) as Hstep1.
  { destruct (Nat.eq_dec (Options.trailLength o) 0) as [T0|NT].
    - destruct Hinv1 as ((_ & Hc & _) & _ & HT & _).
      unfold colours_in_step. rewrite HT, T0, Nat.mul_0_r in *.
      apply length_zero_iff_nil in Hc. rewrite Hc. reflexivity.
    - destruct (invariant_index o s Hinv) as (k & a & Hk & Hlt & Ha); [lia |].
      destruct Hinv as (Hwf & _).
      destruct (update_advanced Math_random s speed c k a Hwf Hk Hlt Ha)
        as (ring & b & c1' & E1' & _).
      rewrite E1' in E1. injection E1 as <- _. apply repack_colours. }
  rewrite <- Hcs1, <- Hce1. clear Hs E1 Hcs1 Hce1 Hinv.
  revert s1 c1 Hinv1 Hstep1 E2.
  induction calls as [|cl calls IH]; intros s1 c1 Hinv1 Hstep1 E2.
  - cbn in E2. injection E2 as <- _. repeat split.
  - apply Forall_cons in Hcalls as [Hcl Hcalls].
    cbn [run] in E2. unfold mbind, M_bind in E2.
    destruct (exec Math_random cl s1 c1) as [[s' c']|e] eqn:E; [| discriminate E2].
    pose proof (exec_invariant _ _ _ _ _ _ _ Hinv1 E) as Hinv'.
    destruct (exec_keeps_colours o s1 s' cl c1 c' Hinv1 Hcl E)
      as (Hcs & Hce & Hcol).
    destruct (Hcol Hstep1) as [Hcolors Hstep'].
    destruct (IH Hcalls s' c' Hinv' Hstep' E2) as (H1 & H2 & H3 & H4).
    splits; try congruence.
    rewrite H2.
    destruct Hinv1 as (_ & HP1 & HT1 & ->), Hinv' as (_ & HP' & HT' & ->).
    rewrite HP1, HT1, HP', HT'. apply tabulate_ext. intros m _.
    unfold size_cell, trail_size. rewrite HT1, HT'. reflexivity.
Qed.
End Colours.

Lemma colours_are_static_witness :
  exists s s1 s2,
    session draws_centre lorenz (options 2 3) [SetColors blue red] 0 = Returns (s, 6) /\
    update draws_centre 1 s 6 = Returns (s1, 6) /\
    run draws_centre [Update 2%float; SetAttractor halvorsen; SetParams []] s1 6
    = Returns (s2, 12) /\
    colors s2 = colors s1 /\ sizes s2 = sizes s1.
Proof.
  evar (s : ParticleSystem). evar (s1 : ParticleSystem). evar (s2 : ParticleSystem).
  assert (session draws_centre lorenz (options 2 3) [SetColors blue red] 0
          = Returns (s, 6)) as Hs by (subst s; vm_compute; reflexivity).
  assert (update draws_centre 1 s 6 = Returns (s1, 6)) as E1
    by (subst s1; vm_compute; reflexivity).
  assert (run draws_centre [Update 2%float; SetAttractor halvorsen; SetParams []]
            s1 6 = Returns (s2, 12)) as E2 by (subst s2; vm_compute; reflexivity).
  destruct (colours_are_static draws_centre lorenz (options 2 3)
              [SetColors blue red]
              [Update 2%float; SetAttractor halvorsen; SetParams []] 0 6 6 12
              s s1 s2 1%float Hs E1) as (Hc & Hz & _).
  - repeat (apply List.Forall_cons; [exact I |]). apply List.Forall_nil.
  - exact E2.
  - exists s, s1, s2. split; [exact Hs |]. split; [exact E1 |].
    split; [exact E2 |]. split; [exact Hc | exact Hz].
Defined.

(** X18.  Two of the fields are cyclically symmetric, as their
    descriptions say, and so are their step functions, to the last bit:
    for Thomas and for Halvorsen, the step from [(y, z, x)] is the step
    from [(x, y, z)] with its coordinates moved round in the same way. *)
Theorem cyclic_symmetry (Math_sin : float -> float) (a : Attractor)
    (x y z h : float) (p : AttractorParams) :
  a = thomas Math_sin \/ a = halvorsen ->
  step a y z x p h
  = (let '(nx, ny, nz) := step a x y z p h in (ny, nz, nx)).
Proof.
  intros [-> | ->]; reflexivity.
Qed.

Lemma cyclic_symmetry_witness :
  step halvorsen 2 3 1 (params halvorsen) 0.005
  = (let '(nx, ny, nz) := step halvorsen 1 2 3 (params halvorsen) 0.005 in
     (ny, nz, nx)).
Proof.
  apply (cyclic_symmetry (fun v => v)). right. reflexivity.
Defined.

(** ** The page at load *)

Section Loading.
Variable Math_sin : float -> float.
Variable Math_random : nat -> float.
Variable THREE_Color : string -> THREE.Color.
Variable document : Document.

(** X19.  The page at load.  The script constructs a Lorenz engine of
    5000 particles with trails of 50 slots, from 15000 draws, with the
    colours of the settings; it puts its points and then the axes in the
    scene, sends the camera to (60, 60, 60), writes the description of
    Lorenz and the number of points, 250000, where the page has the
    elements, and builds the three sliders [sigma], [rho] and [beta] on a
    copy of the default parameters.  No frame is counted yet. *)
Theorem page_at_load (now : float) (c : nat) :
  exists d s,
    main Math_sin Math_random THREE_Color document now c
    = Returns (d, c + 5000 * 3) /\
    construct Math_random lorenz
      {| Options.particleCount := 5000; Options.trailLength := 50;
         Options.colorStart := THREE_Color "#6366f1";
         Options.colorEnd := THREE_Color "#ec4899" |} c
    = Returns (s, c + 5000 * 3) /\
    particleSystem d = (0, s) /\ constructed d = 1 /\ released d = [] /\
    scene d = [Points 0; AxesGroup] /\
    settings d = Settings.initial /\
    camera_position (view d) = (60, 60, 60)%float /\
    getParticleCount s = 5000 * 50 /\
    particles_count (texts d)
    = (if countEl document then Some (5000 * 50) else None) /\
    description (texts d) = (if descEl document then Some lorenz else None) /\
    equation (texts d) = None /\ fps (texts d) = None /\
    frameCount d = 0 /\ lastTime d = now /\
    paramFolder d
    = Some {| folder_params := [("sigma", 10); ("rho", 28); ("beta", 8 / 3)]%string%float;
              controllers :=
                [{| ctl_key := "sigma"; ctl_min := 0; ctl_max := 20; ctl_step := 0.1 |};
                 {| ctl_key := "rho"; ctl_min := 0; ctl_max := 50; ctl_step := 0.1 |};
                 {| ctl_key := "beta"; ctl_min := 0; ctl_max := 10; ctl_step := 0.01 |}];
              destroyed := false |}.
Proof.
  destruct (script_returns Math_sin Math_random THREE_Color document
              Settings.initial now c lorenz eq_refl)
    as (d & s & E & Ec & Hset & Hps & Hfc & Hlt & Hcam & (cs & Hcs & Hf) & _ & _
        & Hcons & Hrel & Hscene & Hdesc & Hcount & Heq & Hfps).
  { cbn [Settings.trailLength Settings.initial]. lia. }
  vm_compute in Hcs. injection Hcs as <-.
  assert (getParticleCount s = 5000 * 50) as Hn.
  { pose proof (construct_invariant _ _ _ _ _ _ Ec) as (_ & HP & HT & _).
    unfold getParticleCount. rewrite HP, HT. reflexivity. }
  exists d, s. split; [exact E |]. split; [exact Ec |].
  rewrite <- Hn, Hcount. splits; try assumption; reflexivity.
Qed.
End Loading.

(** ** The colours and the description follow the settings *)

Section Palette.
Variable Math_sin : float -> float.
Variable Math_random : nat -> float.
Variable THREE_Color : string -> THREE.Color.
Variable document : Document.

Local Abbreviation Main := (main Math_sin Math_random THREE_Color document).
Local Abbreviation Dispatch := (dispatch Math_sin Math_random THREE_Color document).
Local Abbreviation Play := (play Math_sin Math_random THREE_Color document).
Local Abbreviation Panel := (panel_invariant Math_sin document).
Local Abbreviation Palette := (palette_invariant THREE_Color document).

(** A constructed engine has the colours and the field it was given. *)
Lemma construct_colours (a : Attractor) (o : Options.ParticleSystemOptions)
    (c c' : nat) (s : ParticleSystem) :
  construct Math_random a o c = Returns (s, c') ->
  colorStart s = Options.colorStart o /\ colorEnd s = Options.colorEnd o /\
  currentAttractor s = a.
Proof.
  rewrite construct_seeded. intros [= <- _]. repeat split.
Qed.

Lemma dispatch_palette (ev : event) (d d' : Driver) (c c' : nat) :
  stage_invariant d -> Panel d -> Palette d -> on_page Math_sin ev ->
  Dispatch ev d c = (Returns tt, d', c') -> Palette d'.
Proof.
  intros Hstage Hpanel (Hcs & Hce & Hdesc) Hev E.
  pose proof Hstage as ([o [Hinv H1]] & _).
  pose proof Hpanel as (Hattr & HT & _ & (f & Hf & _) & _).
  destruct ev as [value|key value|value|value|value|value| |value| |value|value| | |now];
    cbn [dispatch on_page] in *.
  - (* AttractorSelected *)
    destruct (own_property_in (attractors Math_sin) value Hev) as (a & Ha & _).
    rewrite bind_write in E.
    destruct (onAttractorChange_returns Math_sin Math_random THREE_Color document
                (set_settings (Settings.set_attractor value (settings d)) d)
                c value a)
      as (d2 & s & cs & E2 & Ec & Hset & Hps & _ & Hsa & _ & _ & _ & _ & _ & Hd2 & _);
      try assumption; try reflexivity.
    { exists f. exact Hf. }
    rewrite E2 in E. injection E as <- _.
    destruct (construct_colours _ _ _ _ _ Ec) as (Hs1 & Hs2 & _).
    unfold palette_invariant. rewrite Hps, Hset. cbn [snd].
    split; [exact Hs1 |]. split; [exact Hs2 |].
    intros Hel. rewrite Hd2, Hel, Hsa. reflexivity.
  - (* ParamSlid *)
    rewrite bind_read, Hf in E. destruct (has_slider f key).
    + rewrite bind_write in E. unfold onParamChange in E. rewrite bind_read in E.
      cbv in E. injection E as <- _. unfold palette_invariant. cbn. auto.
    + injection E as <- _. unfold palette_invariant. auto.
  - injection E as <- _. unfold palette_invariant. cbn. auto.
  - (* ColorStartPicked *)
    rewrite bind_write in E. unfold onColorChange in E. rewrite bind_read in E.
    unfold on_engine in E. cbn [mret M_ret] in E. injection E as <- _.
    unfold palette_invariant. cbn. auto.
  - (* ColorEndPicked *)
    rewrite bind_write in E. unfold onColorChange in E. rewrite bind_read in E.
    unfold on_engine in E. cbn [mret M_ret] in E. injection E as <- _.
    unfold palette_invariant. cbn. auto.
  - injection E as <- _. unfold palette_invariant. cbn. auto.
  - (* CountFinished *)
    destruct (recreate_returns Math_sin Math_random THREE_Color document d c _
                Hstage Hattr HT)
      as (s & d2 & Ec & E2 & Hset & _ & _ & _ & _ & Hd2 & _ & _ & _ & Hps & _ & _
          & Hsa & _).
    rewrite E2 in E. injection E as <- _.
    destruct (construct_colours _ _ _ _ _ Ec) as (Hs1 & Hs2 & _).
    unfold palette_invariant. rewrite Hps, Hset. cbn [snd].
    split; [exact Hs1 |]. split; [exact Hs2 |].
    intros Hel. rewrite Hd2, Hsa. exact (Hdesc Hel).
  - injection E as <- _. unfold palette_invariant. cbn. auto.
  - (* TrailFinished *)
    destruct (recreate_returns Math_sin Math_random THREE_Color document d c _
                Hstage Hattr HT)
      as (s & d2 & Ec & E2 & Hset & _ & _ & _ & _ & Hd2 & _ & _ & _ & Hps & _ & _
          & Hsa & _).
    rewrite E2 in E. injection E as <- _.
    destruct (construct_colours _ _ _ _ _ Ec) as (Hs1 & Hs2 & _).
    unfold palette_invariant. rewrite Hps, Hset. cbn [snd].
    split; [exact Hs1 |]. split; [exact Hs2 |].
    intros Hel. rewrite Hd2, Hsa. exact (Hdesc Hel).
  - rewrite bind_write in E. injection E as <- _. unfold palette_invariant. cbn. auto.
  - rewrite bind_write in E. injection E as <- _. unfold palette_invariant. cbn. auto.
  - (* ResetClicked *)
    unfold reset in E. rewrite bind_read, (lookup_own _ _ _ Hattr) in E.
    cbn [descriptor] in E. rewrite bind_defined in E.
    injection E as <- _. unfold palette_invariant. cbn. auto.
  - (* EquationTimer *)
    destruct (updateEquation_run document d c
                (catalog_not_inherited Math_sin _ _ Hattr)) as (t & Et & _ & Hd & _).
    rewrite Et in E. injection E as <- _.
    unfold palette_invariant. cbn [particleSystem settings texts set_texts].
    rewrite Hd. auto.
  - (* AnimationFrame *)
    unfold animate in E.
    pose proof Hstage as (_ & _ & _ & _ & _ & _ & Hflag).
    rewrite !bind_read, Hflag, DM_bind_run in E. cbn [andb] in E.
    unfold on_engine in E.
    destruct (update Math_random (Settings.speed (settings d))
                (snd (particleSystem d)) c) as [[s1 c1]|e] eqn:Eu;
      [| discriminate E].
    destruct (exec_keeps_colours Math_random o _ s1 (Update _) c c1 Hinv I Eu)
      as (Hk1 & Hk2 & _).
    destruct (update_keeps Math_random o _ (Settings.speed (settings d)) c Hinv H1)
      as (s1' & c1' & Eu' & _ & _ & _ & Ha1 & _).
    rewrite Eu in Eu'. injection Eu' as <- <-.
    unfold updateFPS, write in E.
    cbn [lastTime set_frameCount frameCount set_particleSystem texts] in E.
    unfold palette_invariant.
    destruct (1000 <=? now - lastTime d)%float; [destruct (fpsEl document) |];
      injection E as <- _;
      cbn [particleSystem settings texts set_texts set_lastTime set_frameCount
           set_particleSystem snd description];
      rewrite Hk1, Hk2, Ha1; auto.
Qed.

Lemma play_palette (evs : list event) :
  forall (d d' : Driver) (c c' : nat) (console : list error),
    stage_invariant d -> Panel d -> Palette d -> Forall (on_page Math_sin) evs ->
    Play evs d c = (console, d', c') -> Palette d'.
Proof.
  induction evs as [|ev evs IH]; intros d d' c c' console Hstage Hpanel Hpal Hevs E.
  - cbn in E. injection E as _ <- _. exact Hpal.
  - apply Forall_cons in Hevs as [Hev Hevs].
    destruct (dispatch_keeps Math_sin Math_random THREE_Color document ev d c
                Hstage Hpanel Hev) as (d1 & c1 & E1 & Hs1 & Hp1).
    pose proof (dispatch_palette ev d d1 c c1 Hstage Hpanel Hpal Hev E1) as Hpal1.
    cbn [play] in E. rewrite E1 in E.
    destruct (play Math_sin Math_random THREE_Color document evs d1 c1)
      as [[console1 d2] c2] eqn:E2.
    injection E as _ <- _.
    exact (IH d1 d2 c1 c2 console1 Hs1 Hp1 Hpal1 Hevs E2).
Qed.

(** X20.  The engine follows the settings.  After any events of the page,
    the engine the driver updates has the colours that the settings name,
    as [THREE.Color] reads them, and the page (when it has the element)
    shows the description of the engine's field, which is the field the
    settings name. *)
Theorem engine_follows_settings (start : float) (c c0 c1 : nat)
    (evs : list event) (d0 d : Driver) (console : list error) :
  Main start c = Returns (d0, c0) -> Play evs d0 c0 = (console, d, c1) ->
  Forall (on_page Math_sin) evs ->
  colorStart (snd (particleSystem d))
  = THREE_Color (Settings.colorStart (settings d)) /\
  colorEnd (snd (particleSystem d))
  = THREE_Color (Settings.colorEnd (settings d)) /\
  own_property (attractors Math_sin) (Settings.attractor (settings d))
  = Some (currentAttractor (snd (particleSystem d))) /\
  (descEl document = true ->
   description (texts d) = Some (currentAttractor (snd (particleSystem d)))).
Proof.
  intros E E' Hevs.
  destruct (script_returns Math_sin Math_random THREE_Color document
              Settings.initial start c lorenz eq_refl)
    as (d0' & s & E0 & Ec & Hset & Hps & _ & _ & _ & _ & Hstage & Hpanel & _ & _ & _
        & Hdesc & _).
  { cbn [Settings.trailLength Settings.initial]. lia. }
  assert (d0' = d0) as ->.
  { assert (Returns (d0, c0)
            = Returns (d0', c + Settings.particleCount Settings.initial * 3)) as H
      by (etransitivity; [symmetry; exact E | exact E0]).
    congruence. }
  assert (Palette d0) as Hpal.
  { destruct (construct_colours _ _ _ _ _ Ec) as (H1 & H2 & H3).
    unfold palette_invariant. rewrite Hps, Hset. cbn [snd].
    split; [exact H1 |]. split; [exact H2 |].
    intros Hel. rewrite Hdesc, Hel, H3. reflexivity. }
  destruct (play_palette evs d0 d _ c1 console Hstage Hpanel Hpal Hevs E')
    as (H1 & H2 & H3).
  destruct (main_played Math_sin Math_random THREE_Color document start c _ c1 evs
              d0 d console E E' Hevs) as (_ & _ & (Hattr & _)).
  splits; assumption.
Qed.
End Palette.

Lemma engine_follows_settings_witness :
  exists d0 c0 d c1,
    main (fun v => v) draws_centre all_red whole_page 0 0 = Returns (d0, c0) /\
    play (fun v => v) draws_centre all_red whole_page
      [ColorEndPicked "#ffffff"; AnimationFrame 16; AttractorSelected "chen"]
      d0 c0 = ([], d, c1) /\
    colorEnd (snd (particleSystem d)) = red /\
    description (texts d) = Some (currentAttractor (snd (particleSystem d))).
Proof.
  destruct (main_play (fun v => v) draws_centre all_red whole_page 0 0
              [ColorEndPicked "#ffffff"; AnimationFrame 16; AttractorSelected "chen"])
    as (d0 & c0 & d & c1 & E & E' & _).
  { repeat (apply List.Forall_cons; [cbn; try exact I; tauto |]).
    apply List.Forall_nil. }
  destruct (engine_follows_settings (fun v => v) draws_centre all_red whole_page
              0 0 c0 c1 _ d0 d [] E E') as (_ & Hce & _ & Hdesc).
  { repeat (apply List.Forall_cons; [cbn; try exact I; tauto |]).
    apply List.Forall_nil. }
  exists d0, c0, d, c1. split; [exact E |]. split; [exact E' |].
  split; [exact Hce | apply Hdesc; reflexivity].
Defined.

(** ** A name of Object.prototype as the field *)

Lemma mul_nan (x : float) : (x * nan)%float = nan.
Proof.
  apply Prim2SF_inj. rewrite FloatAxioms.mul_spec.
  change (Prim2SF nan) with S754_nan.
  destruct (Prim2SF x); reflexivity.
Qed.

Lemma nan_add (x : float) : (nan + x)%float = nan.
Proof.
  apply Prim2SF_inj. rewrite FloatAxioms.add_spec.
  change (Prim2SF nan) with S754_nan. reflexivity.
Qed.

Lemma seed_cell_nan (Math_random : nat -> float) (c m : nat) :
  seed_cell Math_random nan c m = nan.
Proof.
  unfold seed_cell. destruct (Nat.eqb (m mod 3) 2).
  - rewrite mul_nan, nan_add. reflexivity.
  - rewrite mul_nan. reflexivity.
Qed.

Lemma tabulate_const {A : Type} (v : A) (n : nat) :
  tabulate (fun _ => v) n = replicate n v.
Proof.
  unfold tabulate. generalize 0.
  induction n as [|n IH]; intros k; [reflexivity |].
  cbn. f_equal. apply IH.
Qed.

Section Inherited.
Variable Math_sin : float -> float.
Variable Math_random : nat -> float.
Variable THREE_Color : string -> THREE.Color.
Variable document : Document.

Local Abbreviation Dispatch := (dispatch Math_sin Math_random THREE_Color document).
Local Abbreviation Play := (play Math_sin Math_random THREE_Color document).
Local Abbreviation Main := (main Math_sin Math_random THREE_Color document).

Lemma lookup_inherited (value : string) :
  In value Object_prototype -> lookup (attractors Math_sin) value = Inherited value.
Proof.
  unfold Object_prototype. cbn [In]. intros Hin.
  repeat (destruct Hin as [<-|Hin]; [reflexivity |]).
  contradiction.
Qed.

(** X21.  A name of [Object.prototype] as the field.  Were the [Type] list
    to give a name such as [toString], the callback would raise a TypeError
    and leave that name in the settings (X12).  When the particle count is
    then finished, [recreateParticleSystem] returns: it constructs an
    engine on the member inherited under that name, from three draws for
    each particle; that engine has no parameter and every number of its
    ring is NaN.  Every frame after that raises a TypeError in [update]
    (the member has no [step] to call) and changes nothing, as long as the
    engine has a particle. *)
Theorem inherited_name_engine (start : float) (c c0 c1 : nat) (evs : list event)
    (d0 d : Driver) (console : list error) (value : string) :
  Main start c = Returns (d0, c0) -> Play evs d0 c0 = (console, d, c1) ->
  Forall (on_page Math_sin) evs ->
  In value Object_prototype ->
  0 < Settings.particleCount (settings d) ->
  exists d1 s,
    Dispatch (AttractorSelected value) d c1 = (Throws TypeError, d1, c1) /\
    Settings.attractor (settings d1) = value /\
    construct Math_random fieldless (options_of THREE_Color (settings d)) c1
    = Returns (s, c1 + Settings.particleCount (settings d) * 3) /\
    currentParams s = [] /\
    trailPositions s
    = replicate (Settings.trailLength (settings d))
        (replicate (Settings.particleCount (settings d) * 3) nan) /\
    exists d2,
      Dispatch CountFinished d1 c1
      = (Returns tt, d2, c1 + Settings.particleCount (settings d) * 3) /\
      particleSystem d2 = (constructed d, s) /\
      scene d2 = scene_add (Points (constructed d))
                   (scene_remove (Points (fst (particleSystem d))) (scene d)) /\
      forall now,
        Dispatch (AnimationFrame now) d2
          (c1 + Settings.particleCount (settings d) * 3)
        = (Throws TypeError, d2, c1 + Settings.particleCount (settings d) * 3).
Proof.
  intros E E' Hevs Hin HP.
  destruct (main_played Math_sin Math_random THREE_Color document start c c0 c1 evs
              d0 d console E E' Hevs) as (_ & Hstage & Hpanel).
  pose proof Hpanel as (_ & _ & _ & (f & Hf & _) & _).
  pose proof (lookup_inherited value Hin) as Hl.
  pose proof (construct_seeded Math_random fieldless
                (options_of THREE_Color (settings d)) c1) as Ec.
  set (s := repack _) in Ec.
  change (Options.particleCount (options_of THREE_Color (settings d)))
    with (Settings.particleCount (settings d)) in Ec.
  assert (particleCount s = Settings.particleCount (settings d)) as HPs
    by reflexivity.
  eexists _, s. split.
  { cbn [dispatch]. rewrite bind_write. unfold onAttractorChange.
    rewrite bind_read. cbn [paramFolder set_settings]. rewrite Hf.
    rewrite DM_bind_run. unfold write at 1. cbv beta iota.
    rewrite Hl. cbn [descriptor].
    rewrite DM_bind_run. unfold defined at 1. cbv beta iota. reflexivity. }
  split; [reflexivity |]. split; [exact Ec |]. split; [reflexivity |].
  split.
  { subst s. fields. unfold seeded_ring. fields. cbn [scale fieldless].
    rewrite (tabulate_ext _ (fun _ => nan)) by (intros; apply seed_cell_nan).
    rewrite tabulate_const. reflexivity. }
  cbn [dispatch]. unfold recreateParticleSystem, updateParticlesDisplay.
  rewrite !DM_bind_run. unfold write at 1. cbv beta iota.
  rewrite !DM_bind_run. unfold write at 1. cbv beta iota.
  rewrite !DM_bind_run. unfold read at 1. cbv beta iota.
  cbn [settings set_particleSystem set_scene set_paramFolder set_settings
       Settings.attractor Settings.set_attractor].
  rewrite !DM_bind_run, Hl. unfold new_ParticleSystem at 1.
  change (options_of THREE_Color (Settings.set_attractor value (settings d)))
    with (options_of THREE_Color (settings d)).
  rewrite Ec.
  rewrite !DM_bind_run. unfold write at 1. cbv beta iota.
  destruct (countEl document).
  - unfold write. eexists. split; [reflexivity |].
    split; [reflexivity |]. split; [reflexivity |].
    intros now. cbn [dispatch]. unfold animate.
    rewrite !bind_read, DM_bind_run.
    cbn [stepless set_texts set_scene replace_particleSystem andb].
    unfold on_engine.
    cbn [particleSystem set_texts set_scene replace_particleSystem snd].
    rewrite HPs. destruct (Nat.ltb_spec 0 (Settings.particleCount (settings d)));
      [reflexivity | lia].
  - eexists. split; [reflexivity |].
    split; [reflexivity |]. split; [reflexivity |].
    intros now. cbn [dispatch]. unfold animate.
    rewrite !bind_read, DM_bind_run.
    cbn [stepless set_texts set_scene replace_particleSystem andb].
    unfold on_engine.
    cbn [particleSystem set_texts set_scene replace_particleSystem snd].
    rewrite HPs. destruct (Nat.ltb_spec 0 (Settings.particleCount (settings d)));
      [reflexivity | lia].
Qed.
End Inherited.

Lemma inherited_name_engine_witness :
  exists d0 c0 d1 s d2,
    main (fun v => v) draws_centre all_red whole_page 0 0 = Returns (d0, c0) /\
    dispatch (fun v => v) draws_centre all_red whole_page
      (AttractorSelected "toString") d0 c0
    = (Throws TypeError, d1, c0) /\
    dispatch (fun v => v) draws_centre all_red whole_page CountFinished d1 c0
    = (Returns tt, d2, c0 + Settings.particleCount (settings d0) * 3) /\
    particleSystem d2 = (constructed d0, s) /\ currentParams s = [] /\
    dispatch (fun v => v) draws_centre all_red whole_page (AnimationFrame 16) d2
      (c0 + Settings.particleCount (settings d0) * 3)
    = (Throws TypeError, d2, c0 + Settings.particleCount (settings d0) * 3).
Proof.
  destruct (script_returns (fun v => v) draws_centre all_red whole_page
              Settings.initial 0 0 lorenz eq_refl)
    as (d0 & s0 & E & _ & Hset & _); [cbn [Settings.trailLength Settings.initial]; lia |].
  destruct (inherited_name_engine (fun v => v) draws_centre all_red whole_page
              0 0 _ _ [] d0 d0 [] "toString" E eq_refl (List.Forall_nil _))
    as (d1 & s & E1 & _ & _ & Hp & _ & d2 & E2 & Hps & _ & Hframe).
  { unfold Object_prototype. cbn [In].
    repeat (first [left; reflexivity | right]). }
  { rewrite Hset. cbn [Settings.particleCount Settings.initial]. lia. }
  exists d0, (0 + Settings.particleCount Settings.initial * 3), d1, s, d2.
  split; [exact E |]. split; [exact E1 |]. split; [exact E2 |].
  split; [exact Hps |]. split; [exact Hp | apply Hframe].
Defined.
